(** * ClothSimulation: a mass-spring cloth on a sphere (src/main.py)

    A shallow embedding of the Taichi program: the spring topology, the
    triangle index and colour buffers, the mass-point fields, the [substep]
    kernel, the vertex buffer and the main loop.

    Numbers.  Python integers and Taichi [int] fields are [Z] (every index
    the program computes at n = 128 is far below 2^31).  Taichi floats are
    modelled by [float]: an exact real, or one of the IEEE special values
    produced by a division by zero.  Rounding and the sign of zero are not
    modelled.  Python-scope constants ([dt], [quad_size], [gravity], ...) are
    plain reals.

    Loops.  The outermost loops of a kernel are parallel loops whose bodies
    read and write the fields in place.  [substep] is the execution that
    runs the iterations of each loop in row-major order; [substep_in] runs
    them one after the other in any given order. *)

From Stdlib Require Import ZArith List Bool Lia Reals Lra Psatz Permutation.
Import ListNotations.
Open Scope Z_scope.

(** ** Floating-point values *)

Inductive float : Type :=
| Fin (r : R)
| PInf
| NInf
| NaN.

Module F.

Definition neg (a : float) : float :=
  match a with
  | Fin r => Fin (- r)
  | PInf => NInf
  | NInf => PInf
  | NaN => NaN
  end.

Definition add (a b : float) : float :=
  match a, b with
  | NaN, _ | _, NaN => NaN
  | Fin r, Fin s => Fin (r + s)
  | PInf, NInf | NInf, PInf => NaN
  | PInf, _ | _, PInf => PInf
  | NInf, _ | _, NInf => NInf
  end.

Definition sub (a b : float) : float := add a (neg b).

(** The infinity with the sign of [r], or NaN when [r] is zero. *)
Definition signed_inf (r : R) : float :=
  if Req_dec_T r 0 then NaN else if Rlt_dec 0 r then PInf else NInf.

Definition mul (a b : float) : float :=
  match a, b with
  | NaN, _ | _, NaN => NaN
  | Fin r, Fin s => Fin (r * s)
  | Fin r, PInf | PInf, Fin r => signed_inf r
  | Fin r, NInf | NInf, Fin r => signed_inf (- r)
  | PInf, PInf | NInf, NInf => PInf
  | PInf, NInf | NInf, PInf => NInf
  end.

Definition div (a b : float) : float :=
  match a, b with
  | NaN, _ | _, NaN => NaN
  | Fin r, Fin s => if Req_dec_T s 0 then signed_inf r else Fin (r / s)
  | Fin _, PInf | Fin _, NInf => Fin 0
  | PInf, Fin s => if Rlt_dec s 0 then NInf else PInf
  | NInf, Fin s => if Rlt_dec s 0 then PInf else NInf
  | _, _ => NaN
  end.

Definition sqrt (a : float) : float :=
  match a with
  | Fin r => if Rlt_dec r 0 then NaN else Fin (R_sqrt.sqrt r)
  | PInf => PInf
  | NInf | NaN => NaN
  end.

Definition exp (a : float) : float :=
  match a with
  | Fin r => Fin (Rtrigo_def.exp r)
  | PInf => PInf
  | NInf => Fin 0
  | NaN => NaN
  end.

(** Comparisons are false as soon as an operand is NaN. *)
Definition leb (a b : float) : bool :=
  match a, b with
  | NaN, _ | _, NaN => false
  | Fin r, Fin s => if Rle_dec r s then true else false
  | NInf, _ | _, PInf => true
  | _, _ => false
  end.

Definition ltb (a b : float) : bool :=
  match a, b with
  | NaN, _ | _, NaN => false
  | Fin r, Fin s => if Rlt_dec r s then true else false
  | PInf, _ | _, NInf => false
  | _, _ => true
  end.

(** [min] of the backend: the other operand when one is NaN. *)
Definition min (a b : float) : float :=
  match a, b with
  | NaN, _ => b
  | _, NaN => a
  | _, _ => if ltb a b then a else b
  end.

Definition of_Z (z : Z) : float := Fin (IZR z).

Definition is_finite (a : float) : Prop := exists r, a = Fin r.

End F.

(** ** Vectors: [ti.Vector] of three floats, and integer 2-vectors *)

Record vec3 : Type := V3 { vx : float; vy : float; vz : float }.

Definition vzero : vec3 := V3 (Fin 0) (Fin 0) (Fin 0).

Definition vec_of (g : R * R * R) : vec3 :=
  let '(a, b, c) := g in V3 (Fin a) (Fin b) (Fin c).

Definition vadd (a b : vec3) : vec3 :=
  V3 (F.add (vx a) (vx b)) (F.add (vy a) (vy b)) (F.add (vz a) (vz b)).

Definition vsub (a b : vec3) : vec3 :=
  V3 (F.sub (vx a) (vx b)) (F.sub (vy a) (vy b)) (F.sub (vz a) (vz b)).

(** [k * a] and [a * k]. *)
Definition smul (k : float) (a : vec3) : vec3 :=
  V3 (F.mul k (vx a)) (F.mul k (vy a)) (F.mul k (vz a)).

Definition vmuls (a : vec3) (k : float) : vec3 :=
  V3 (F.mul (vx a) k) (F.mul (vy a) k) (F.mul (vz a) k).

Definition dot (a b : vec3) : float :=
  F.add (F.add (F.mul (vx a) (vx b)) (F.mul (vy a) (vy b))) (F.mul (vz a) (vz b)).

Definition norm_sqr (a : vec3) : float := dot a a.

(** [a.norm()] is [sqrt(a.norm_sqr() + eps)] with [eps = 0]. *)
Definition norm (a : vec3) : float := F.sqrt (F.add (norm_sqr a) (Fin 0)).

(** [a.normalized()] is [invlen * a] with [invlen = 1 / (a.norm() + eps)]. *)
Definition normalized (a : vec3) : vec3 :=
  let invlen := F.div (Fin 1) (F.add (norm a) (Fin 0)) in
  smul invlen a.

Definition vfinite (a : vec3) : Prop :=
  F.is_finite (vx a) /\ F.is_finite (vy a) /\ F.is_finite (vz a).

Definition idx : Type := (Z * Z)%type.

Definition idx_add (i o : idx) : idx := (fst i + fst o, snd i + snd o).
Definition idx_sub (i j : idx) : idx := (fst i - fst j, snd i - snd j).
Definition idx_neg (o : idx) : idx := (- fst o, - snd o).

Definition idx_eqb (i j : idx) : bool :=
  (fst i =? fst j) && (snd i =? snd j).

(** [float(i - j).norm()] of an integer 2-vector. *)
Definition norm2 (o : idx) : float :=
  let a := F.of_Z (fst o) in
  let b := F.of_Z (snd o) in
  F.sqrt (F.add (F.add (F.mul a a) (F.mul b b)) (Fin 0)).

(** ** Ranges and buffers *)

(** Python's [range(a, b)]. *)
Definition range (a b : Z) : list Z :=
  map (fun k => a + Z.of_nat k) (seq 0 (Z.to_nat (b - a))).

(** [ti.ndrange(a, b)], also the order of [ti.grouped] over an a-by-b field. *)
Definition ndrange (a b : Z) : list idx :=
  flat_map (fun i => map (fun j => (i, j)) (range 0 b)) (range 0 a).

(** A one-dimensional field is a list; a write inside its shape replaces
    one cell, and the kernels never write outside. *)
Fixpoint store {A : Type} (l : list A) (k : nat) (a : A) : list A :=
  match l, k with
  | [], _ => []
  | _ :: t, O => a :: t
  | h :: t, S k' => h :: store t k' a
  end.

Definition write {A : Type} (l : list A) (k : Z) (a : A) : list A :=
  store l (Z.to_nat k) a.

Definition load (l : list Z) (k : Z) : Z := nth (Z.to_nat k) l 0.

(** A two-dimensional vector field, read at an index pair. *)
Definition field : Type := idx -> vec3.

Definition upd (f : field) (i : idx) (a : vec3) : field :=
  fun k => if idx_eqb k i then a else f k.

(** ** Spring topology (lines 72-83) *)

Definition manhattan (o : idx) : Z := Z.abs (fst o) + Z.abs (snd o).

Definition build_spring_offsets (bending_springs : bool) : list idx :=
  if bending_springs then
    flat_map (fun i =>
      flat_map (fun j =>
        if negb (idx_eqb (i, j) (0, 0)) then [(i, j)] else [])
        (range (-1) 2))
      (range (-1) 2)
  else
    flat_map (fun i =>
      flat_map (fun j =>
        if negb (idx_eqb (i, j) (0, 0)) && (Z.abs i + Z.abs j <=? 2)
        then [(i, j)] else [])
        (range (-2) 3))
      (range (-2) 3).

(** ** Program constants and state *)

Record Params : Type := {
  n : Z;
  gravity : R * R * R;
  dashpot_damping : R;
  drag_damping : R;
  bending_springs : bool
}.

Definition default_params : Params := {|
  n := 128;
  gravity := (0, -9.8, 0)%R;
  dashpot_damping := 1e4%R;
  drag_damping := 1%R;
  bending_springs := false
|}.

Definition quad_size (p : Params) : R := (1 / IZR (n p))%R.
Definition dt (p : Params) : R := (4e-2 / IZR (n p))%R.

(** [int(1 / 60 // dt)]: floor division of two Python floats, here the
    floor of the exact quotient; they agree for the program's n = 128,
    where the quotient 53.33 is far from an integer. *)
Definition floor_div (a b : R) : Z := Int_part (a / b).
Definition default_substeps (p : Params) : Z := floor_div (1 / 60) (dt p).

Definition num_triangles (p : Params) : Z := (n p - 1) * (n p - 1) * 2.

Record State : Type := {
  x : field;
  v : field;
  spring_Y : float;
  ball_radius : float;
  ball_center : vec3;
  indices : list Z;
  vertices : list vec3;
  colors : list vec3;
  spring_offsets : list idx;
  substeps : Z;
  (** the samples [ti.random()] will return, next one first *)
  rng : nat -> R
}.

Definition set_x (s : State) (f : field) : State :=
  {| x := f; v := v s; spring_Y := spring_Y s; ball_radius := ball_radius s;
     ball_center := ball_center s; indices := indices s;
     vertices := vertices s; colors := colors s;
     spring_offsets := spring_offsets s; substeps := substeps s;
     rng := rng s |}.

Definition set_v (s : State) (f : field) : State :=
  {| x := x s; v := f; spring_Y := spring_Y s; ball_radius := ball_radius s;
     ball_center := ball_center s; indices := indices s;
     vertices := vertices s; colors := colors s;
     spring_offsets := spring_offsets s; substeps := substeps s;
     rng := rng s |}.

Definition set_spring_Y (s : State) (a : float) : State :=
  {| x := x s; v := v s; spring_Y := a; ball_radius := ball_radius s;
     ball_center := ball_center s; indices := indices s;
     vertices := vertices s; colors := colors s;
     spring_offsets := spring_offsets s; substeps := substeps s;
     rng := rng s |}.

Definition set_ball_radius (s : State) (a : float) : State :=
  {| x := x s; v := v s; spring_Y := spring_Y s; ball_radius := a;
     ball_center := ball_center s; indices := indices s;
     vertices := vertices s; colors := colors s;
     spring_offsets := spring_offsets s; substeps := substeps s;
     rng := rng s |}.

Definition set_indices (s : State) (l : list Z) : State :=
  {| x := x s; v := v s; spring_Y := spring_Y s; ball_radius := ball_radius s;
     ball_center := ball_center s; indices := l;
     vertices := vertices s; colors := colors s;
     spring_offsets := spring_offsets s; substeps := substeps s;
     rng := rng s |}.

Definition set_vertices (s : State) (l : list vec3) : State :=
  {| x := x s; v := v s; spring_Y := spring_Y s; ball_radius := ball_radius s;
     ball_center := ball_center s; indices := indices s;
     vertices := l; colors := colors s;
     spring_offsets := spring_offsets s; substeps := substeps s;
     rng := rng s |}.

Definition set_colors (s : State) (l : list vec3) : State :=
  {| x := x s; v := v s; spring_Y := spring_Y s; ball_radius := ball_radius s;
     ball_center := ball_center s; indices := indices s;
     vertices := vertices s; colors := l;
     spring_offsets := spring_offsets s; substeps := substeps s;
     rng := rng s |}.

Definition set_rng (s : State) (g : nat -> R) : State :=
  {| x := x s; v := v s; spring_Y := spring_Y s; ball_radius := ball_radius s;
     ball_center := ball_center s; indices := indices s;
     vertices := vertices s; colors := colors s;
     spring_offsets := spring_offsets s; substeps := substeps s;
     rng := g |}.

(** The main loop stores the value of the "substeps" slider in the module's
    [substeps] (line 136). *)
Definition set_substeps (s : State) (k : Z) : State :=
  {| x := x s; v := v s; spring_Y := spring_Y s; ball_radius := ball_radius s;
     ball_center := ball_center s; indices := indices s;
     vertices := vertices s; colors := colors s;
     spring_offsets := spring_offsets s; substeps := k;
     rng := rng s |}.

(** [ti.random()]: the next sample, and the generator advanced by one. *)
Definition random (s : State) : float * State :=
  (Fin (rng s O), set_rng s (fun k => rng s (S k))).

(** The fields as the module creates them (lines 11-32 and 72-83): Taichi
    fields start at zero.  Taichi refuses a field of shape 0, so the module
    only loads for n >= 2, where the index buffer is not empty. *)
Definition initial_state (p : Params) (g : nat -> R) : State := {|
  x := fun _ => vzero;
  v := fun _ => vzero;
  spring_Y := Fin 1e3;
  ball_radius := Fin 0.3;
  ball_center := vzero;
  indices := repeat 0 (Z.to_nat (num_triangles p * 3));
  vertices := repeat vzero (Z.to_nat (n p * n p));
  colors := repeat vzero (Z.to_nat (n p * n p));
  spring_offsets := build_spring_offsets (bending_springs p);
  substeps := default_substeps p;
  rng := g
|}.

(** ** reset (lines 34-37)

    [substeps] is assigned without a [global] declaration: the assignment
    binds a local of the function and the module's [substeps] keeps its
    value. *)
Definition reset (p : Params) (s : State) : State :=
  let substeps_local := default_substeps p in
  let s := set_spring_Y s (Fin 1e3) in
  let s := set_ball_radius s (Fin 0.3) in
  s.

(** ** initialize_mass_points (lines 39-48) *)

Definition initialize_mass_points (p : Params) (s : State) : State :=
  let '(r0, s) := random s in
  let '(r1, s) := random s in
  let random_offset :=
    (F.mul (F.sub r0 (Fin 0.5)) (Fin 0.1), F.mul (F.sub r1 (Fin 0.5)) (Fin 0.1)) in
  fold_left (fun s ij =>
    let '(i, j) := ij in
    let s := set_x s (upd (x s) (i, j)
      (V3 (F.add (F.sub (F.mul (F.of_Z i) (Fin (quad_size p))) (Fin 0.5))
                 (fst random_offset))
          (Fin 0.6)
          (F.add (F.sub (F.mul (F.of_Z j) (Fin (quad_size p))) (Fin 0.5))
                 (snd random_offset)))) in
    set_v s (upd (v s) (i, j) vzero))
    (ndrange (n p) (n p)) s.

(** ** initialize_mesh_indices (lines 51-68) *)

Definition write_quad (p : Params) (s : State) (ij : idx) : State :=
  let '(i, j) := ij in
  let quad_id := i * (n p - 1) + j in
  let s := set_indices s (write (indices s) (quad_id * 6 + 0) (i * n p + j)) in
  let s := set_indices s (write (indices s) (quad_id * 6 + 1) ((i + 1) * n p + j)) in
  let s := set_indices s (write (indices s) (quad_id * 6 + 2) (i * n p + (j + 1))) in
  let s := set_indices s (write (indices s) (quad_id * 6 + 3) ((i + 1) * n p + j + 1)) in
  let s := set_indices s (write (indices s) (quad_id * 6 + 4) (i * n p + (j + 1))) in
  let s := set_indices s (write (indices s) (quad_id * 6 + 5) ((i + 1) * n p + j)) in
  s.

Definition write_color (p : Params) (s : State) (ij : idx) : State :=
  let '(i, j) := ij in
  if (i / 4 + j / 4) mod 2 =? 0 then
    set_colors s (write (colors s) (i * n p + j) (V3 (Fin 0.9) (Fin 0.9) (Fin 0.9)))
  else
    set_colors s (write (colors s) (i * n p + j) (V3 (Fin 0.1) (Fin 0.1) (Fin 0.1))).

Definition initialize_mesh_indices (p : Params) (s : State) : State :=
  let s := fold_left (write_quad p) (ndrange (n p - 1) (n p - 1)) s in
  fold_left (write_color p) (ndrange (n p) (n p)) s.

(** ** substep (lines 85-114) *)

Definition in_bounds (p : Params) (j : idx) : bool :=
  (0 <=? fst j) && (fst j <? n p) && ((0 <=? snd j) && (snd j <? n p)).

Definition gravity_body (p : Params) (s : State) (i : idx) : State :=
  set_v s (upd (v s) i (vadd (v s i) (vmuls (vec_of (gravity p)) (Fin (dt p))))).

(** One unrolled iteration of the [ti.static] loop over the offsets. *)
Definition spring_term (p : Params) (s : State) (i : idx) (force : vec3)
    (spring_offset : idx) : vec3 :=
  let j := idx_add i spring_offset in
  if in_bounds p j then
    let x_ij := vsub (x s i) (x s j) in
    let v_ij := vsub (v s i) (v s j) in
    let d := normalized x_ij in
    let current_dist := norm x_ij in
    let original_dist := F.mul (Fin (quad_size p)) (norm2 (idx_sub i j)) in
    let force :=
      vadd force
        (vmuls (smul (F.neg (spring_Y s)) d)
               (F.sub (F.div current_dist original_dist) (Fin 1))) in
    let force :=
      vadd force
        (vmuls (vmuls (smul (F.neg (dot v_ij d)) d) (Fin (dashpot_damping p)))
               (Fin (quad_size p))) in
    force
  else force.

Definition spring_force (p : Params) (s : State) (i : idx) : vec3 :=
  fold_left (spring_term p s i) (spring_offsets s) vzero.

Definition spring_body (p : Params) (s : State) (i : idx) : State :=
  let force := spring_force p s i in
  set_v s (upd (v s) i (vadd (v s i) (vmuls force (Fin (dt p))))).

(** The collision response of lines 109-113 on the velocity [vi] of a point
    at [xi], for a ball at [center] with radius [radius]. *)
Definition collide (center : vec3) (radius : float) (xi vi : vec3) : vec3 :=
  let offset_to_center := vsub xi center in
  if F.leb (norm offset_to_center) radius then
    let normal := normalized offset_to_center in
    vsub vi (smul (F.min (dot vi normal) (Fin 0)) normal)
  else vi.

Definition drag (p : Params) (vi : vec3) : vec3 :=
  vmuls vi (F.exp (Fin (- drag_damping p * dt p))).

Definition collision_body (p : Params) (s : State) (i : idx) : State :=
  let s := set_v s (upd (v s) i (drag p (v s i))) in
  let s :=
    set_v s (upd (v s) i (collide (ball_center s) (ball_radius s) (x s i) (v s i))) in
  set_x s (upd (x s) i (vadd (x s i) (smul (Fin (dt p)) (v s i)))).

Definition gravity_stage (p : Params) (s : State) : State :=
  fold_left (gravity_body p) (ndrange (n p) (n p)) s.

Definition spring_stage (p : Params) (s : State) : State :=
  fold_left (spring_body p) (ndrange (n p) (n p)) s.

Definition collision_stage (p : Params) (s : State) : State :=
  fold_left (collision_body p) (ndrange (n p) (n p)) s.

Definition substep (p : Params) (s : State) : State :=
  collision_stage p (spring_stage p (gravity_stage p s)).

(** ** Schedules of the kernel loops

    The outermost loops of a kernel are parallel loops.  A serial execution
    runs the iterations one after the other, each to its end, in some
    order: a schedule is such an order of the grid cells.  [substep] itself
    is the execution in which the three loops run in row-major order. *)
Definition schedule (p : Params) (l : list idx) : Prop :=
  Permutation (ndrange (n p) (n p)) l.

Definition substep_in (p : Params) (lg ls lc : list idx) (s : State) : State :=
  fold_left (collision_body p) lc
    (fold_left (spring_body p) ls (fold_left (gravity_body p) lg s)).

(** ** update_vertices (lines 116-119) *)

Definition update_vertices (p : Params) (s : State) : State :=
  fold_left (fun s ij =>
    let '(i, j) := ij in
    set_vertices s (write (vertices s) (i * n p + j) (x s (i, j))))
    (ndrange (n p) (n p)) s.

(** ** The main loop (lines 133-156)

    What the window hands to one pass of the loop: each slider maps the
    value it is shown to the value it returns, each button says whether it
    was pressed. *)
Record Gui : Type := {
  slider_spring_Y : float -> float;
  slider_substeps : Z -> Z;
  slider_ball_radius : float -> float;
  button_reset : bool;
  button_generate : bool
}.

(** One pass of the [while window.running] loop, up to the drawing calls,
    which change no field. *)
Definition frame (p : Params) (g : Gui) (s : State) : State :=
  let s := set_spring_Y s (slider_spring_Y g (spring_Y s)) in
  let s := set_substeps s (slider_substeps g (substeps s)) in
  let s := set_ball_radius s (slider_ball_radius g (ball_radius s)) in
  let to_reset := button_reset g in
  let to_generate := button_generate g in
  let s := if to_generate then initialize_mass_points p s else s in
  let s := if to_reset then reset p s else s in
  let s := fold_left (fun s _ => substep p s) (range 0 (substeps s)) s in
  update_vertices p s.

(** The state when the main loop is entered: the fields as created, and the
    call of [initialize_mesh_indices] at line 70. *)
Definition startup (p : Params) (g : nat -> R) : State :=
  initialize_mesh_indices p (initial_state p g).

(** The main loop over the passes the window allows. *)
Definition run (p : Params) (gs : list Gui) (s : State) : State :=
  fold_left (fun s g => frame p g s) gs s.

(** ** Vocabulary of the statements *)

(** Row-major flattening of a grid cell. *)
Definition flat (p : Params) (i j : Z) : Z := i * n p + j.

(** What [write_quad] does to the index buffer alone. *)
Definition quad_buf (p : Params) (l : list Z) (ij : idx) : list Z :=
  let '(i, j) := ij in
  let q := i * (n p - 1) + j in
  write (write (write (write (write (write l
    (q * 6 + 0) (flat p i j))
    (q * 6 + 1) (flat p (i + 1) j))
    (q * 6 + 2) (flat p i (j + 1)))
    (q * 6 + 3) (flat p (i + 1) (j + 1)))
    (q * 6 + 4) (flat p i (j + 1)))
    (q * 6 + 5) (flat p (i + 1) j).

(** The k-th of the six entries of quad (i,j): triangle A, then triangle B. *)
Definition quad_entry (p : Params) (i j k : Z) : Z :=
  if k =? 0 then flat p i j
  else if k =? 1 then flat p (i + 1) j
  else if k =? 2 then flat p i (j + 1)
  else if k =? 3 then flat p (i + 1) (j + 1)
  else if k =? 4 then flat p i (j + 1)
  else flat p (i + 1) j.

(** A cell of the n-by-n grid. *)
Definition on_grid (p : Params) (k : idx) : Prop :=
  0 <= fst k < n p /\ 0 <= snd k < n p.

(** What [substep] reads besides the two fields. *)
Definition tunables (s : State) : float * float * vec3 * list idx :=
  (spring_Y s, ball_radius s, ball_center s, spring_offsets s).

Definition nan3 : vec3 := V3 NaN NaN NaN.

Definition vneg (a : vec3) : vec3 :=
  V3 (F.neg (vx a)) (F.neg (vy a)) (F.neg (vz a)).

(** The two force terms point [i] accumulates for its neighbour [j]
    (lines 95-103). *)
Definition elastic_term (p : Params) (s : State) (i j : idx) : vec3 :=
  let x_ij := vsub (x s i) (x s j) in
  let d := normalized x_ij in
  let current_dist := norm x_ij in
  let original_dist := F.mul (Fin (quad_size p)) (norm2 (idx_sub i j)) in
  vmuls (smul (F.neg (spring_Y s)) d)
        (F.sub (F.div current_dist original_dist) (Fin 1)).

Definition dashpot_term (p : Params) (s : State) (i j : idx) : vec3 :=
  let x_ij := vsub (x s i) (x s j) in
  let v_ij := vsub (v s i) (v s j) in
  let d := normalized x_ij in
  vmuls (vmuls (smul (F.neg (dot v_ij d)) d) (Fin (dashpot_damping p)))
        (Fin (quad_size p)).

(** Connected in-bounds points are at different positions. *)
Definition neighbours_apart (p : Params) (s : State) : Prop :=
  forall i o, on_grid p i -> In o (spring_offsets s) ->
              on_grid p (idx_add i o) ->
              vsub (x s i) (x s (idx_add i o)) <> vzero.

(** Every point is strictly outside the ball. *)
Definition outside_ball (p : Params) (s : State) : Prop :=
  forall k, on_grid p k ->
            F.ltb (ball_radius s) (norm (vsub (x s k) (ball_center s))) = true.

(** The dashpot term vanishes: its coefficient is zero, or all points move
    with one velocity. *)
Definition no_dashpot (p : Params) (s : State) : Prop :=
  dashpot_damping p = 0%R \/
  forall k k', on_grid p k -> on_grid p k' -> v s k = v s k'.

(** A 2-by-2 cloth without gravity: four points at different places
    outside the ball. *)
Definition params_still : Params := {|
  n := 2;
  gravity := (0, 0, 0)%R;
  dashpot_damping := 1e4%R;
  drag_damping := 1%R;
  bending_springs := false
|}.

Definition cell_x (k : idx) : vec3 :=
  if idx_eqb k (0, 0) then V3 (Fin 1) (Fin 0) (Fin 0)
  else if idx_eqb k (0, 1) then V3 (Fin 1) (Fin 0) (Fin 1)
  else if idx_eqb k (1, 0) then V3 (Fin 1) (Fin 1) (Fin 0)
  else V3 (Fin 2) (Fin 0) (Fin 0).

(** Three points slide along x, the fourth is at rest. *)
Definition cell_v (k : idx) : vec3 :=
  if idx_eqb k (1, 1) then vzero else V3 (Fin 1) (Fin 0) (Fin 0).

Definition state_sliding : State :=
  set_spring_Y
    (set_v (set_x (initial_state params_still (fun _ => 0%R)) cell_x) cell_v)
    (Fin 0).

(** All four points at one place outside the ball, at rest. *)
Definition state_collapsed : State :=
  set_spring_Y
    (set_x (initial_state params_still (fun _ => 0%R))
           (fun _ => V3 (Fin 1) (Fin 0) (Fin 0)))
    (Fin 0).

Definition gravity_v (p : Params) (s : State) (i : idx) : vec3 :=
  vadd (v s i) (vmuls (vec_of (gravity p)) (Fin (dt p))).

Definition collision_v (p : Params) (s : State) (i : idx) : vec3 :=
  collide (ball_center s) (ball_radius s) (x s i) (drag p (v s i)).

Definition collision_x (p : Params) (s : State) (i : idx) : vec3 :=
  vadd (x s i) (smul (Fin (dt p)) (collision_v p s i)).

Definition spring_v (p : Params) (s : State) (i : idx) : vec3 :=
  vadd (v s i) (vmuls (spring_force p s i) (Fin (dt p))).

(** Two states that hold the same values on the grid and the same tunables. *)
Definition same_physics (p : Params) (s s' : State) : Prop :=
  (forall k, on_grid p k -> x s k = x s' k /\ v s k = v s' k) /\
  tunables s = tunables s'.

(** Everything in the state but the position and velocity fields. *)
Definition rest (s : State) :=
  (indices s, colors s, vertices s, ball_center s, ball_radius s,
   spring_Y s, spring_offsets s, substeps s, rng s).

(** The position the kernel writes at cell [ij] when the two samples drawn
    are [u0] and [u1]. *)
Definition sheet_point (p : Params) (u0 u1 : R) (ij : idx) : vec3 :=
  V3 (F.add (F.sub (F.mul (F.of_Z (fst ij)) (Fin (quad_size p))) (Fin 0.5))
            (F.mul (F.sub (Fin u0) (Fin 0.5)) (Fin 0.1)))
     (Fin 0.6)
     (F.add (F.sub (F.mul (F.of_Z (snd ij)) (Fin (quad_size p))) (Fin 0.5))
            (F.mul (F.sub (Fin u1) (Fin 0.5)) (Fin 0.1))).

Definition len (a b c : R) : R := sqrt (a * a + b * b + c * c + 0).

Definition len2 (o : idx) : R :=
  sqrt (IZR (fst o) * IZR (fst o) + IZR (snd o) * IZR (snd o) + 0).




(** The four points apart, all with the same infinite velocity. *)
Definition state_runaway : State :=
  set_spring_Y
    (set_v (set_x (initial_state params_still (fun _ => 0%R)) cell_x)
           (fun _ => V3 PInf (Fin 0) (Fin 0)))
    (Fin 0).

(** The program's constants on a 2-by-2 grid. *)
Definition params_n2 : Params := {|
  n := 2;
  gravity := gravity default_params;
  dashpot_damping := dashpot_damping default_params;
  drag_damping := drag_damping default_params;
  bending_springs := false
|}.

Definition light : vec3 := V3 (Fin 0.9) (Fin 0.9) (Fin 0.9).
Definition dark : vec3 := V3 (Fin 0.1) (Fin 0.1) (Fin 0.1).

(** What the second loop of [initialize_mesh_indices] and the loop of
    [update_vertices] do to their buffer alone: one write per cell. *)
Definition fill {A : Type} (pos : idx -> Z) (val : idx -> A) (cells : list idx)
    (buf : list A) : list A :=
  fold_left (fun l a => write l (pos a) (val a)) cells buf.

Definition cell_color (ij : idx) : vec3 :=
  if (fst ij / 4 + snd ij / 4) mod 2 =? 0 then light else dark.

Definition flat_of (p : Params) (ij : idx) : Z := fst ij * n p + snd ij.

(** Every velocity is NaN. *)
Definition state_nan : State :=
  set_v (set_x (initial_state params_n2 (fun _ => 0%R)) cell_x) (fun _ => nan3).

(** The velocity of one point, (0,1), is NaN; the others are at rest. *)
Definition state_one_nan : State :=
  set_v (set_x (initial_state params_n2 (fun _ => 0%R)) cell_x)
        (fun k => if idx_eqb k (0, 1) then nan3 else vzero).

(** A flat horizontal sheet with grid spacing [quad_size], its corner (0,0)
    at [c]. *)
Definition flat_sheet (p : Params) (c : R * R * R) (k : idx) : vec3 :=
  let '(cx, cy, cz) := c in
  V3 (Fin (IZR (fst k) * quad_size p + cx)) (Fin cy)
     (Fin (IZR (snd k) * quad_size p + cz)).

(** The cloth is a flat sheet at [c] and all its points have velocity [w]. *)
Definition rigid_sheet (p : Params) (s : State) (c w : R * R * R) : Prop :=
  forall k, on_grid p k -> x s k = flat_sheet p c k /\ v s k = vec_of w.

(** Velocity and corner of a sheet after one step of free fall. *)
Definition fall_v (p : Params) (w : R * R * R) : R * R * R :=
  let '(w1, w2, w3) := w in
  let '(g1, g2, g3) := gravity p in
  let e := exp (- drag_damping p * dt p) in
  ((w1 + g1 * dt p) * e, (w2 + g2 * dt p) * e, (w3 + g3 * dt p) * e)%R.

Definition fall_x (p : Params) (c w : R * R * R) : R * R * R :=
  let '(c1, c2, c3) := c in
  let '(u1, u2, u3) := fall_v p w in
  (c1 + dt p * u1, c2 + dt p * u2, c3 + dt p * u3)%R.

(** The corner of the sheet [initialize_mass_points] lays out when the two
    samples are [u0] and [u1]. *)
Definition generated_corner (u0 u1 : R) : R * R * R :=
  ((u0 - 0.5) * 0.1 - 0.5, 0.6, (u1 - 0.5) * 0.1 - 0.5)%R.

(** A pass in which "Reset" is pressed and the sliders sit at their upper
    ends, the substep slider at its lower end. *)
Definition gui_reset : Gui := {|
  slider_spring_Y := fun _ => Fin 3e4;
  slider_substeps := fun _ => 10;
  slider_ball_radius := fun _ => Fin 0.5;
  button_reset := true;
  button_generate := false
|}.

(** What a frame can only change through the sliders and buttons. *)
Definition settings (s : State) :=
  (indices s, colors s, ball_center s, spring_offsets s,
   spring_Y s, ball_radius s, substeps s).

(** The real number a finite float holds. *)
Definition re (a : float) : R :=
  match a with
  | Fin r => r
  | _ => 0%R
  end.

(** Four points in a row on the x axis, outside the ball; three of them
    move along the axis with one velocity, the last is at rest. *)
Definition line_x (k : idx) : vec3 :=
  if idx_eqb k (0, 0) then V3 (Fin 1) (Fin 0) (Fin 0)
  else if idx_eqb k (0, 1) then V3 (Fin 2) (Fin 0) (Fin 0)
  else if idx_eqb k (1, 0) then V3 (Fin 3) (Fin 0) (Fin 0)
  else V3 (Fin 4) (Fin 0) (Fin 0).

Definition state_in_line : State :=
  set_spring_Y
    (set_v (set_x (initial_state params_still (fun _ => 0%R)) line_x) cell_v)
    (Fin 0).

(** The spring loop started at the cell visited last in row-major order. *)
Definition last_cell_first : list idx := [(1, 1); (0, 0); (0, 1); (1, 0)].

(** What the dashpot terms of the in-bounds neighbours of [i] among the
    offsets [l] add to the first component of a force [f1], for points on a
    line along the x axis with velocities [u] along it. *)
Definition line_sum (p : Params) (u : idx -> R) (i : idx) (l : list idx)
    (f1 : R) : R :=
  fold_left (fun acc o =>
    if in_bounds p (idx_add i o)
    then (acc - (u i - u (idx_add i o)) * dashpot_damping p * quad_size p)%R
    else acc) l f1.

(** The states the row-major spring loop of [substep] is in, started on
    [state_in_line], when it visits the first and the last cell. *)
Definition line_at_first : State := gravity_stage params_still state_in_line.

Definition line_at_last : State :=
  fold_left (spring_body params_still) [(0, 0); (0, 1); (1, 0)] line_at_first.

(** The four points of [cell_x] with [spring_Y] at its default: the spring
    between (0,0) and (1,1) is stretched, and its ends move apart. *)
Definition state_stretched : State :=
  set_v (set_x (initial_state params_still (fun _ => 0%R)) cell_x) cell_v.

(** A finite vector whose coordinates are at most [B] in absolute value. *)
Definition within (B : R) (a : vec3) : Prop :=
  exists a1 a2 a3 : R,
    a = V3 (Fin a1) (Fin a2) (Fin a3) /\
    (Rabs a1 <= B)%R /\ (Rabs a2 <= B)%R /\ (Rabs a3 <= B)%R.

(** Two finite points at distance at least [eps]. *)
Definition apart (eps : R) (a b : vec3) : Prop :=
  exists d1 d2 d3 : R,
    vsub a b = V3 (Fin d1) (Fin d2) (Fin d3) /\
    (eps * eps <= d1 * d1 + d2 * d2 + d3 * d3)%R.

(** Magnitudes for which no intermediate value of [substep] leaves the
    range of a 32-bit float: every coordinate of a position or a velocity
    is at most 1e18 in absolute value, so that no squared distance
    overflows, and connected in-bounds points are at least 1e-18 apart, so
    that none underflows to zero. *)
Definition in_float_range (p : Params) (s : State) : Prop :=
  (forall k, on_grid p k -> within 1e18 (x s k) /\ within 1e18 (v s k)) /\
  (forall i o, on_grid p i -> In o (spring_offsets s) ->
               on_grid p (idx_add i o) ->
               apart 1e-18 (x s i) (x s (idx_add i o))).

(** The dashpot coefficient is zero, or no connected in-bounds pair has a
    relative velocity along its spring. *)
Definition no_motion_along_springs (p : Params) (s : State) : Prop :=
  dashpot_damping p = 0%R \/
  forall i o, on_grid p i -> In o (spring_offsets s) ->
              on_grid p (idx_add i o) ->
              dot (vsub (v s i) (v s (idx_add i o)))
                  (vsub (x s i) (x s (idx_add i o))) = Fin 0.

(** The four points of [cell_x] turning as a rigid body about the x axis. *)
Definition turn_v (k : idx) : vec3 :=
  if idx_eqb k (0, 1) then V3 (Fin 0) (Fin (-1)) (Fin 0)
  else if idx_eqb k (1, 0) then V3 (Fin 0) (Fin 0) (Fin 1)
  else vzero.

Definition state_turning : State :=
  set_spring_Y
    (set_v (set_x (initial_state params_still (fun _ => 0%R)) cell_x) turn_v)
    (Fin 0).

(** The relative velocity of [i] and [j] along the spring between them, up
    to the length of the spring. *)
Definition along_spring (s s0 : State) (i j : idx) : float :=
  dot (vsub (v s i) (v s j)) (vsub (x s0 i) (x s0 j)).

(** The sum of the dashpot terms (line 103) point [i] accumulates over its
    in-bounds springs. *)
Definition dashpot_force (p : Params) (s : State) (i : idx) : vec3 :=
  fold_left (fun f o =>
    if in_bounds p (idx_add i o)
    then vadd f (dashpot_term p s i (idx_add i o)) else f)
    (spring_offsets s) vzero.

(** The dashpot exerts no net force on any point. *)
Definition no_dashpot_force (p : Params) (s : State) : Prop :=
  forall i, on_grid p i -> dashpot_force p s i = vzero.

(** * Spring topology *)

Lemma spring_offsets_default :
  build_spring_offsets false =
  [(-2, 0); (-1, -1); (-1, 0); (-1, 1); (0, -2); (0, -1);
   (0, 1); (0, 2); (1, -1); (1, 0); (1, 1); (2, 0)].
Proof. reflexivity. Qed.

Lemma spring_offsets_bending :
  build_spring_offsets true =
  [(-1, -1); (-1, 0); (-1, 1); (0, -1); (0, 1); (1, -1); (1, 0); (1, 1)].
Proof. reflexivity. Qed.

Ltac in_list :=
  simpl; repeat (first [left; reflexivity | right]); try tauto.

Ltac nodup_list :=
  repeat (apply NoDup_cons; [simpl; intuition congruence |]); apply NoDup_nil.

Lemma in_bending_iff (di dj : Z) :
  In (di, dj) (build_spring_offsets true) <->
  -1 <= di <= 1 /\ -1 <= dj <= 1 /\ (di, dj) <> (0, 0).
Proof.
  rewrite spring_offsets_bending. split.
  - simpl. intros H.
    repeat (destruct H as [H | H];
            [injection H as <- <-; repeat split; (lia || discriminate) |]).
    contradiction.
  - intros (Hi & Hj & Hne).
    assert (di = -1 \/ di = 0 \/ di = 1) as [-> | [-> | ->]] by lia;
      assert (dj = -1 \/ dj = 0 \/ dj = 1) as [-> | [-> | ->]] by lia;
      try (exfalso; apply Hne; reflexivity); in_list.
Qed.

Lemma in_default_iff (di dj : Z) :
  In (di, dj) (build_spring_offsets false) <->
  Z.abs di + Z.abs dj <= 2 /\ (di, dj) <> (0, 0).
Proof.
  rewrite spring_offsets_default. split.
  - simpl. intros H.
    repeat (destruct H as [H | H];
            [injection H as <- <-; split; (lia || discriminate) |]).
    contradiction.
  - intros (Hm & Hne).
    assert (di = -2 \/ di = -1 \/ di = 0 \/ di = 1 \/ di = 2)
      as [-> | [-> | [-> | [-> | ->]]]] by lia;
      assert (dj = -2 \/ dj = -1 \/ dj = 0 \/ dj = 1 \/ dj = 2)
        as [-> | [-> | [-> | [-> | ->]]]] by lia;
      try (exfalso; apply Hne; reflexivity); try (simpl in Hm; lia); in_list.
Qed.

(** C6: without bending springs the construction yields exactly 12 distinct
    offsets, none of them (0,0), all of Manhattan norm at most 2; with
    bending springs it yields exactly the 8 offsets of the 3x3 neighbourhood
    without its centre. *)
Theorem spring_offsets_shape :
  (length (build_spring_offsets false) = 12%nat /\
   NoDup (build_spring_offsets false) /\
   ~ In (0, 0) (build_spring_offsets false) /\
   Forall (fun o => manhattan o <= 2) (build_spring_offsets false)) /\
  (length (build_spring_offsets true) = 8%nat /\
   NoDup (build_spring_offsets true) /\
   forall di dj : Z,
     In (di, dj) (build_spring_offsets true) <->
     -1 <= di <= 1 /\ -1 <= dj <= 1 /\ (di, dj) <> (0, 0)).
Proof.
  split.
  - split; [reflexivity |]. split; [| split].
    + rewrite spring_offsets_default. nodup_list.
    + intros H. apply in_default_iff in H. destruct H as [_ H]. now apply H.
    + apply Forall_forall. intros [di dj] H.
      apply in_default_iff in H. unfold manhattan. simpl. lia.
  - split; [reflexivity |]. split.
    + rewrite spring_offsets_bending. nodup_list.
    + exact in_bending_iff.
Qed.

Lemma offsets_closed_under_negation (b : bool) (o : idx) :
  In o (build_spring_offsets b) -> In (idx_neg o) (build_spring_offsets b).
Proof.
  destruct o as [di dj]. unfold idx_neg. simpl fst. simpl snd.
  destruct b.
  - rewrite !in_bending_iff. intros (Hi & Hj & Hne).
    repeat split; try lia.
    intros H. injection H as H1 H2. apply Hne. f_equal; lia.
  - rewrite !in_default_iff. intros (Hm & Hne).
    split; [lia |].
    intros H. injection H as H1 H2. apply Hne. f_equal; lia.
Qed.

(** * Ranges and buffer writes *)

Lemma in_range (a b z : Z) : In z (range a b) <-> a <= z < b.
Proof.
  unfold range. rewrite in_map_iff. split.
  - intros (k & <- & Hk). apply in_seq in Hk. lia.
  - intros H. exists (Z.to_nat (z - a)). split; [lia |].
    apply in_seq. lia.
Qed.

Lemma in_ndrange (a b : Z) (ij : idx) :
  In ij (ndrange a b) <-> (0 <= fst ij < a /\ 0 <= snd ij < b).
Proof.
  unfold ndrange. rewrite in_flat_map. split.
  - intros (i & Hi & Hij). apply in_map_iff in Hij.
    destruct Hij as (j & <- & Hj).
    apply in_range in Hi. apply in_range in Hj. simpl. lia.
  - destruct ij as [i j]. simpl. intros [Hi Hj]. exists i. split.
    + apply in_range. lia.
    + apply in_map_iff. exists j. split; [reflexivity |].
      apply in_range. lia.
Qed.

Section Store.
Context {A : Type}.

Lemma store_length (l : list A) (k : nat) (a : A) :
  length (store l k a) = length l.
Proof.
  revert k. induction l as [| h t IH]; intros [| k]; simpl; auto.
Qed.

Lemma nth_store_eq (l : list A) (k : nat) (a d : A) :
  (k < length l)%nat -> nth k (store l k a) d = a.
Proof.
  revert k. induction l as [| h t IH]; intros [| k]; simpl; intros H;
    try lia; auto.
  apply IH. lia.
Qed.

Lemma nth_store_neq (l : list A) (k k' : nat) (a d : A) :
  k <> k' -> nth k' (store l k a) d = nth k' l d.
Proof.
  revert k k'. induction l as [| h t IH]; intros [| k] [| k'] H; simpl;
    try congruence; auto.
Qed.
End Store.

(** * The triangle index buffer *)

Lemma write_quad_indices (p : Params) (s : State) (ij : idx) :
  indices (write_quad p s ij) = quad_buf p (indices s) ij.
Proof.
  destruct ij as [i j]. unfold write_quad, quad_buf, flat. simpl.
  now replace ((i + 1) * n p + j + 1) with ((i + 1) * n p + (j + 1)) by lia.
Qed.

Lemma fold_write_quad_indices (p : Params) (l : list idx) (s : State) :
  indices (fold_left (write_quad p) l s) = fold_left (quad_buf p) l (indices s).
Proof.
  revert s. induction l as [| a l IH]; intros s; simpl; [reflexivity |].
  now rewrite IH, write_quad_indices.
Qed.

Lemma write_color_indices (p : Params) (s : State) (ij : idx) :
  indices (write_color p s ij) = indices s.
Proof.
  destruct ij as [i j]. unfold write_color.
  now destruct ((i / 4 + j / 4) mod 2 =? 0).
Qed.

Lemma fold_write_color_indices (p : Params) (l : list idx) (s : State) :
  indices (fold_left (write_color p) l s) = indices s.
Proof.
  revert s. induction l as [| a l IH]; intros s; simpl; [reflexivity |].
  now rewrite IH, write_color_indices.
Qed.

Lemma write_length {A : Type} (l : list A) (k : Z) (a : A) :
  length (write l k a) = length l.
Proof. apply store_length. Qed.

Lemma quad_buf_length (p : Params) (l : list Z) (ij : idx) :
  length (quad_buf p l ij) = length l.
Proof.
  destruct ij as [i j]. unfold quad_buf. now rewrite !write_length.
Qed.

Lemma fold_quad_buf_length (p : Params) (qs : list idx) (l : list Z) :
  length (fold_left (quad_buf p) qs l) = length l.
Proof.
  revert l. induction qs as [| a qs IH]; intros l; simpl; [reflexivity |].
  now rewrite IH, quad_buf_length.
Qed.

Lemma load_write_eq (l : list Z) (k a : Z) :
  0 <= k < Z.of_nat (length l) -> load (write l k a) k = a.
Proof.
  intros H. unfold load, write. apply nth_store_eq. lia.
Qed.

Lemma load_write_neq (l : list Z) (k k' a : Z) :
  0 <= k -> 0 <= k' -> k <> k' -> load (write l k a) k' = load l k'.
Proof.
  intros Hk Hk' H. unfold load, write. apply nth_store_neq. lia.
Qed.

(** Writing quad (i,j) sets its six cells and no other. *)
Lemma load_quad_buf_same (p : Params) (l : list Z) (i j k : Z) :
  0 <= i * (n p - 1) + j ->
  (i * (n p - 1) + j) * 6 + 5 < Z.of_nat (length l) ->
  0 <= k < 6 ->
  load (quad_buf p l (i, j)) ((i * (n p - 1) + j) * 6 + k) = quad_entry p i j k.
Proof.
  intros Hq Hlen Hk. unfold quad_buf, quad_entry.
  set (q := i * (n p - 1) + j) in *.
  assert (k = 0 \/ k = 1 \/ k = 2 \/ k = 3 \/ k = 4 \/ k = 5)
    as [-> | [-> | [-> | [-> | [-> | ->]]]]] by lia; simpl;
    repeat first
      [ rewrite load_write_eq by (rewrite ?write_length; lia); reflexivity
      | rewrite load_write_neq by lia ].
Qed.

Lemma load_quad_buf_other (p : Params) (l : list Z) (i j pos : Z) :
  0 <= i * (n p - 1) + j -> 0 <= pos ->
  pos / 6 <> i * (n p - 1) + j ->
  load (quad_buf p l (i, j)) pos = load l pos.
Proof.
  intros Hq Hpos Hne. unfold quad_buf.
  set (q := i * (n p - 1) + j) in *.
  assert (forall k, 0 <= k < 6 -> q * 6 + k <> pos) as Hk.
  { intros k Hk E. apply Hne. rewrite <- E.
    rewrite Z.add_comm, Z.div_add by lia. rewrite Z.div_small; lia. }
  rewrite !load_write_neq; try lia; try reflexivity;
    match goal with |- ?a <> pos => apply Hk; lia end.
Qed.

Lemma quad_id_inj (m i j i' j' : Z) :
  0 <= j < m -> 0 <= j' < m ->
  i * m + j = i' * m + j' -> i = i' /\ j = j'.
Proof.
  intros Hj Hj' H.
  assert (i = i') as -> by nia. split; lia.
Qed.

Lemma quad_id_bounds (m i j : Z) :
  0 <= i < m -> 0 <= j < m -> 0 <= i * m + j < m * m.
Proof. intros. nia. Qed.

Lemma load_fold_quad_buf (p : Params) (qs : list idx) (l : list Z) (i j k : Z) :
  Z.of_nat (length l) = 6 * ((n p - 1) * (n p - 1)) ->
  (forall q, In q qs -> 0 <= fst q < n p - 1 /\ 0 <= snd q < n p - 1) ->
  In (i, j) qs -> 0 <= k < 6 ->
  load (fold_left (quad_buf p) qs l) ((i * (n p - 1) + j) * 6 + k)
  = quad_entry p i j k.
Proof.
  intros Hlen. induction qs as [| a qs IH] using rev_ind; intros Hqs Hin Hk.
  - destruct Hin.
  - rewrite fold_left_app. simpl.
    assert (0 <= fst a < n p - 1 /\ 0 <= snd a < n p - 1) as Ha.
    { apply Hqs, in_or_app. right. now left. }
    destruct a as [i' j']. simpl in Ha.
    pose proof (quad_id_bounds (n p - 1) i' j' (proj1 Ha) (proj2 Ha)) as Hb'.
    destruct (Z.eq_dec (i' * (n p - 1) + j') (i * (n p - 1) + j)) as [E | E].
    + assert (0 <= i < n p - 1 /\ 0 <= j < n p - 1) as Hij.
      { apply in_app_or in Hin. destruct Hin as [Hin | [Hin | []]].
        - apply (Hqs (i, j)), in_or_app. now left.
        - injection Hin as <- <-. exact Ha. }
      apply quad_id_inj in E; try lia. destruct E as [-> ->].
      apply load_quad_buf_same; try lia.
      rewrite fold_quad_buf_length. lia.
    + apply in_app_or in Hin. destruct Hin as [Hin | [Hin | []]].
      * assert (0 <= fst (i, j) < n p - 1 /\ 0 <= snd (i, j) < n p - 1) as Hij.
        { apply Hqs, in_or_app. now left. }
        simpl in Hij.
        pose proof (quad_id_bounds (n p - 1) i j (proj1 Hij) (proj2 Hij)) as Hb.
        rewrite load_quad_buf_other; try lia.
        -- apply IH; auto. intros q Hq. apply Hqs, in_or_app. now left.
        -- rewrite Z.add_comm, Z.div_add by lia. rewrite Z.div_small; lia.
      * injection Hin as -> ->. congruence.
Qed.

Lemma quad_entry_range (p : Params) (i j k : Z) :
  0 <= i < n p - 1 -> 0 <= j < n p - 1 ->
  0 <= quad_entry p i j k < n p * n p.
Proof.
  intros Hi Hj. unfold quad_entry, flat.
  repeat match goal with |- context [if ?c then _ else _] => destruct c end;
    nia.
Qed.

Lemma initialize_mesh_indices_buf (p : Params) (s : State) :
  indices (initialize_mesh_indices p s)
  = fold_left (quad_buf p) (ndrange (n p - 1) (n p - 1)) (indices s).
Proof.
  unfold initialize_mesh_indices.
  now rewrite fold_write_color_indices, fold_write_quad_indices.
Qed.

(** C7: for n >= 2 the index kernel fills a buffer of exactly 6*(n-1)^2
    integers, each in [0, n*n); the six entries of quad (i,j) are triangle
    A = (idx(i,j), idx(i+1,j), idx(i,j+1)) followed by triangle
    B = (idx(i+1,j+1), idx(i,j+1), idx(i+1,j)) with idx(i,j) = i*n+j, so
    both triangles contain the diagonal edge (idx(i,j+1), idx(i+1,j)). *)
Theorem mesh_indices_correct (p : Params) (s : State) :
  2 <= n p ->
  length (indices s) = Z.to_nat (num_triangles p * 3) ->
  let ind := indices (initialize_mesh_indices p s) in
  Z.of_nat (length ind) = 6 * (n p - 1) ^ 2 /\
  Forall (fun a => 0 <= a < n p * n p) ind /\
  forall i j : Z, 0 <= i < n p - 1 -> 0 <= j < n p - 1 ->
    let q := i * (n p - 1) + j in
    (load ind (q * 6 + 0), load ind (q * 6 + 1), load ind (q * 6 + 2))
    = (flat p i j, flat p (i + 1) j, flat p i (j + 1)) /\
    (load ind (q * 6 + 3), load ind (q * 6 + 4), load ind (q * 6 + 5))
    = (flat p (i + 1) (j + 1), flat p i (j + 1), flat p (i + 1) j).
Proof.
  intros Hn Hshape ind.
  assert (Z.of_nat (length (indices s)) = 6 * ((n p - 1) * (n p - 1))) as Hlen.
  { rewrite Hshape. unfold num_triangles. nia. }
  assert (forall i j k, 0 <= i < n p - 1 -> 0 <= j < n p - 1 -> 0 <= k < 6 ->
            load ind ((i * (n p - 1) + j) * 6 + k) = quad_entry p i j k) as Hload.
  { intros i j k Hi Hj Hk. unfold ind. rewrite initialize_mesh_indices_buf.
    apply load_fold_quad_buf; auto.
    - intros q Hq. now apply in_ndrange in Hq.
    - apply in_ndrange. simpl. lia. }
  assert (length ind = length (indices s)) as Hl.
  { unfold ind. rewrite initialize_mesh_indices_buf. apply fold_quad_buf_length. }
  split; [| split].
  - rewrite Hl, Hlen. ring.
  - apply Forall_forall. intros a Ha.
    destruct (In_nth _ _ 0 Ha) as (pos & Hpos & <-).
    set (m := n p - 1) in *.
    set (q := Z.of_nat pos / 6).
    assert (0 <= q < m * m) as Hq.
    { unfold q. split; [apply Z.div_pos; lia |].
      apply Z.div_lt_upper_bound; lia. }
    assert (0 <= q mod m < m) as Hj by (apply Z.mod_pos_bound; lia).
    assert (0 <= q / m < m) as Hi.
    { split; [apply Z.div_pos; lia |]. apply Z.div_lt_upper_bound; lia. }
    assert (0 <= Z.of_nat pos mod 6 < 6) as Hk by (apply Z.mod_pos_bound; lia).
    specialize (Hload (q / m) (q mod m) (Z.of_nat pos mod 6) Hi Hj Hk).
    replace ((q / m * m + q mod m) * 6 + Z.of_nat pos mod 6)
      with (Z.of_nat pos) in Hload.
    + unfold load in Hload. rewrite Nat2Z.id in Hload. rewrite Hload.
      now apply quad_entry_range.
    + rewrite (Z.mul_comm (q / m) m), <- Z.div_mod by lia.
      unfold q. rewrite (Z.mul_comm _ 6), <- Z.div_mod; lia.
  - intros i j Hi Hj q. subst q.
    rewrite !(Hload i j) by lia. split; reflexivity.
Qed.

Lemma mesh_indices_correct_witness :
  indices (initialize_mesh_indices params_n2 (initial_state params_n2 (fun _ => 0%R)))
  = [0; 2; 1; 3; 1; 2] /\
  Z.of_nat (length (indices (initialize_mesh_indices params_n2
                               (initial_state params_n2 (fun _ => 0%R)))))
  = 6 * (2 - 1) ^ 2.
Proof.
  split; [reflexivity |].
  apply (mesh_indices_correct params_n2 (initial_state params_n2 (fun _ => 0%R)));
    [simpl; lia | reflexivity].
Defined.

(** * Fields and loops over the grid *)

Lemma idx_eqb_eq (a b : idx) : idx_eqb a b = true <-> a = b.
Proof.
  destruct a as [a1 a2], b as [b1 b2]. unfold idx_eqb. simpl.
  rewrite andb_true_iff, !Z.eqb_eq. split.
  - intros [-> ->]. reflexivity.
  - intros H. injection H as -> ->. auto.
Qed.

Lemma idx_eqb_refl (a : idx) : idx_eqb a a = true.
Proof. now apply idx_eqb_eq. Qed.

Lemma idx_eqb_neq (a b : idx) : a <> b -> idx_eqb a b = false.
Proof.
  intros H. destruct (idx_eqb a b) eqn:E; [| reflexivity].
  apply idx_eqb_eq in E. contradiction.
Qed.

Lemma idx_eq_dec (a b : idx) : {a = b} + {a <> b}.
Proof. decide equality; apply Z.eq_dec. Qed.

Lemma upd_same (f : field) (i : idx) (a : vec3) : upd f i a i = a.
Proof. unfold upd. now rewrite idx_eqb_refl. Qed.

Lemma upd_other (f : field) (i k : idx) (a : vec3) :
  k <> i -> upd f i a k = f k.
Proof. intros H. unfold upd. now rewrite idx_eqb_neq. Qed.

Lemma in_bounds_iff (p : Params) (k : idx) :
  in_bounds p k = true <-> In k (ndrange (n p) (n p)).
Proof.
  rewrite in_ndrange. unfold in_bounds.
  rewrite !andb_true_iff, !Z.leb_le, !Z.ltb_lt. tauto.
Qed.

Lemma NoDup_map_inj {A B : Type} (f : A -> B) (l : list A) :
  (forall u w, f u = f w -> u = w) -> NoDup l -> NoDup (map f l).
Proof.
  intros Hf Hl. induction Hl as [| a l Ha Hl IH]; simpl; constructor; auto.
  rewrite in_map_iff. intros (y & E & Hy). apply Hf in E. now subst.
Qed.

Lemma NoDup_range (a b : Z) : NoDup (range a b).
Proof.
  unfold range. apply NoDup_map_inj; [| apply seq_NoDup].
  intros u w H. lia.
Qed.

Lemma NoDup_ndrange (a b : Z) : NoDup (ndrange a b).
Proof.
  unfold ndrange. generalize (NoDup_range 0 a).
  induction (range 0 a) as [| i l IH]; intros Hnd; simpl; [constructor |].
  inversion Hnd as [| ? ? Hni Hl]; subst.
  apply NoDup_app.
  - apply NoDup_map_inj; [| apply NoDup_range].
    intros u w H. now injection H.
  - now apply IH.
  - intros [u w] Hin1 Hin2.
    apply in_map_iff in Hin1. destruct Hin1 as (j & Hj & _).
    injection Hj as <- <-.
    apply in_flat_map in Hin2. destruct Hin2 as (i' & Hi' & Hin2).
    apply in_map_iff in Hin2. destruct Hin2 as (j' & Hj' & _).
    injection Hj' as <- <-. contradiction.
Qed.

Lemma on_grid_in (p : Params) (k : idx) :
  on_grid p k <-> In k (ndrange (n p) (n p)).
Proof. unfold on_grid. now rewrite in_ndrange. Qed.

Lemma in_bounds_on_grid (p : Params) (k : idx) :
  in_bounds p k = true <-> on_grid p k.
Proof. now rewrite in_bounds_iff, on_grid_in. Qed.

(** A loop whose body rewrites cell [i] of both fields from what the state
    holds at [i] alone: every visited cell ends with the value computed from
    the state the loop started in. *)
Section PointwiseLoop.
Variable body : State -> idx -> State.
Variables fx fv : State -> idx -> vec3.
Hypothesis body_x :
  forall s i k, x (body s i) k = upd (x s) i (fx s i) k.
Hypothesis body_v :
  forall s i k, v (body s i) k = upd (v s) i (fv s i) k.
Hypothesis body_tunables : forall s i, tunables (body s i) = tunables s.
Hypothesis local :
  forall s s' i, x s i = x s' i -> v s i = v s' i ->
                 tunables s = tunables s' ->
                 fx s i = fx s' i /\ fv s i = fv s' i.

Lemma loop_tunables (l : list idx) (s : State) :
  tunables (fold_left body l s) = tunables s.
Proof.
  revert s. induction l as [| a l IH]; intros s; simpl; [reflexivity |].
  now rewrite IH, body_tunables.
Qed.

Lemma loop_unvisited (l : list idx) (s : State) (k : idx) :
  ~ In k l ->
  x (fold_left body l s) k = x s k /\ v (fold_left body l s) k = v s k.
Proof.
  revert s. induction l as [| a l IH]; intros s Hk; simpl; [split; reflexivity |].
  assert (k <> a) as Hka by (intros ->; apply Hk; now left).
  destruct (IH (body s a)) as [Hx Hv]; [intros H; apply Hk; now right |].
  rewrite Hx, Hv, body_x, body_v, !upd_other by assumption. now split.
Qed.

Lemma loop_visited (l : list idx) (s : State) (k : idx) :
  NoDup l -> In k l ->
  x (fold_left body l s) k = fx s k /\ v (fold_left body l s) k = fv s k.
Proof.
  revert s. induction l as [| a l IH]; intros s Hnd Hin; [destruct Hin |].
  inversion Hnd as [| ? ? Hna Hl]; subst. simpl.
  destruct (idx_eq_dec k a) as [-> | Hka].
  - destruct (loop_unvisited l (body s a) a Hna) as [Hx Hv].
    rewrite Hx, Hv, body_x, body_v, !upd_same. now split.
  - destruct Hin as [-> | Hin]; [contradiction |].
    destruct (IH (body s a) Hl Hin) as [Hx Hv]. rewrite Hx, Hv.
    apply local.
    + now rewrite body_x, upd_other.
    + now rewrite body_v, upd_other.
    + apply body_tunables.
Qed.
End PointwiseLoop.

(** * The three passes of [substep], cell by cell *)

Lemma tunables_eq (s s' : State) :
  tunables s = tunables s' ->
  spring_Y s = spring_Y s' /\ ball_radius s = ball_radius s' /\
  ball_center s = ball_center s' /\ spring_offsets s = spring_offsets s'.
Proof. unfold tunables. intros H. injection H as -> -> -> ->. auto. Qed.

Lemma gravity_stage_cell (p : Params) (s : State) (k : idx) :
  on_grid p k ->
  x (gravity_stage p s) k = x s k /\
  v (gravity_stage p s) k = gravity_v p s k.
Proof.
  intros Hk. unfold gravity_stage.
  apply (loop_visited (gravity_body p) (fun s i => x s i) (gravity_v p)).
  - intros s0 i k0. simpl. unfold upd.
    destruct (idx_eqb k0 i) eqn:E; [| reflexivity].
    apply idx_eqb_eq in E. now subst.
  - reflexivity.
  - reflexivity.
  - intros s0 s' i Hx Hv _. unfold gravity_v. now rewrite Hx, Hv.
  - apply NoDup_ndrange.
  - now apply on_grid_in.
Qed.

Lemma gravity_stage_tunables (p : Params) (s : State) :
  tunables (gravity_stage p s) = tunables s.
Proof.
  unfold gravity_stage.
  now apply (loop_tunables (gravity_body p)).
Qed.

Lemma collision_body_v (p : Params) (s : State) (i k : idx) :
  v (collision_body p s i) k = upd (v s) i (collision_v p s i) k.
Proof.
  unfold collision_body, collision_v. simpl. unfold upd.
  destruct (idx_eqb k i); [| reflexivity]. now rewrite idx_eqb_refl.
Qed.

Lemma collision_body_x (p : Params) (s : State) (i k : idx) :
  x (collision_body p s i) k = upd (x s) i (collision_x p s i) k.
Proof.
  unfold collision_body, collision_x, collision_v. simpl. unfold upd.
  destruct (idx_eqb k i); [| reflexivity]. now rewrite !idx_eqb_refl.
Qed.

Lemma collision_local (p : Params) (s s' : State) (i : idx) :
  x s i = x s' i -> v s i = v s' i -> tunables s = tunables s' ->
  collision_x p s i = collision_x p s' i /\
  collision_v p s i = collision_v p s' i.
Proof.
  intros Hx Hv Ht. apply tunables_eq in Ht. destruct Ht as (_ & Hr & Hc & _).
  unfold collision_x, collision_v. now rewrite Hx, Hv, Hr, Hc.
Qed.

Lemma collision_stage_cell (p : Params) (s : State) (k : idx) :
  on_grid p k ->
  x (collision_stage p s) k = collision_x p s k /\
  v (collision_stage p s) k = collision_v p s k.
Proof.
  intros Hk. unfold collision_stage.
  apply (loop_visited (collision_body p) (collision_x p) (collision_v p)).
  - apply collision_body_x.
  - apply collision_body_v.
  - reflexivity.
  - apply collision_local.
  - apply NoDup_ndrange.
  - now apply on_grid_in.
Qed.

Lemma collision_stage_tunables (p : Params) (s : State) :
  tunables (collision_stage p s) = tunables s.
Proof.
  unfold collision_stage.
  now apply (loop_tunables (collision_body p)).
Qed.

(** ** The spring pass: in place, each cell reading its neighbours *)

Lemma spring_loop_x (p : Params) (l : list idx) (s : State) :
  x (fold_left (spring_body p) l s) = x s /\
  tunables (fold_left (spring_body p) l s) = tunables s.
Proof.
  revert s. induction l as [| a l IH]; intros s; simpl; [split; reflexivity |].
  destruct (IH (spring_body p s a)) as [-> ->]. split; reflexivity.
Qed.

Lemma spring_loop_unvisited (p : Params) (l : list idx) (s : State) (k : idx) :
  ~ In k l -> v (fold_left (spring_body p) l s) k = v s k.
Proof.
  revert s. induction l as [| a l IH]; intros s Hk; simpl; [reflexivity |].
  rewrite IH by (intros H; apply Hk; now right).
  simpl. apply upd_other. intros ->. apply Hk. now left.
Qed.

(** A visited cell keeps the value written when the loop reached it. *)
Lemma spring_loop_visited (p : Params) (l : list idx) (s : State) (k : idx) :
  NoDup l -> In k l ->
  exists l1 l2, l = l1 ++ k :: l2 /\
    v (fold_left (spring_body p) l s) k
    = spring_v p (fold_left (spring_body p) l1 s) k.
Proof.
  intros Hnd Hin. destruct (in_split _ _ Hin) as (l1 & l2 & ->).
  exists l1, l2. split; [reflexivity |].
  rewrite fold_left_app. simpl.
  apply NoDup_remove_2 in Hnd.
  rewrite spring_loop_unvisited by (intros H; apply Hnd, in_or_app; now right).
  simpl. apply upd_same.
Qed.

Lemma spring_term_congr (p : Params) (s s' : State) (i o : idx) (f : vec3) :
  same_physics p s s' -> on_grid p i ->
  spring_term p s i f o = spring_term p s' i f o.
Proof.
  intros [Hxv Ht] Hi. apply tunables_eq in Ht. destruct Ht as (HY & _).
  unfold spring_term.
  destruct (in_bounds p (idx_add i o)) eqn:Hb; [| reflexivity].
  apply in_bounds_on_grid in Hb.
  destruct (Hxv i Hi) as [-> ->].
  destruct (Hxv _ Hb) as [-> ->]. now rewrite HY.
Qed.

Lemma spring_force_congr (p : Params) (s s' : State) (i : idx) :
  same_physics p s s' -> on_grid p i ->
  spring_force p s i = spring_force p s' i.
Proof.
  intros Hs Hi. unfold spring_force.
  destruct Hs as [Hxv Ht]. pose proof (tunables_eq _ _ Ht) as (_ & _ & _ & <-).
  generalize vzero. induction (spring_offsets s) as [| o l IH]; intros f; simpl.
  - reflexivity.
  - rewrite (spring_term_congr p s s' i o f) by (auto; split; auto). apply IH.
Qed.

Lemma spring_body_congr (p : Params) (s s' : State) (i : idx) :
  same_physics p s s' -> on_grid p i ->
  same_physics p (spring_body p s i) (spring_body p s' i).
Proof.
  intros Hs Hi. pose proof (spring_force_congr p s s' i Hs Hi) as Hf.
  destruct Hs as [Hxv Ht]. split; [| exact Ht].
  intros k Hk. destruct (Hxv k Hk) as [Hx Hv]. split; [exact Hx |].
  unfold spring_body. simpl. unfold upd.
  destruct (idx_eqb k i); [| exact Hv].
  destruct (Hxv i Hi) as [_ ->]. now rewrite Hf.
Qed.

Lemma spring_loop_congr (p : Params) (l : list idx) (s s' : State) :
  (forall k, In k l -> on_grid p k) -> same_physics p s s' ->
  same_physics p (fold_left (spring_body p) l s) (fold_left (spring_body p) l s').
Proof.
  revert s s'. induction l as [| a l IH]; intros s s' Hl Hs; simpl; [exact Hs |].
  apply IH.
  - intros k Hk. apply Hl. now right.
  - apply spring_body_congr; [exact Hs |]. apply Hl. now left.
Qed.

(** * What [substep] leaves alone *)

Lemma loop_rest (body : State -> idx -> State) (l : list idx) (s : State) :
  (forall s i, rest (body s i) = rest s) ->
  rest (fold_left body l s) = rest s.
Proof.
  intros Hb. revert s. induction l as [| a l IH]; intros s; simpl.
  - reflexivity.
  - now rewrite IH, Hb.
Qed.

Lemma substep_rest (p : Params) (s : State) : rest (substep p s) = rest s.
Proof.
  unfold substep, collision_stage, spring_stage, gravity_stage.
  rewrite !loop_rest; reflexivity.
Qed.

(** C9: [substep] writes the position field [x] and the velocity field [v]
    only: the index buffer, the colour buffer, the flat vertex buffer, the
    ball centre, [ball_radius], [spring_Y] and the spring offsets are the
    same after it as before. *)
Theorem substep_frame (p : Params) (s : State) :
  indices (substep p s) = indices s /\
  colors (substep p s) = colors s /\
  vertices (substep p s) = vertices s /\
  ball_center (substep p s) = ball_center s /\
  ball_radius (substep p s) = ball_radius s /\
  spring_Y (substep p s) = spring_Y s /\
  spring_offsets (substep p s) = spring_offsets s.
Proof.
  pose proof (substep_rest p s) as H. unfold rest in H.
  injection H as -> -> -> -> -> -> -> _ _.
  repeat split; reflexivity.
Qed.

(** * reset *)

Lemma default_substeps_128 : default_substeps default_params = 53.
Proof.
  unfold default_substeps, floor_div, dt. simpl.
  symmetry. apply Int_part_spec.
  replace (1 / 60 / (4e-2 / 128))%R with (160 / 3)%R by (field; lra).
  split; lra.
Qed.

(** What [reset] does, on any state: [spring_Y] and [ball_radius] are back
    at their defaults, no point moves, and [substeps] keeps the value it
    had. *)
Lemma reset_effect (p : Params) (s : State) :
  spring_Y (reset p s) = Fin 1e3 /\
  ball_radius (reset p s) = Fin 0.3 /\
  x (reset p s) = x s /\ v (reset p s) = v s /\
  substeps (reset p s) = substeps s.
Proof. repeat split; reflexivity. Qed.

(** * initialize_mass_points *)

Lemma initialize_mass_points_cell (p : Params) (s : State) (k : idx) :
  on_grid p k ->
  x (initialize_mass_points p s) k = sheet_point p (rng s 0) (rng s 1) k /\
  v (initialize_mass_points p s) k = vzero.
Proof.
  intros Hk. unfold initialize_mass_points, random.
  cbv zeta. cbn [fst snd rng set_rng].
  match goal with
  | |- context [fold_left ?b ?l ?s0] =>
      apply (loop_visited b
               (fun _ ij => sheet_point p (rng s 0) (rng s 1) ij)
               (fun _ _ => vzero))
  end.
  - intros s0 [i j] k0. reflexivity.
  - intros s0 [i j] k0. reflexivity.
  - intros s0 [i j]. reflexivity.
  - intros. split; reflexivity.
  - apply NoDup_ndrange.
  - now apply on_grid_in.
Qed.

Lemma initialize_mass_points_tunables (p : Params) (s : State) :
  tunables (initialize_mass_points p s) = tunables s.
Proof.
  unfold initialize_mass_points, random. cbv zeta.
  match goal with
  | |- context [fold_left ?b ?l ?s0] => rewrite (loop_tunables b)
  end.
  - reflexivity.
  - intros s0 [i j]. reflexivity.
Qed.

(** C5: after [initialize_mass_points], whatever the fields held before,
    every cell (i,j) has velocity (0,0,0), height exactly 0.6, and x and z
    coordinates i*quad_size - 0.5 and j*quad_size - 0.5 shifted by one
    offset, the same for all cells: the two samples drawn, each minus 0.5
    and scaled by 0.1. *)
Theorem initialize_mass_points_spec (p : Params) (s : State) (i j : Z) :
  0 <= i < n p -> 0 <= j < n p ->
  let s' := initialize_mass_points p s in
  let ox := ((rng s 0 - 0.5) * 0.1)%R in
  let oz := ((rng s 1 - 0.5) * 0.1)%R in
  v s' (i, j) = vzero /\
  vy (x s' (i, j)) = Fin 0.6 /\
  vx (x s' (i, j)) = Fin (IZR i * quad_size p - 0.5 + ox) /\
  vz (x s' (i, j)) = Fin (IZR j * quad_size p - 0.5 + oz).
Proof.
  intros Hi Hj s' ox oz.
  destruct (initialize_mass_points_cell p s (i, j)) as [Hx Hv];
    [split; assumption |].
  subst s'. rewrite Hx, Hv. unfold sheet_point, ox, oz. simpl.
  repeat split; f_equal; lra.
Qed.

(** * Arithmetic on finite values *)

Lemma sqrt_fin (r : R) : (0 <= r)%R -> F.sqrt (Fin r) = Fin (sqrt r).
Proof.
  intros H. unfold F.sqrt. destruct (Rlt_dec r 0) as [Hlt | _]; [lra | reflexivity].
Qed.

Lemma div_fin (r s : R) : s <> 0%R -> F.div (Fin r) (Fin s) = Fin (r / s).
Proof.
  intros H. unfold F.div. destruct (Req_dec_T s 0) as [E | _]; [contradiction | reflexivity].
Qed.

Lemma div_by_zero : F.div (Fin 1) (Fin 0) = PInf.
Proof.
  unfold F.div, F.signed_inf.
  destruct (Req_dec_T 0 0) as [_ | H]; [| contradiction].
  destruct (Req_dec_T 1 0) as [H | _]; [lra |].
  destruct (Rlt_dec 0 1) as [_ | H]; [reflexivity | lra].
Qed.

Lemma inf_times_zero : F.mul PInf (Fin 0) = NaN.
Proof.
  unfold F.mul, F.signed_inf.
  destruct (Req_dec_T 0 0) as [_ | H]; [reflexivity | contradiction].
Qed.

Lemma vfinite_fin (a : vec3) :
  vfinite a -> exists a1 a2 a3, a = V3 (Fin a1) (Fin a2) (Fin a3).
Proof.
  destruct a as [a1 a2 a3]. intros ([r1 H1] & [r2 H2] & [r3 H3]).
  simpl in *. subst. now exists r1, r2, r3.
Qed.

Lemma fin_vfinite (a b c : R) : vfinite (V3 (Fin a) (Fin b) (Fin c)).
Proof. repeat split; eexists; reflexivity. Qed.

Lemma len_nonneg (a b c : R) : (0 <= len a b c)%R.
Proof. apply sqrt_pos. Qed.

Lemma len_sqr (a b c : R) : (len a b c * len a b c = a * a + b * b + c * c)%R.
Proof. unfold len. rewrite sqrt_sqrt; nra. Qed.

Lemma len_pos (a b c : R) :
  V3 (Fin a) (Fin b) (Fin c) <> vzero -> (0 < len a b c)%R.
Proof.
  intros H. apply sqrt_lt_R0.
  destruct (Req_dec_T a 0) as [-> | Ha]; [| nra].
  destruct (Req_dec_T b 0) as [-> | Hb]; [| nra].
  destruct (Req_dec_T c 0) as [-> | Hc]; [| nra].
  exfalso. now apply H.
Qed.

Lemma len_zero : len 0 0 0 = 0%R.
Proof.
  unfold len. replace (0 * 0 + 0 * 0 + 0 * 0 + 0)%R with 0%R by ring.
  apply sqrt_0.
Qed.

Lemma norm_fin (a b c : R) :
  norm (V3 (Fin a) (Fin b) (Fin c)) = Fin (len a b c).
Proof.
  unfold norm, norm_sqr, dot. simpl. apply sqrt_fin. nra.
Qed.

Lemma normalized_fin (a b c : R) :
  V3 (Fin a) (Fin b) (Fin c) <> vzero ->
  normalized (V3 (Fin a) (Fin b) (Fin c))
  = V3 (Fin (1 / (len a b c + 0) * a)) (Fin (1 / (len a b c + 0) * b))
       (Fin (1 / (len a b c + 0) * c)).
Proof.
  intros H. apply len_pos in H. unfold normalized.
  rewrite norm_fin. simpl F.add. rewrite div_fin by lra. reflexivity.
Qed.

(** The direction of a zero vector is NaN in every component. *)
Lemma normalized_zero : normalized vzero = nan3.
Proof.
  unfold normalized, vzero. rewrite norm_fin, len_zero. simpl F.add.
  replace (0 + 0)%R with 0%R by ring.
  rewrite div_by_zero. unfold smul. cbn [vx vy vz].
  now rewrite inf_times_zero.
Qed.

(** * Coincident points *)

Lemma add_nan_l (a : float) : F.add NaN a = NaN.
Proof. reflexivity. Qed.

Lemma add_nan_r (a : float) : F.add a NaN = NaN.
Proof. now destruct a. Qed.

Lemma mul_nan_l (a : float) : F.mul NaN a = NaN.
Proof. reflexivity. Qed.

Lemma mul_nan_r (a : float) : F.mul a NaN = NaN.
Proof. now destruct a. Qed.

Lemma vadd_nan_l (a : vec3) : vadd nan3 a = nan3.
Proof. reflexivity. Qed.

Lemma vadd_nan_r (a : vec3) : vadd a nan3 = nan3.
Proof. unfold vadd, nan3. simpl. now rewrite !add_nan_r. Qed.

Lemma vsub_nan_l (a : vec3) : vsub nan3 a = nan3.
Proof. reflexivity. Qed.

Lemma smul_nan (k : float) : smul k nan3 = nan3.
Proof. unfold smul, nan3. simpl. now rewrite !mul_nan_r. Qed.

Lemma vmuls_nan (k : float) : vmuls nan3 k = nan3.
Proof. reflexivity. Qed.

(** The force term of a pair at distance zero is NaN, whatever was
    accumulated before it. *)
Lemma spring_term_degenerate (p : Params) (s : State) (i o : idx) (f : vec3) :
  in_bounds p (idx_add i o) = true ->
  vsub (x s i) (x s (idx_add i o)) = vzero ->
  spring_term p s i f o = nan3.
Proof.
  intros Hb Hz. unfold spring_term. rewrite Hb, Hz, normalized_zero.
  now rewrite smul_nan, !vmuls_nan, vadd_nan_r, vadd_nan_l.
Qed.

Lemma spring_term_nan (p : Params) (s : State) (i o : idx) :
  spring_term p s i nan3 o = nan3.
Proof.
  unfold spring_term. now destruct (in_bounds p (idx_add i o)).
Qed.

Lemma fold_spring_term_nan (p : Params) (s : State) (i : idx) (l : list idx) :
  fold_left (spring_term p s i) l nan3 = nan3.
Proof.
  induction l as [| o l IH]; simpl; [reflexivity |].
  now rewrite spring_term_nan.
Qed.

Lemma spring_force_degenerate (p : Params) (s : State) (i o : idx) :
  In o (spring_offsets s) ->
  in_bounds p (idx_add i o) = true ->
  vsub (x s i) (x s (idx_add i o)) = vzero ->
  spring_force p s i = nan3.
Proof.
  intros Hin Hb Hz. unfold spring_force.
  generalize vzero at 1.
  induction (spring_offsets s) as [| a l IH]; intros f; [destruct Hin |].
  simpl. destruct Hin as [-> | Hin].
  - rewrite spring_term_degenerate by assumption. apply fold_spring_term_nan.
  - now apply IH.
Qed.

Lemma drag_nan (p : Params) : drag p nan3 = nan3.
Proof. reflexivity. Qed.

Lemma collide_nan (c : vec3) (r : float) (xi : vec3) : collide c r xi nan3 = nan3.
Proof. unfold collide. now destruct (F.leb _ _). Qed.

Lemma spring_stage_degenerate (p : Params) (s : State) (i o : idx) :
  on_grid p i -> In o (spring_offsets s) -> on_grid p (idx_add i o) ->
  vsub (x s i) (x s (idx_add i o)) = vzero ->
  v (spring_stage p (gravity_stage p s)) i = nan3.
Proof.
  intros Hi Ho Hj Hz. unfold spring_stage.
  destruct (spring_loop_visited p _ (gravity_stage p s) i
              (NoDup_ndrange _ _) (proj1 (on_grid_in p i) Hi))
    as (l1 & l2 & _ & ->).
  destruct (spring_loop_x p l1 (gravity_stage p s)) as [Hx Ht].
  rewrite gravity_stage_tunables in Ht.
  apply tunables_eq in Ht. destruct Ht as (_ & _ & _ & Hoff).
  unfold spring_v.
  rewrite (spring_force_degenerate p _ i o).
  - now rewrite vmuls_nan, vadd_nan_r.
  - now rewrite Hoff.
  - now apply in_bounds_on_grid.
  - rewrite Hx.
    destruct (gravity_stage_cell p s i Hi) as [-> _].
    destruct (gravity_stage_cell p s _ Hj) as [-> _]. exact Hz.
Qed.

Lemma substep_degenerate (p : Params) (s : State) (i o : idx) :
  on_grid p i -> In o (spring_offsets s) -> on_grid p (idx_add i o) ->
  vsub (x s i) (x s (idx_add i o)) = vzero ->
  v (substep p s) i = nan3 /\ x (substep p s) i = nan3.
Proof.
  intros Hi Ho Hj Hz. unfold substep.
  destruct (collision_stage_cell p (spring_stage p (gravity_stage p s)) i Hi)
    as [-> ->].
  unfold collision_x, collision_v.
  rewrite (spring_stage_degenerate p s i o) by assumption.
  rewrite drag_nan, collide_nan, smul_nan, vadd_nan_r. now split.
Qed.

(** C3, as the code has it: a connected in-bounds pair whose position
    difference is exactly the zero vector is not skipped.  Its direction is
    NaN in every component, its force term is NaN whatever was accumulated
    before, and after the spring pass, and after the whole [substep], the
    point's velocity is NaN in every component. *)
Theorem degenerate_spring_gives_nan (p : Params) (s : State) (i o : idx) (f : vec3) :
  on_grid p i -> In o (spring_offsets s) -> on_grid p (idx_add i o) ->
  vsub (x s i) (x s (idx_add i o)) = vzero ->
  normalized (vsub (x s i) (x s (idx_add i o))) = nan3 /\
  spring_term p s i f o = nan3 /\
  v (spring_stage p (gravity_stage p s)) i = nan3 /\
  v (substep p s) i = nan3.
Proof.
  intros Hi Ho Hj Hz. repeat split.
  - rewrite Hz. apply normalized_zero.
  - apply spring_term_degenerate; [now apply in_bounds_on_grid | exact Hz].
  - now apply (spring_stage_degenerate p s i o).
  - now apply (substep_degenerate p s i o).
Qed.

Lemma vsub_vzero : vsub vzero vzero = vzero.
Proof. unfold vsub, vzero. simpl. repeat f_equal; lra. Qed.

Lemma degenerate_spring_gives_nan_witness :
  v (substep default_params (initial_state default_params (fun _ => 0%R))) (0, 0)
  = nan3.
Proof.
  apply (degenerate_spring_gives_nan default_params
           (initial_state default_params (fun _ => 0%R)) (0, 0) (0, 1) vzero).
  - unfold on_grid. simpl. lia.
  - simpl. tauto.
  - unfold on_grid. simpl. lia.
  - apply vsub_vzero.
Defined.

(** The program as it starts, before any "Generate": every point is at the
    origin, so the first [substep] already turns velocities into NaN,
    where C3 promises a zero contribution and no NaN. *)
Lemma degenerate_spring_not_skipped :
  let s := initial_state default_params (fun _ => 0%R) in
  vsub (x s (0, 0)) (x s (idx_add (0, 0) (0, 1))) = vzero /\
  spring_term default_params s (0, 0) vzero (0, 1) <> vzero /\
  v (substep default_params s) (0, 0) = nan3.
Proof.
  intros s.
  assert (on_grid default_params (0, 0)) as H0 by (unfold on_grid; simpl; lia).
  assert (on_grid default_params (idx_add (0, 0) (0, 1))) as H1
      by (unfold on_grid; simpl; lia).
  assert (In (0, 1) (spring_offsets s)) as Ho by (simpl; tauto).
  split; [apply vsub_vzero |]. split.
  - rewrite spring_term_degenerate.
    + discriminate.
    + now apply in_bounds_on_grid.
    + apply vsub_vzero.
  - apply (substep_degenerate default_params s (0, 0) (0, 1) H0 Ho H1).
    apply vsub_vzero.
Qed.

(** * Collision response *)

Lemma ltb_fin (r s : R) : (r < s)%R -> F.ltb (Fin r) (Fin s) = true.
Proof. intros H. unfold F.ltb. now destruct (Rlt_dec r s). Qed.



Lemma ltb_not_leb (a b : float) : F.ltb a b = true -> F.leb b a = false.
Proof.
  destruct a as [r | | |], b as [s | | |]; simpl; try discriminate; auto.
  destruct (Rlt_dec r s), (Rle_dec s r); auto; try discriminate. lra.
Qed.

Lemma vzero_dec (a b c : R) :
  {V3 (Fin a) (Fin b) (Fin c) = vzero} + {V3 (Fin a) (Fin b) (Fin c) <> vzero}.
Proof.
  destruct (Req_dec_T a 0) as [-> | Ha];
    [| right; intros H; injection H; intros; contradiction].
  destruct (Req_dec_T b 0) as [-> | Hb];
    [| right; intros H; injection H; intros; contradiction].
  destruct (Req_dec_T c 0) as [-> | Hc];
    [| right; intros H; injection H; intros; contradiction].
  now left.
Qed.





Lemma leb_fin (r s : R) : (r <= s)%R -> F.leb (Fin r) (Fin s) = true.
Proof. intros H. unfold F.leb. now destruct (Rle_dec r s). Qed.


(** C4 on the running program: the slider has put [substeps] at 10, the
    user presses "Reset".  [spring_Y] and [ball_radius] are back at 1e3 and
    0.3 and no point moved, but [substeps] is still 10, not the default
    [int(1 / 60 // dt)] = 53: the assignment in [reset] binds a local. *)
Theorem reset_keeps_slider_substeps :
  let s := set_substeps (initial_state default_params (fun _ => 0%R)) 10 in
  spring_Y (reset default_params s) = Fin 1e3 /\
  ball_radius (reset default_params s) = Fin 0.3 /\
  x (reset default_params s) = x s /\ v (reset default_params s) = v s /\
  substeps (reset default_params s) = 10 /\
  default_substeps default_params = 53.
Proof.
  intros s. repeat split; try reflexivity. apply default_substeps_128.
Qed.

Lemma initialize_mass_points_spec_witness :
  let s := initial_state params_n2 (fun _ => 0.5%R) in
  v (initialize_mass_points params_n2 s) (1, 0) = vzero /\
  vy (x (initialize_mass_points params_n2 s) (1, 0)) = Fin 0.6.
Proof.
  intros s.
  destruct (initialize_mass_points_spec params_n2 s 1 0) as (Hv & Hy & _);
    [simpl; lia | simpl; lia |].
  split; assumption.
Defined.

(** * Springs seen from both ends *)

Lemma spring_term_split (p : Params) (s : State) (i o : idx) (f : vec3) :
  spring_term p s i f o =
  if in_bounds p (idx_add i o)
  then vadd (vadd f (elastic_term p s i (idx_add i o)))
            (dashpot_term p s i (idx_add i o))
  else f.
Proof. reflexivity. Qed.

Lemma norm2_fin (o : idx) : norm2 o = Fin (len2 o).
Proof.
  unfold norm2, F.of_Z. cbn [F.mul F.add]. apply sqrt_fin. nra.
Qed.

Lemma len2_sym (i j : idx) : len2 (idx_sub j i) = len2 (idx_sub i j).
Proof.
  unfold len2, idx_sub. cbn [fst snd]. f_equal.
  rewrite !minus_IZR. ring.
Qed.

Lemma len2_pos (o : idx) : o <> (0, 0) -> (0 < len2 o)%R.
Proof.
  destruct o as [a b]. intros H. unfold len2. cbn [fst snd].
  apply sqrt_lt_R0.
  destruct (Z.eq_dec a 0) as [-> | Ha].
  - assert (b <> 0) as Hb by (intros ->; now apply H).
    apply (not_0_IZR b) in Hb. nra.
  - apply (not_0_IZR a) in Ha. nra.
Qed.

Lemma len_neg (a b c : R) : len (- a) (- b) (- c) = len a b c.
Proof. unfold len. f_equal. ring. Qed.

Lemma vneg_nan : vneg nan3 = nan3.
Proof. reflexivity. Qed.

Lemma neg_vzero_fin : V3 (Fin (- 0)) (Fin (- 0)) (Fin (- 0)) = vzero.
Proof. unfold vzero. repeat f_equal; ring. Qed.

Lemma vsub_swap (a b : vec3) :
  vfinite a -> vfinite b ->
  exists d1 d2 d3,
    vsub a b = V3 (Fin d1) (Fin d2) (Fin d3) /\
    vsub b a = V3 (Fin (- d1)) (Fin (- d2)) (Fin (- d3)).
Proof.
  intros Ha Hb.
  apply vfinite_fin in Ha. destruct Ha as (a1 & a2 & a3 & ->).
  apply vfinite_fin in Hb. destruct Hb as (b1 & b2 & b3 & ->).
  exists (a1 + - b1)%R, (a2 + - b2)%R, (a3 + - b3)%R.
  unfold vsub. cbn [vx vy vz F.sub F.add F.neg].
  split; [reflexivity |]. repeat f_equal; ring.
Qed.

(** On one state, the terms of a pair are equal and opposite at its two
    ends. *)
Lemma pair_terms_opposite (p : Params) (s : State) (i j : idx) :
  0 < n p -> i <> j ->
  vfinite (x s i) -> vfinite (x s j) ->
  vfinite (v s i) -> vfinite (v s j) -> F.is_finite (spring_Y s) ->
  elastic_term p s j i = vneg (elastic_term p s i j) /\
  dashpot_term p s j i = vneg (dashpot_term p s i j).
Proof.
  intros Hn Hij Hxi Hxj Hvi Hvj [Y HY].
  unfold elastic_term, dashpot_term. rewrite HY.
  destruct (vsub_swap _ _ Hxi Hxj) as (d1 & d2 & d3 & -> & ->).
  destruct (vsub_swap _ _ Hvi Hvj) as (w1 & w2 & w3 & -> & ->).
  destruct (vzero_dec d1 d2 d3) as [Hz | Hnz].
  - injection Hz as -> -> ->. rewrite neg_vzero_fin. fold vzero.
    rewrite normalized_zero, !smul_nan, !vmuls_nan. split; reflexivity.
  - assert (V3 (Fin (- d1)) (Fin (- d2)) (Fin (- d3)) <> vzero) as Hnz'.
    { intros H. apply Hnz. injection H as H1 H2 H3. unfold vzero.
      repeat f_equal; lra. }
    rewrite (normalized_fin _ _ _ Hnz), (normalized_fin _ _ _ Hnz').
    rewrite !norm_fin, !norm2_fin, len_neg, (len2_sym i j).
    assert (0 < len2 (idx_sub i j))%R as H2.
    { apply len2_pos. destruct i as [i0 i1], j as [j0 j1].
      unfold idx_sub. cbn [fst snd]. intros H. injection H as H0 H1.
      apply Hij. f_equal; lia. }
    assert (0 < quad_size p)%R as Hq.
    { unfold quad_size. apply Rdiv_lt_0_compat; [lra |]. now apply IZR_lt. }
    pose proof (len_pos _ _ _ Hnz) as HL.
    cbn [F.mul]. rewrite div_fin by nra.
    unfold smul, vmuls, vneg, dot.
    cbn [vx vy vz F.mul F.add F.sub F.neg].
    split; repeat f_equal; ring.
Qed.

Lemma offset_not_zero (b : bool) (o : idx) :
  In o (build_spring_offsets b) -> o <> (0, 0).
Proof.
  destruct o as [di dj]. destruct b.
  - rewrite in_bending_iff. tauto.
  - rewrite in_default_iff. tauto.
Qed.

Lemma idx_add_neg (i o : idx) : idx_add (idx_add i o) (idx_neg o) = i.
Proof.
  destruct i as [i0 i1], o as [o0 o1]. unfold idx_add, idx_neg. cbn [fst snd].
  f_equal; lia.
Qed.

(** * A step with drag alone *)

Lemma vadd_zero_scaled (a : vec3) (t : R) :
  vfinite a -> vadd a (vmuls vzero (Fin t)) = a.
Proof.
  intros Ha. apply vfinite_fin in Ha. destruct Ha as (a1 & a2 & a3 & ->).
  unfold vadd, vmuls, vzero. cbn [vx vy vz F.mul F.add].
  repeat f_equal; ring.
Qed.

Lemma vsub_self (a : vec3) : vfinite a -> vsub a a = vzero.
Proof.
  intros Ha. apply vfinite_fin in Ha. destruct Ha as (a1 & a2 & a3 & ->).
  unfold vsub, vzero. cbn [vx vy vz F.sub F.add F.neg]. repeat f_equal; ring.
Qed.

Lemma spring_term_zero (p : Params) (s : State) (i o : idx) :
  0 < n p -> spring_Y s = Fin 0 -> o <> (0, 0) ->
  (in_bounds p (idx_add i o) = true ->
     vfinite (x s i) /\ vfinite (x s (idx_add i o)) /\
     vfinite (v s i) /\ vfinite (v s (idx_add i o)) /\
     vsub (x s i) (x s (idx_add i o)) <> vzero /\
     (dashpot_damping p = 0%R \/ v s i = v s (idx_add i o))) ->
  spring_term p s i vzero o = vzero.
Proof.
  intros Hn HY Ho H. unfold spring_term.
  destruct (in_bounds p (idx_add i o)); [| reflexivity].
  destruct (H eq_refl) as (Hxi & Hxj & Hvi & Hvj & Hnz & Hd). clear H.
  rewrite HY.
  assert (0 < len2 (idx_sub i (idx_add i o)))%R as H2.
  { apply len2_pos. destruct i as [i0 i1], o as [o0 o1].
    unfold idx_sub, idx_add. cbn [fst snd]. intros E. injection E as E0 E1.
    apply Ho. f_equal; lia. }
  assert (0 < quad_size p)%R as Hq.
  { unfold quad_size. apply Rdiv_lt_0_compat; [lra |]. now apply IZR_lt. }
  destruct (vsub_swap _ _ Hxi Hxj) as (d1 & d2 & d3 & Hsub & _).
  rewrite Hsub in *.
  pose proof (len_pos _ _ _ Hnz) as HL.
  rewrite (normalized_fin _ _ _ Hnz), norm_fin, norm2_fin.
  cbn [F.mul]. rewrite div_fin by nra.
  destruct Hd as [Hd | Hd].
  - destruct (vsub_swap _ _ Hvi Hvj) as (w1 & w2 & w3 & -> & _).
    rewrite Hd. unfold smul, vmuls, vadd, dot, vzero.
    cbn [vx vy vz F.mul F.add F.sub F.neg].
    repeat f_equal; ring.
  - rewrite <- Hd, (vsub_self _ Hvi).
    unfold smul, vmuls, vadd, dot, vzero.
    cbn [vx vy vz F.mul F.add F.sub F.neg].
    repeat f_equal; ring.
Qed.

Lemma idx_add_zero (i : idx) : idx_add i (0, 0) = i.
Proof. destruct i as [i0 i1]. unfold idx_add. cbn [fst snd]. f_equal; lia. Qed.

Lemma same_physics_refl (p : Params) (s : State) : same_physics p s s.
Proof. split; [intros; split |]; reflexivity. Qed.

(** With no force on any point the spring pass changes nothing. *)
Lemma spring_loop_quiet (p : Params) (s : State) (l : list idx) (s' : State) :
  (forall k, on_grid p k -> vfinite (v s k)) ->
  (forall k, on_grid p k -> spring_force p s k = vzero) ->
  (forall k, In k l -> on_grid p k) ->
  same_physics p s s' ->
  same_physics p s (fold_left (spring_body p) l s').
Proof.
  intros Hfin Hzero. revert s'.
  induction l as [| a l IH]; intros s' Hl Hs; simpl; [exact Hs |].
  apply IH; [intros k Hk; apply Hl; now right |].
  assert (on_grid p a) as Ha by (apply Hl; now left).
  pose proof (spring_force_congr p s s' a Hs Ha) as Hf.
  destruct Hs as [Hxv Ht]. split; [| exact Ht].
  intros k Hk. destruct (Hxv k Hk) as [Hx Hv]. split; [exact Hx |].
  unfold spring_body. cbn [v set_v]. unfold upd.
  destruct (idx_eqb k a) eqn:E; [| exact Hv].
  apply idx_eqb_eq in E. subst k.
  rewrite <- Hf, Hzero, <- Hv by assumption.
  symmetry. apply vadd_zero_scaled, Hfin, Ha.
Qed.

Lemma gravity_stage_quiet (p : Params) (s : State) :
  gravity p = (0, 0, 0)%R ->
  (forall k, on_grid p k -> vfinite (v s k)) ->
  same_physics p s (gravity_stage p s).
Proof.
  intros Hg Hfin. split.
  - intros k Hk. destruct (gravity_stage_cell p s k Hk) as [-> ->].
    split; [reflexivity |]. unfold gravity_v. rewrite Hg.
    symmetry. apply (vadd_zero_scaled _ (dt p)), Hfin, Hk.
  - now rewrite gravity_stage_tunables.
Qed.

Lemma same_physics_trans (p : Params) (s1 s2 s3 : State) :
  same_physics p s1 s2 -> same_physics p s2 s3 -> same_physics p s1 s3.
Proof.
  intros [H12 T12] [H23 T23]. split; [| congruence].
  intros k Hk. destruct (H12 k Hk) as [-> ->]. now apply H23.
Qed.

(** ** The dashpot acts when [spring_Y] is zero *)

Lemma spring_term_out (p : Params) (s : State) (i o : idx) (f : vec3) :
  in_bounds p (idx_add i o) = false -> spring_term p s i f o = f.
Proof. intros H. unfold spring_term. now rewrite H. Qed.

Lemma cell_x_finite (k : idx) : vfinite (cell_x k).
Proof.
  unfold cell_x.
  repeat match goal with |- context [if ?c then _ else _] => destruct c end;
    apply fin_vfinite.
Qed.

Lemma cell_v_finite (k : idx) : vfinite (cell_v k).
Proof. unfold cell_v. destruct (idx_eqb k (1, 1)); apply fin_vfinite. Qed.

(** The force on point (0,0) of [state_sliding]: the two neighbours that
    move with it contribute nothing, the one at rest pulls it back. *)
Lemma sliding_force :
  exists u : R, (0 < u)%R /\
    spring_force params_still state_sliding (0, 0)
    = V3 (Fin (- (u * u) * 1e4 * quad_size params_still)) (Fin 0) (Fin 0).
Proof.
  assert (0 < n params_still) as Hn by (simpl; lia).
  assert (spring_Y state_sliding = Fin 0) as HY by reflexivity.
  unfold spring_force.
  change (spring_offsets state_sliding) with (build_spring_offsets false).
  rewrite spring_offsets_default. cbn [fold_left].
  rewrite (spring_term_out _ _ _ (-2, 0)) by reflexivity.
  rewrite (spring_term_out _ _ _ (-1, -1)) by reflexivity.
  rewrite (spring_term_out _ _ _ (-1, 0)) by reflexivity.
  rewrite (spring_term_out _ _ _ (-1, 1)) by reflexivity.
  rewrite (spring_term_out _ _ _ (0, -2)) by reflexivity.
  rewrite (spring_term_out _ _ _ (0, -1)) by reflexivity.
  rewrite (spring_term_zero _ _ _ (0, 1) Hn HY).
  2: discriminate.
  2: { intros _. split; [apply cell_x_finite |]. split; [apply cell_x_finite |].
       split; [apply cell_v_finite |]. split; [apply cell_v_finite |]. split.
       - unfold vsub. simpl. intros H. injection H. lra.
       - right. reflexivity. }
  rewrite (spring_term_out _ _ _ (0, 2)) by reflexivity.
  rewrite (spring_term_out _ _ _ (1, -1)) by reflexivity.
  rewrite (spring_term_zero _ _ _ (1, 0) Hn HY).
  2: discriminate.
  2: { intros _. split; [apply cell_x_finite |]. split; [apply cell_x_finite |].
       split; [apply cell_v_finite |]. split; [apply cell_v_finite |]. split.
       - unfold vsub. simpl. intros H. injection H. lra.
       - right. reflexivity. }
  rewrite (spring_term_out _ _ _ (2, 0)) by reflexivity.
  unfold spring_term.
  replace (in_bounds params_still (idx_add (0, 0) (1, 1))) with true by reflexivity.
  rewrite HY.
  change (x state_sliding (0, 0)) with (V3 (Fin 1) (Fin 0) (Fin 0)).
  change (x state_sliding (idx_add (0, 0) (1, 1))) with (V3 (Fin 2) (Fin 0) (Fin 0)).
  change (v state_sliding (0, 0)) with (V3 (Fin 1) (Fin 0) (Fin 0)).
  change (v state_sliding (idx_add (0, 0) (1, 1))) with vzero.
  unfold vsub. cbn [vx vy vz vzero F.sub F.add F.neg].
  match goal with
  | |- context [normalized (V3 (Fin ?a) (Fin ?b) (Fin ?c))] =>
      assert (V3 (Fin a) (Fin b) (Fin c) <> vzero) as Hnz
        by (intros H; injection H; lra);
      rewrite (normalized_fin _ _ _ Hnz), norm_fin, norm2_fin;
      pose proof (len_pos _ _ _ Hnz) as HL;
      set (L := len a b c) in *
  end.
  assert (Rlt 0 (len2 (idx_sub (0, 0) (idx_add (0, 0) (1, 1))))) as H2
      by (apply len2_pos; discriminate).
  assert (0 < quad_size params_still)%R as Hq.
  { unfold quad_size. simpl. lra. }
  cbn [F.mul]. rewrite div_fin by nra.
  exists (1 / (L + 0))%R. split; [apply Rdiv_lt_0_compat; lra |].
  unfold smul, vmuls, vadd, dot, vzero.
  cbn [vx vy vz F.mul F.add F.sub F.neg dashpot_damping params_still].
  f_equal; f_equal; ring.
Qed.

Lemma len_gt (t a b c : R) :
  (0 <= t)%R -> (t * t < a * a + b * b + c * c)%R -> (t < len a b c)%R.
Proof.
  intros Ht H. unfold len.
  rewrite <- (sqrt_square t Ht). apply sqrt_lt_1_alt. nra.
Qed.

Lemma grid2_cases (k : idx) :
  on_grid params_still k ->
  k = (0, 0) \/ k = (0, 1) \/ k = (1, 0) \/ k = (1, 1).
Proof.
  destruct k as [i j]. unfold on_grid. simpl. intros [Hi Hj].
  assert (i = 0 \/ i = 1) as [-> | ->] by lia;
    assert (j = 0 \/ j = 1) as [-> | ->] by lia; tauto.
Qed.

Lemma cell_x_outside (s : State) :
  x s = cell_x -> ball_center s = vzero -> ball_radius s = Fin 0.3 ->
  outside_ball params_still s.
Proof.
  intros Hx Hc Hr k Hk. rewrite Hx, Hc, Hr.
  apply grid2_cases in Hk.
  destruct Hk as [-> | [-> | [-> | ->]]];
    unfold vsub, cell_x, vzero; simpl;
    rewrite norm_fin; apply ltb_fin; apply len_gt; lra.
Qed.

Lemma cell_x_apart (s : State) :
  x s = cell_x -> spring_offsets s = build_spring_offsets false ->
  neighbours_apart params_still s.
Proof.
  intros Hx Ho i o Hi Hin Hj. rewrite Hx. rewrite Ho in Hin.
  apply grid2_cases in Hi. apply grid2_cases in Hj.
  rewrite spring_offsets_default in Hin. simpl in Hin.
  destruct Hi as [-> | [-> | [-> | ->]]];
    repeat (destruct Hin as [<- | Hin];
            [ destruct Hj as [Hj | [Hj | [Hj | Hj]]]; try discriminate Hj;
              unfold vsub, cell_x, vzero; simpl;
              intros H; injection H; lra | ]);
    destruct Hin.
Qed.

(** The velocity of the cell the loops visit first. *)
Lemma substep_head (p : Params) (s : State) (a : idx) (l : list idx) :
  ndrange (n p) (n p) = a :: l ->
  v (substep p s) a
  = collide (ball_center s) (ball_radius s) (x s a)
            (drag p (spring_v p (gravity_stage p s) a)).
Proof.
  intros Hl.
  assert (on_grid p a) as Ha by (apply on_grid_in; rewrite Hl; now left).
  unfold substep.
  destruct (collision_stage_cell p (spring_stage p (gravity_stage p s)) a Ha)
    as [_ ->].
  unfold collision_v, spring_stage.
  destruct (spring_loop_x p (ndrange (n p) (n p)) (gravity_stage p s)) as [Hx Ht].
  rewrite gravity_stage_tunables in Ht. apply tunables_eq in Ht.
  destruct Ht as (_ & -> & -> & _). rewrite Hx.
  destruct (gravity_stage_cell p s a Ha) as [-> _].
  do 2 f_equal.
  rewrite Hl. cbn [fold_left].
  rewrite spring_loop_unvisited.
  - cbn [v spring_body set_v]. now rewrite upd_same.
  - pose proof (NoDup_ndrange (n p) (n p)) as Hnd. rewrite Hl in Hnd.
    now inversion Hnd.
Qed.

Lemma substep_first_cell (p : Params) (s : State) (a : idx) (l : list idx) :
  ndrange (n p) (n p) = a :: l ->
  gravity p = (0, 0, 0)%R ->
  (forall k, on_grid p k -> vfinite (v s k)) ->
  v (substep p s) a
  = collide (ball_center s) (ball_radius s) (x s a) (drag p (spring_v p s a)).
Proof.
  intros Hl Hg Hfin. rewrite (substep_head p s a l Hl).
  assert (on_grid p a) as Ha by (apply on_grid_in; rewrite Hl; now left).
  pose proof (gravity_stage_quiet p s Hg Hfin) as Hs.
  do 2 f_equal. unfold spring_v.
  rewrite <- (spring_force_congr p s _ a Hs Ha).
  destruct Hs as [Hxv _]. destruct (Hxv a Ha) as [_ <-]. reflexivity.
Qed.

(** A relative velocity that is NaN makes the whole force NaN. *)
Lemma spring_term_nan_velocity (p : Params) (s : State) (i o : idx) (f : vec3) :
  in_bounds p (idx_add i o) = true ->
  vx (vsub (v s i) (v s (idx_add i o))) = NaN ->
  spring_term p s i f o = nan3.
Proof.
  intros Hb Hv. unfold spring_term. rewrite Hb.
  destruct (vsub (v s i) (v s (idx_add i o))) as [w1 w2 w3].
  cbn [vx] in Hv. subst w1.
  unfold dot. cbn [vx vy vz F.mul F.add F.neg].
  change (smul NaN ?d) with nan3.
  now rewrite !vmuls_nan, vadd_nan_r.
Qed.

Lemma spring_force_nan_velocity (p : Params) (s : State) (i o : idx) :
  In o (spring_offsets s) ->
  in_bounds p (idx_add i o) = true ->
  vx (vsub (v s i) (v s (idx_add i o))) = NaN ->
  spring_force p s i = nan3.
Proof.
  intros Hin Hb Hv. unfold spring_force.
  generalize vzero at 1.
  induction (spring_offsets s) as [| a l IH]; intros f; [destruct Hin |].
  simpl. destruct Hin as [-> | Hin].
  - rewrite spring_term_nan_velocity by assumption. apply fold_spring_term_nan.
  - now apply IH.
Qed.

(** C1 as stated fails.  In [state_sliding] ([spring_Y] = 0, no gravity, all
    points outside the ball) the dashpot term, which does not depend on
    [spring_Y], slows the point next to the one at rest.  In
    [state_collapsed] the points coincide and the velocity becomes NaN.  In
    [state_runaway] the points are apart and share one velocity, which is
    infinite, and the velocity becomes NaN. *)
Lemma substep_not_drag_only :
  (spring_Y state_sliding = Fin 0 /\
   gravity params_still = (0, 0, 0)%R /\
   outside_ball params_still state_sliding /\
   v (substep params_still state_sliding) (0, 0)
   <> vmuls (v state_sliding (0, 0))
            (Fin (exp (- drag_damping params_still * dt params_still)))) /\
  (spring_Y state_collapsed = Fin 0 /\
   outside_ball params_still state_collapsed /\
   v (substep params_still state_collapsed) (0, 0)
   <> vmuls (v state_collapsed (0, 0))
            (Fin (exp (- drag_damping params_still * dt params_still)))) /\
  (spring_Y state_runaway = Fin 0 /\
   outside_ball params_still state_runaway /\
   neighbours_apart params_still state_runaway /\
   no_dashpot params_still state_runaway /\
   v (substep params_still state_runaway) (0, 0)
   <> vmuls (v state_runaway (0, 0))
            (Fin (exp (- drag_damping params_still * dt params_still)))).
Proof.
  split; [| split].
  - split; [reflexivity |]. split; [reflexivity |].
    assert (outside_ball params_still state_sliding) as Hout
        by (apply cell_x_outside; reflexivity).
    split; [exact Hout |].
    rewrite (substep_first_cell params_still state_sliding (0, 0)
               [(0, 1); (1, 0); (1, 1)]); try reflexivity.
    + unfold collide.
      rewrite (ltb_not_leb _ _ (Hout (0, 0) ltac:(unfold on_grid; simpl; lia))).
      unfold spring_v. destruct sliding_force as (u & Hu & ->).
      change (v state_sliding (0, 0)) with (V3 (Fin 1) (Fin 0) (Fin 0)).
      unfold drag, vadd, vmuls. cbn [vx vy vz F.mul F.add F.exp].
      intros H. injection H as H.
      pose proof (exp_pos (- drag_damping params_still * dt params_still)) as He.
      assert (0 < quad_size params_still * dt params_still)%R as Hqd.
      { unfold quad_size, dt. simpl. lra. }
      assert (0 < u * u)%R as Hu2 by nra.
      set (e := exp (- drag_damping params_still * dt params_still)) in *.
      set (X := (- (u * u) * 1e4 * quad_size params_still * dt params_still)%R) in *.
      assert (X < 0)%R as HX.
      { unfold X.
        replace (- (u * u) * 1e4 * quad_size params_still * dt params_still)%R
          with (- (1e4 * ((u * u) * (quad_size params_still * dt params_still))))%R
          by ring.
        assert (0 < (u * u) * (quad_size params_still * dt params_still))%R
          by (apply Rmult_lt_0_compat; assumption).
        lra. }
      change (exp (- (1) * dt params_still)) with e in H.
      assert (X * e = 0)%R as HXe.
      { replace (X * e)%R with ((1 + X) * e - 1 * e)%R by ring.
        rewrite H. ring. }
      apply Rmult_integral in HXe. lra.
    + intros k _. apply cell_v_finite.
  - split; [reflexivity |].
    assert (on_grid params_still (0, 0)) as H0 by (unfold on_grid; simpl; lia).
    split.
    + intros k Hk. unfold vsub. simpl. rewrite norm_fin.
      apply ltb_fin, len_gt; lra.
    + destruct (substep_degenerate params_still state_collapsed (0, 0) (0, 1))
        as [-> _]; auto.
      * simpl. tauto.
      * unfold on_grid. simpl. lia.
      * unfold vsub, vzero. simpl. f_equal; f_equal; lra.
      * discriminate.
  - split; [reflexivity |].
    split; [apply cell_x_outside; reflexivity |].
    split; [apply cell_x_apart; reflexivity |].
    split; [right; reflexivity |].
    assert (on_grid params_still (0, 0)) as H0 by (unfold on_grid; simpl; lia).
    assert (on_grid params_still (0, 1)) as H1 by (unfold on_grid; simpl; lia).
    rewrite (substep_head params_still state_runaway (0, 0)
               [(0, 1); (1, 0); (1, 1)] eq_refl).
    unfold spring_v.
    rewrite (spring_force_nan_velocity params_still _ (0, 0) (0, 1)).
    + rewrite vmuls_nan, vadd_nan_r, drag_nan, collide_nan. discriminate.
    + pose proof (gravity_stage_tunables params_still state_runaway) as Ht.
      apply tunables_eq in Ht. destruct Ht as (_ & _ & _ & ->). simpl. tauto.
    + reflexivity.
    + destruct (gravity_stage_cell params_still state_runaway (0, 0) H0) as [_ ->].
      change (idx_add (0, 0) (0, 1)) with (0, 1).
      destruct (gravity_stage_cell params_still state_runaway (0, 1) H1) as [_ ->].
      reflexivity.
Qed.

(** * Further properties of [substep] *)

(** X1: Positions move in the last pass only, by [dt] times the new velocity:
    one [substep] is a semi-implicit Euler step for every cell, whatever the
    forces were. *)
Theorem substep_integrates_positions (p : Params) (s : State) (k : idx) :
  on_grid p k ->
  x (spring_stage p (gravity_stage p s)) k = x s k /\
  x (substep p s) k
  = vadd (x s k) (smul (Fin (dt p)) (v (substep p s) k)).
Proof.
  intros Hk.
  destruct (spring_loop_x p (ndrange (n p) (n p)) (gravity_stage p s)) as [Hx _].
  fold (spring_stage p (gravity_stage p s)) in Hx.
  destruct (gravity_stage_cell p s k Hk) as [Hg _].
  assert (x (spring_stage p (gravity_stage p s)) k = x s k) as H
      by (now rewrite Hx).
  split; [exact H |]. unfold substep.
  destruct (collision_stage_cell p (spring_stage p (gravity_stage p s)) k Hk)
    as [-> ->].
  unfold collision_x. now rewrite H.
Qed.

(** X2: The first pass alone: every velocity on the grid gains [gravity * dt],
    component by component, and no position changes. *)
Theorem gravity_stage_adds_gravity (p : Params) (s : State) (k : idx)
    (a b c : R) :
  on_grid p k -> v s k = V3 (Fin a) (Fin b) (Fin c) ->
  x (gravity_stage p s) k = x s k /\
  v (gravity_stage p s) k
  = V3 (Fin (a + fst (fst (gravity p)) * dt p))
       (Fin (b + snd (fst (gravity p)) * dt p))
       (Fin (c + snd (gravity p) * dt p)).
Proof.
  intros Hk Hv. destruct (gravity_stage_cell p s k Hk) as [-> ->].
  split; [reflexivity |]. unfold gravity_v. rewrite Hv.
  destruct (gravity p) as [[gx gy] gz]. reflexivity.
Qed.

Lemma spring_loop_nan (p : Params) (l : list idx) (s : State) (k : idx) :
  v s k = nan3 -> v (fold_left (spring_body p) l s) k = nan3.
Proof.
  revert s. induction l as [| a l IH]; intros s Hk; simpl; [exact Hk |].
  apply IH. unfold spring_body. cbn [v set_v]. unfold upd.
  destruct (idx_eqb k a) eqn:E; [| exact Hk].
  apply idx_eqb_eq in E. subst a. now rewrite Hk, vadd_nan_l.
Qed.

Lemma gravity_stage_nan (p : Params) (s : State) (k : idx) :
  on_grid p k -> v s k = nan3 -> v (gravity_stage p s) k = nan3.
Proof.
  intros Hk Hv. destruct (gravity_stage_cell p s k Hk) as [_ ->].
  unfold gravity_v. now rewrite Hv, vadd_nan_l.
Qed.

Lemma collision_stage_nan (p : Params) (s : State) (k : idx) :
  on_grid p k -> v s k = nan3 ->
  v (collision_stage p s) k = nan3 /\ x (collision_stage p s) k = nan3.
Proof.
  intros Hk Hv. destruct (collision_stage_cell p s k Hk) as [-> ->].
  unfold collision_x, collision_v.
  rewrite Hv, drag_nan, collide_nan, smul_nan, vadd_nan_r. now split.
Qed.

(** X3: A velocity that is NaN stays NaN: after one more [substep] the point's
    velocity and its position are NaN in every component. *)
Theorem substep_nan_is_permanent (p : Params) (s : State) (k : idx) :
  on_grid p k -> v s k = nan3 ->
  v (substep p s) k = nan3 /\ x (substep p s) k = nan3.
Proof.
  intros Hk Hv. unfold substep. apply collision_stage_nan; [exact Hk |].
  unfold spring_stage. apply spring_loop_nan. now apply gravity_stage_nan.
Qed.

(** X4: NaN spreads along springs: a point with an in-bounds neighbour whose
    velocity is NaN has a NaN velocity itself after one [substep]. *)
Theorem substep_nan_spreads (p : Params) (s : State) (i o : idx) :
  on_grid p i -> In o (spring_offsets s) -> on_grid p (idx_add i o) ->
  v s (idx_add i o) = nan3 ->
  v (substep p s) i = nan3 /\ x (substep p s) i = nan3.
Proof.
  intros Hi Ho Hj Hv. unfold substep. apply collision_stage_nan; [exact Hi |].
  unfold spring_stage.
  destruct (spring_loop_visited p _ (gravity_stage p s) i
              (NoDup_ndrange _ _) (proj1 (on_grid_in p i) Hi))
    as (l1 & l2 & _ & ->).
  destruct (spring_loop_x p l1 (gravity_stage p s)) as [_ Ht].
  rewrite gravity_stage_tunables in Ht.
  apply tunables_eq in Ht. destruct Ht as (_ & _ & _ & Hoff).
  unfold spring_v.
  rewrite (spring_force_nan_velocity p _ i o).
  - now rewrite vmuls_nan, vadd_nan_r.
  - now rewrite Hoff.
  - now apply in_bounds_on_grid.
  - rewrite (spring_loop_nan p l1 (gravity_stage p s) (idx_add i o))
      by (now apply gravity_stage_nan).
    unfold vsub, nan3. cbn [vx]. apply add_nan_r.
Qed.

(** * Buffers filled cell by cell *)

Lemma loop_keeps {A : Type} (f : State -> A) (body : State -> idx -> State)
    (l : list idx) (s : State) :
  (forall s i, f (body s i) = f s) -> f (fold_left body l s) = f s.
Proof.
  intros Hb. revert s. induction l as [| a l IH]; intros s; simpl.
  - reflexivity.
  - now rewrite IH, Hb.
Qed.

Lemma fill_length {A : Type} (pos : idx -> Z) (val : idx -> A)
    (cells : list idx) (buf : list A) :
  length (fill pos val cells buf) = length buf.
Proof.
  unfold fill. revert buf.
  induction cells as [| a l IH]; intros buf; simpl; [reflexivity |].
  now rewrite IH, write_length.
Qed.

Lemma nth_error_store_eq {A : Type} (l : list A) (k : nat) (a : A) :
  (k < length l)%nat -> nth_error (store l k a) k = Some a.
Proof.
  revert k. induction l as [| h t IH]; intros [| k]; simpl; intros H;
    try lia; auto.
  apply IH. lia.
Qed.

Lemma nth_error_store_neq {A : Type} (l : list A) (k k' : nat) (a : A) :
  k <> k' -> nth_error (store l k a) k' = nth_error l k'.
Proof.
  revert k k'. induction l as [| h t IH]; intros [| k] [| k'] H; simpl;
    try congruence; auto.
Qed.

(** Every listed cell holds its own value when the writes go to different
    places inside the buffer. *)
Lemma fill_lookup {A : Type} (pos : idx -> Z) (val : idx -> A)
    (cells : list idx) (buf : list A) (k : idx) :
  (forall a, In a cells -> 0 <= pos a < Z.of_nat (length buf)) ->
  (forall a b, In a cells -> In b cells -> pos a = pos b -> a = b) ->
  In k cells ->
  nth_error (fill pos val cells buf) (Z.to_nat (pos k)) = Some (val k).
Proof.
  induction cells as [| a l IH] using rev_ind; intros Hpos Hinj Hin.
  - destruct Hin.
  - unfold fill. rewrite fold_left_app. simpl. fold (fill pos val l buf).
    assert (In a (l ++ [a])) as Ha by (apply in_or_app; right; now left).
    destruct (Z.eq_dec (pos a) (pos k)) as [E | E].
    + rewrite (Hinj a k Ha Hin E). unfold write.
      apply nth_error_store_eq. rewrite fill_length.
      specialize (Hpos k Hin). lia.
    + unfold write. rewrite nth_error_store_neq.
      * apply IH.
        -- intros b Hb. apply Hpos, in_or_app. now left.
        -- intros b c Hb Hc. apply Hinj; apply in_or_app; now left.
        -- apply in_app_or in Hin. destruct Hin as [Hin | [-> | []]]; auto.
           congruence.
      * pose proof (Hpos a Ha). pose proof (Hpos k Hin). lia.
Qed.

Lemma flat_of_inj (p : Params) (a b : idx) :
  In a (ndrange (n p) (n p)) -> In b (ndrange (n p) (n p)) ->
  flat_of p a = flat_of p b -> a = b.
Proof.
  intros Ha Hb H. apply in_ndrange in Ha. apply in_ndrange in Hb.
  destruct a as [i j], b as [i' j']. unfold flat_of in H. simpl in *.
  destruct (quad_id_inj (n p) i j i' j') as [-> ->]; auto; lia.
Qed.

Lemma flat_of_bounds (p : Params) (a : idx) :
  In a (ndrange (n p) (n p)) -> 0 <= flat_of p a < n p * n p.
Proof.
  intros Ha. apply in_ndrange in Ha. destruct a as [i j]. unfold flat_of.
  simpl in *. apply quad_id_bounds; lia.
Qed.

Lemma fill_grid_lookup {A : Type} (p : Params) (val : idx -> A)
    (buf : list A) (i j : Z) :
  length buf = Z.to_nat (n p * n p) ->
  0 <= i < n p -> 0 <= j < n p ->
  nth_error (fill (flat_of p) val (ndrange (n p) (n p)) buf)
            (Z.to_nat (flat p i j)) = Some (val (i, j)).
Proof.
  intros Hlen Hi Hj.
  change (flat p i j) with (flat_of p (i, j)).
  apply fill_lookup.
  - intros a Ha. apply flat_of_bounds in Ha. rewrite Hlen. lia.
  - apply flat_of_inj.
  - apply in_ndrange. simpl. lia.
Qed.

(** ** update_vertices *)

Lemma update_vertices_fields (p : Params) (s : State) :
  x (update_vertices p s) = x s /\ v (update_vertices p s) = v s.
Proof.
  unfold update_vertices. split.
  - apply (loop_keeps x). now intros s0 [i j].
  - apply (loop_keeps v). now intros s0 [i j].
Qed.

Lemma update_vertices_buf (p : Params) (s : State) :
  vertices (update_vertices p s)
  = fill (flat_of p) (x s) (ndrange (n p) (n p)) (vertices s).
Proof.
  unfold update_vertices, fill.
  generalize (ndrange (n p) (n p)) as l.
  assert (forall l s', x s' = x s ->
            vertices (fold_left (fun s0 ij => let '(i, j) := ij in
               set_vertices s0 (write (vertices s0) (i * n p + j) (x s0 (i, j))))
               l s')
            = fold_left (fun l0 a => write l0 (flat_of p a) (x s a)) l (vertices s'))
    as H.
  { induction l as [| [i j] l IH]; intros s' Hx; simpl; [reflexivity |].
    rewrite IH by exact Hx. now rewrite Hx. }
  intros l. now apply H.
Qed.

(** X5: [update_vertices] copies the position of every cell (i,j) to entry
    i*n+j of the vertex buffer, keeps the buffer's length, and changes
    neither positions nor velocities. *)
Theorem update_vertices_mirrors_positions (p : Params) (s : State) :
  length (vertices s) = Z.to_nat (n p * n p) ->
  length (vertices (update_vertices p s)) = length (vertices s) /\
  x (update_vertices p s) = x s /\ v (update_vertices p s) = v s /\
  forall i j : Z, 0 <= i < n p -> 0 <= j < n p ->
    nth_error (vertices (update_vertices p s)) (Z.to_nat (i * n p + j))
    = Some (x s (i, j)).
Proof.
  intros Hlen. rewrite update_vertices_buf.
  split; [apply fill_length |].
  split; [apply update_vertices_fields |].
  split; [apply update_vertices_fields |].
  intros i j Hi Hj. now apply (fill_grid_lookup p (x s)).
Qed.

Lemma update_vertices_mirrors_positions_witness :
  vertices (update_vertices params_n2
              (set_x (initial_state params_n2 (fun _ => 0%R)) cell_x))
  = [cell_x (0, 0); cell_x (0, 1); cell_x (1, 0); cell_x (1, 1)] /\
  nth_error (vertices (update_vertices params_n2
              (set_x (initial_state params_n2 (fun _ => 0%R)) cell_x)))
            (Z.to_nat (1 * n params_n2 + 0))
  = Some (cell_x (1, 0)).
Proof.
  split; [reflexivity |].
  apply (update_vertices_mirrors_positions params_n2
           (set_x (initial_state params_n2 (fun _ => 0%R)) cell_x));
    [reflexivity | simpl; lia | simpl; lia].
Defined.

(** ** The colour buffer *)

Lemma write_color_buf (p : Params) (s : State) (ij : idx) :
  colors (write_color p s ij)
  = write (colors s) (flat_of p ij) (cell_color ij).
Proof.
  destruct ij as [i j]. unfold write_color, cell_color, flat_of. cbn [fst snd].
  now destruct ((i / 4 + j / 4) mod 2 =? 0).
Qed.

Lemma write_quad_colors (p : Params) (s : State) (ij : idx) :
  colors (write_quad p s ij) = colors s.
Proof. now destruct ij. Qed.

Lemma initialize_mesh_indices_colors (p : Params) (s : State) :
  colors (initialize_mesh_indices p s)
  = fill (flat_of p) cell_color (ndrange (n p) (n p)) (colors s).
Proof.
  unfold initialize_mesh_indices, fill.
  rewrite <- (loop_keeps colors (write_quad p) (ndrange (n p - 1) (n p - 1)) s
                (write_quad_colors p)).
  generalize (fold_left (write_quad p) (ndrange (n p - 1) (n p - 1)) s) as s'.
  induction (ndrange (n p) (n p)) as [| a l IH]; intros s'; simpl.
  - reflexivity.
  - now rewrite IH, write_color_buf.
Qed.

Lemma cell_color_even (i j : Z) :
  cell_color (i, j) = if Z.even (i / 4 + j / 4) then light else dark.
Proof.
  unfold cell_color. cbn [fst snd].
  rewrite Zmod_even. now destruct (Z.even (i / 4 + j / 4)).
Qed.

Lemma light_not_dark : light <> dark.
Proof. unfold light, dark. intros H. injection H. lra. Qed.

(** * What the mesh kernel leaves in its buffers *)

(** X6: The colour kernel paints a checkerboard of 4-by-4 blocks: entry i*n+j
    of the colour buffer is the light grey when i//4 + j//4 is even and the
    dark grey otherwise, so two cells of one block have one colour and the
    blocks next to it, four cells further along a row or a column, have the
    other. *)
Theorem checkerboard_colors (p : Params) (s : State) :
  length (colors s) = Z.to_nat (n p * n p) ->
  let col := fun i j =>
    nth_error (colors (initialize_mesh_indices p s)) (Z.to_nat (i * n p + j)) in
  length (colors (initialize_mesh_indices p s)) = length (colors s) /\
  (forall i j : Z, 0 <= i < n p -> 0 <= j < n p ->
     col i j = Some (if Z.even (i / 4 + j / 4) then light else dark)) /\
  (forall i j i' j' : Z,
     0 <= i < n p -> 0 <= j < n p -> 0 <= i' < n p -> 0 <= j' < n p ->
     i / 4 = i' / 4 -> j / 4 = j' / 4 -> col i j = col i' j') /\
  (forall i j : Z, 0 <= i -> i + 4 < n p -> 0 <= j < n p ->
     col (i + 4) j <> col i j /\ col j (i + 4) <> col j i).
Proof.
  intros Hlen col.
  assert (forall i j : Z, 0 <= i < n p -> 0 <= j < n p ->
            col i j = Some (if Z.even (i / 4 + j / 4) then light else dark)) as H.
  { intros i j Hi Hj. unfold col.
    rewrite initialize_mesh_indices_colors, <- cell_color_even.
    now apply (fill_grid_lookup p cell_color). }
  split; [| split; [exact H | split]].
  - rewrite initialize_mesh_indices_colors. apply fill_length.
  - intros i j i' j' Hi Hj Hi' Hj' Ei Ej.
    rewrite !H by assumption. now rewrite Ei, Ej.
  - intros i j Hi Hi4 Hj.
    rewrite !H by lia.
    replace ((i + 4) / 4) with (i / 4 + 1)
      by (rewrite <- (Z.div_add i 1 4) by lia; f_equal; lia).
    replace (i / 4 + 1 + j / 4) with (Z.succ (i / 4 + j / 4)) by lia.
    replace (j / 4 + (i / 4 + 1)) with (Z.succ (j / 4 + i / 4)) by lia.
    rewrite !Z.even_succ, <- !Z.negb_even.
    split.
    + destruct (Z.even (i / 4 + j / 4)); simpl; intros E;
        apply light_not_dark; congruence.
    + destruct (Z.even (j / 4 + i / 4)); simpl; intros E;
        apply light_not_dark; congruence.
Qed.

Lemma checkerboard_colors_witness :
  nth_error (colors (initialize_mesh_indices params_n2
                       (initial_state params_n2 (fun _ => 0%R))))
            (Z.to_nat (1 * n params_n2 + 1))
  = Some (if Z.even (1 / 4 + 1 / 4) then light else dark).
Proof.
  apply (checkerboard_colors params_n2 (initial_state params_n2 (fun _ => 0%R)));
    [reflexivity | simpl; lia | simpl; lia].
Defined.

(** ** Triangles *)

Lemma mesh_load (p : Params) (s : State) (i j k : Z) :
  length (indices s) = Z.to_nat (num_triangles p * 3) ->
  0 <= i < n p - 1 -> 0 <= j < n p - 1 -> 0 <= k < 6 ->
  load (indices (initialize_mesh_indices p s)) ((i * (n p - 1) + j) * 6 + k)
  = quad_entry p i j k.
Proof.
  intros Hshape Hi Hj Hk. rewrite initialize_mesh_indices_buf.
  apply load_fold_quad_buf; auto.
  - rewrite Hshape. unfold num_triangles. nia.
  - intros q Hq. now apply in_ndrange in Hq.
  - apply in_ndrange. simpl. lia.
Qed.

Lemma mesh_length (p : Params) (s : State) :
  length (indices (initialize_mesh_indices p s)) = length (indices s).
Proof. rewrite initialize_mesh_indices_buf. apply fold_quad_buf_length. Qed.

(** X7: No triangle of the mesh is degenerate: the three vertex indices of each
    of the two triangles of a quad are pairwise different, and the two
    triangles have different corners opposite their common diagonal. *)
Theorem mesh_triangles_nondegenerate (p : Params) (s : State) (i j : Z) :
  length (indices s) = Z.to_nat (num_triangles p * 3) ->
  0 <= i < n p - 1 -> 0 <= j < n p - 1 ->
  let ind := indices (initialize_mesh_indices p s) in
  let q := i * (n p - 1) + j in
  (load ind (q * 6 + 0) <> load ind (q * 6 + 1) /\
   load ind (q * 6 + 1) <> load ind (q * 6 + 2) /\
   load ind (q * 6 + 0) <> load ind (q * 6 + 2)) /\
  (load ind (q * 6 + 3) <> load ind (q * 6 + 4) /\
   load ind (q * 6 + 4) <> load ind (q * 6 + 5) /\
   load ind (q * 6 + 3) <> load ind (q * 6 + 5)) /\
  load ind (q * 6 + 0) <> load ind (q * 6 + 3).
Proof.
  intros Hshape Hi Hj ind q. subst ind q.
  rewrite !(mesh_load p s i j) by (assumption || lia).
  unfold quad_entry, flat. simpl. repeat split; nia.
Qed.

Lemma mesh_triangles_nondegenerate_witness :
  let ind := indices (initialize_mesh_indices params_n2
                        (initial_state params_n2 (fun _ => 0%R))) in
  load ind 0 <> load ind 1 /\ load ind 3 <> load ind 5.
Proof.
  intros ind.
  destruct (mesh_triangles_nondegenerate params_n2
              (initial_state params_n2 (fun _ => 0%R)) 0 0)
    as ((H01 & _) & (_ & _ & H35) & _);
    [reflexivity | simpl; lia | simpl; lia |].
  split; assumption.
Defined.

(** X8: Every mass point is a corner of some triangle: on a grid with at
    least two rows and columns every vertex index i*n+j occurs in the index
    buffer. *)
Theorem mesh_uses_every_vertex (p : Params) (s : State) (i j : Z) :
  length (indices s) = Z.to_nat (num_triangles p * 3) ->
  2 <= n p -> 0 <= i < n p -> 0 <= j < n p ->
  In (i * n p + j) (indices (initialize_mesh_indices p s)).
Proof.
  intros Hshape Hn Hi Hj.
  set (i0 := Z.min i (n p - 2)). set (j0 := Z.min j (n p - 2)).
  set (k := (if i <? n p - 1 then 0 else 1) + (if j <? n p - 1 then 0 else 2)).
  assert (0 <= i0 < n p - 1) as Hi0 by (unfold i0; lia).
  assert (0 <= j0 < n p - 1) as Hj0 by (unfold j0; lia).
  assert (0 <= k < 6) as Hk
      by (unfold k; destruct (i <? n p - 1), (j <? n p - 1); lia).
  assert (quad_entry p i0 j0 k = i * n p + j) as E.
  { unfold k, i0, j0, quad_entry, flat.
    destruct (Z.ltb_spec i (n p - 1)) as [Hi' | Hi'];
      [rewrite (Z.min_l i) by lia
      | rewrite (Z.min_r i) by lia; assert (i = n p - 1) as Ei by lia];
      (destruct (Z.ltb_spec j (n p - 1)) as [Hj' | Hj'];
       [rewrite (Z.min_l j) by lia
       | rewrite (Z.min_r j) by lia; assert (j = n p - 1) as Ej by lia]);
      simpl; subst; ring. }
  rewrite <- E, <- (mesh_load p s i0 j0 k) by assumption.
  unfold load. apply nth_In.
  rewrite mesh_length, Hshape. unfold num_triangles.
  pose proof (quad_id_bounds (n p - 1) i0 j0 Hi0 Hj0). nia.
Qed.

Lemma mesh_uses_every_vertex_witness :
  In (1 * n params_n2 + 1)
     (indices (initialize_mesh_indices params_n2
                 (initial_state params_n2 (fun _ => 0%R)))).
Proof.
  apply (mesh_uses_every_vertex params_n2 (initial_state params_n2 (fun _ => 0%R))
           1 1); [reflexivity | simpl; lia | simpl; lia | simpl; lia].
Defined.

(** * The response of the ball *)




Lemma vsub_nan_r (a : vec3) : vsub a nan3 = nan3.
Proof. unfold vsub, nan3, F.sub. simpl. now rewrite !add_nan_r. Qed.


Lemma collide_at_center (c : vec3) (r : float) (vi : vec3) :
  vfinite c -> F.leb (Fin 0) r = true -> collide c r c vi = nan3.
Proof.
  intros Hc Hr. unfold collide. rewrite (vsub_self c Hc).
  unfold vzero at 1. rewrite norm_fin, len_zero, Hr.
  now rewrite normalized_zero, smul_nan, vsub_nan_r.
Qed.






Lemma before_collision (p : Params) (s : State) (k : idx) :
  on_grid p k ->
  x (spring_stage p (gravity_stage p s)) k = x s k /\
  ball_center (spring_stage p (gravity_stage p s)) = ball_center s /\
  ball_radius (spring_stage p (gravity_stage p s)) = ball_radius s.
Proof.
  intros Hk. unfold spring_stage.
  destruct (spring_loop_x p (ndrange (n p) (n p)) (gravity_stage p s)) as [Hx Ht].
  rewrite gravity_stage_tunables in Ht. apply tunables_eq in Ht.
  destruct Ht as (_ & Hr & Hc & _).
  rewrite Hx. destruct (gravity_stage_cell p s k Hk) as [-> _]. auto.
Qed.

(** X11: A point exactly at the ball's centre: the distance is zero, the test
    [0 <= ball_radius] passes, the normal is the direction of a zero vector,
    and after one [substep] the point's velocity and position are NaN. *)
Theorem point_at_ball_center_gets_nan (p : Params) (s : State) (k : idx) :
  on_grid p k -> vfinite (ball_center s) -> x s k = ball_center s ->
  F.leb (Fin 0) (ball_radius s) = true ->
  v (substep p s) k = nan3 /\ x (substep p s) k = nan3.
Proof.
  intros Hk Hc Hx Hr. unfold substep.
  destruct (collision_stage_cell p (spring_stage p (gravity_stage p s)) k Hk)
    as [-> ->].
  unfold collision_x, collision_v.
  destruct (before_collision p s k Hk) as (-> & -> & ->).
  rewrite Hx, collide_at_center by assumption.
  now rewrite smul_nan, vadd_nan_r.
Qed.

Lemma point_at_ball_center_gets_nan_witness :
  x (substep params_n2 (initial_state params_n2 (fun _ => 0%R))) (1, 1) = nan3.
Proof.
  assert (on_grid params_n2 (1, 1)) as Hk by (unfold on_grid; simpl; lia).
  assert (F.leb (Fin 0) (ball_radius (initial_state params_n2 (fun _ => 0%R)))
          = true) as Hr by (apply leb_fin; lra).
  exact (proj2 (point_at_ball_center_gets_nan params_n2
                  (initial_state params_n2 (fun _ => 0%R)) (1, 1) Hk
                  (fin_vfinite 0 0 0) eq_refl Hr)).
Defined.

(** * Instances of the step properties *)

Lemma substep_integrates_positions_witness :
  x (substep params_n2 state_one_nan) (0, 0)
  = vadd (x state_one_nan (0, 0))
         (smul (Fin (dt params_n2)) (v (substep params_n2 state_one_nan) (0, 0))).
Proof.
  assert (on_grid params_n2 (0, 0)) as Hk by (unfold on_grid; simpl; lia).
  exact (proj2 (substep_integrates_positions params_n2 state_one_nan (0, 0) Hk)).
Defined.

Lemma gravity_stage_adds_gravity_witness :
  v (gravity_stage params_n2 state_one_nan) (1, 0)
  = V3 (Fin (0 + fst (fst (gravity params_n2)) * dt params_n2))
       (Fin (0 + snd (fst (gravity params_n2)) * dt params_n2))
       (Fin (0 + snd (gravity params_n2) * dt params_n2)).
Proof.
  assert (on_grid params_n2 (1, 0)) as Hk by (unfold on_grid; simpl; lia).
  exact (proj2 (gravity_stage_adds_gravity params_n2 state_one_nan (1, 0)
                  0 0 0 Hk eq_refl)).
Defined.

Lemma substep_nan_is_permanent_witness :
  v (substep params_n2 state_nan) (0, 0) = nan3.
Proof.
  assert (on_grid params_n2 (0, 0)) as Hk by (unfold on_grid; simpl; lia).
  exact (proj1 (substep_nan_is_permanent params_n2 state_nan (0, 0) Hk eq_refl)).
Defined.

Lemma substep_nan_spreads_witness :
  v state_one_nan (0, 0) = vzero /\
  v (substep params_n2 state_one_nan) (0, 0) = nan3.
Proof.
  assert (on_grid params_n2 (0, 0)) as Hi by (unfold on_grid; simpl; lia).
  assert (on_grid params_n2 (idx_add (0, 0) (0, 1))) as Hj
      by (unfold on_grid; simpl; lia).
  assert (In (0, 1) (spring_offsets state_one_nan)) as Ho by (simpl; tauto).
  split; [reflexivity |].
  exact (proj1 (substep_nan_spreads params_n2 state_one_nan (0, 0) (0, 1)
                  Hi Ho Hj eq_refl)).
Defined.

(** * A sheet in free fall *)

Lemma quad_size_pos (p : Params) : 0 < n p -> (0 < quad_size p)%R.
Proof.
  intros Hn. unfold quad_size. apply Rdiv_lt_0_compat; [lra |]. now apply IZR_lt.
Qed.

Lemma flat_sheet_sub (p : Params) (c : R * R * R) (i j : idx) :
  vsub (flat_sheet p c i) (flat_sheet p c j)
  = V3 (Fin (IZR (fst (idx_sub i j)) * quad_size p)) (Fin 0)
       (Fin (IZR (snd (idx_sub i j)) * quad_size p)).
Proof.
  destruct c as [[cx cy] cz]. unfold flat_sheet, vsub, idx_sub.
  cbn [vx vy vz fst snd F.sub F.add F.neg].
  rewrite !minus_IZR. f_equal; f_equal; ring.
Qed.

Lemma sheet_len (p : Params) (o : idx) :
  0 < n p ->
  len (IZR (fst o) * quad_size p) 0 (IZR (snd o) * quad_size p)
  = (quad_size p * len2 o)%R.
Proof.
  intros Hn. pose proof (quad_size_pos p Hn) as Hq. unfold len, len2.
  replace (IZR (fst o) * quad_size p * (IZR (fst o) * quad_size p) + 0 * 0
           + IZR (snd o) * quad_size p * (IZR (snd o) * quad_size p) + 0)%R
    with (quad_size p * quad_size p
          * (IZR (fst o) * IZR (fst o) + IZR (snd o) * IZR (snd o) + 0))%R
    by ring.
  rewrite sqrt_mult by nra. rewrite sqrt_square by lra. reflexivity.
Qed.

Lemma flat_sheet_apart (p : Params) (c : R * R * R) (i j : idx) :
  0 < n p -> i <> j -> vsub (flat_sheet p c i) (flat_sheet p c j) <> vzero.
Proof.
  intros Hn Hij. rewrite flat_sheet_sub.
  pose proof (quad_size_pos p Hn) as Hq.
  intros H. injection H as H1 H3.
  apply Rmult_integral in H1. apply Rmult_integral in H3.
  destruct H1 as [H1 | H1]; [| lra]. destruct H3 as [H3 | H3]; [| lra].
  apply eq_IZR_R0 in H1. apply eq_IZR_R0 in H3.
  destruct i as [i0 i1], j as [j0 j1]. unfold idx_sub in *. cbn [fst snd] in *.
  apply Hij. f_equal; lia.
Qed.

Lemma flat_sheet_norm (p : Params) (c : R * R * R) (i j : idx) :
  0 < n p ->
  norm (vsub (flat_sheet p c i) (flat_sheet p c j))
  = F.mul (Fin (quad_size p)) (norm2 (idx_sub i j)).
Proof.
  intros Hn. rewrite flat_sheet_sub, norm_fin, norm2_fin, (sheet_len p _ Hn).
  reflexivity.
Qed.

Lemma vec_of_finite (w : R * R * R) : vfinite (vec_of w).
Proof. destruct w as [[w1 w2] w3]. apply fin_vfinite. Qed.

(** A spring of a flat sheet whose two ends move together exerts no
    force: it has its rest length and no relative velocity. *)
Lemma spring_term_rest (p : Params) (s : State) (i o : idx) (c w : R * R * R) :
  0 < n p -> F.is_finite (spring_Y s) -> o <> (0, 0) ->
  (in_bounds p (idx_add i o) = true ->
     x s i = flat_sheet p c i /\ x s (idx_add i o) = flat_sheet p c (idx_add i o) /\
     v s i = vec_of w /\ v s (idx_add i o) = vec_of w) ->
  spring_term p s i vzero o = vzero.
Proof.
  intros Hn [Y HY] Ho H. unfold spring_term.
  destruct (in_bounds p (idx_add i o)); [| reflexivity].
  destruct (H eq_refl) as (-> & -> & -> & ->). clear H.
  rewrite HY, (vsub_self _ (vec_of_finite w)).
  assert (i <> idx_add i o) as Hij.
  { destruct i as [i0 i1], o as [o0 o1]. unfold idx_add. cbn [fst snd].
    intros E. injection E as E0 E1. apply Ho. f_equal; lia. }
  pose proof (flat_sheet_apart p c i (idx_add i o) Hn Hij) as Hnz.
  rewrite flat_sheet_sub in *.
  set (o' := idx_sub i (idx_add i o)) in *.
  assert (0 < len2 o')%R as H2.
  { apply len2_pos. unfold o'. destruct i as [i0 i1], o as [o0 o1].
    unfold idx_sub, idx_add. cbn [fst snd]. intros E. injection E as E0 E1.
    apply Ho. f_equal; lia. }
  pose proof (quad_size_pos p Hn) as Hq.
  rewrite (normalized_fin _ _ _ Hnz), norm_fin, norm2_fin, (sheet_len p o' Hn).
  cbn [F.mul]. rewrite div_fin by nra.
  replace (quad_size p * len2 o' / (quad_size p * len2 o'))%R with 1%R
    by (field; nra).
  unfold smul, vmuls, vadd, dot, vzero.
  cbn [vx vy vz F.mul F.add F.sub F.neg].
  f_equal; f_equal; ring.
Qed.

Lemma spring_force_rest (p : Params) (s : State) (i : idx) (c w : R * R * R) :
  0 < n p -> F.is_finite (spring_Y s) -> ~ In (0, 0) (spring_offsets s) ->
  on_grid p i -> rigid_sheet p s c w ->
  spring_force p s i = vzero.
Proof.
  intros Hn HY Hno Hi Hs. unfold spring_force.
  induction (spring_offsets s) as [| o l IH]; simpl; [reflexivity |].
  rewrite (spring_term_rest p s i o c w Hn HY).
  - apply IH. intros H. apply Hno. now right.
  - intros ->. apply Hno. now left.
  - intros Hb. apply in_bounds_on_grid in Hb.
    destruct (Hs i Hi) as [-> ->]. destruct (Hs _ Hb) as [-> ->]. auto.
Qed.

Lemma gravity_stage_rigid (p : Params) (s : State) (c w : R * R * R) :
  rigid_sheet p s c w ->
  rigid_sheet p (gravity_stage p s) c
    (let '(w1, w2, w3) := w in
     let '(g1, g2, g3) := gravity p in
     (w1 + g1 * dt p, w2 + g2 * dt p, w3 + g3 * dt p)%R).
Proof.
  intros Hs k Hk. destruct (gravity_stage_cell p s k Hk) as [-> ->].
  destruct (Hs k Hk) as [Hx Hv]. split; [exact Hx |].
  unfold gravity_v. rewrite Hv.
  destruct w as [[w1 w2] w3]. destruct (gravity p) as [[g1 g2] g3]. reflexivity.
Qed.

(** One cell of a rigid sheet outside the ball, after one [substep]. *)
Lemma rigid_step_cell (p : Params) (s : State) (c w : R * R * R) (k : idx) :
  0 < n p -> F.is_finite (spring_Y s) -> ~ In (0, 0) (spring_offsets s) ->
  rigid_sheet p s c w -> outside_ball p s -> on_grid p k ->
  x (substep p s) k = flat_sheet p (fall_x p c w) k /\
  v (substep p s) k = vec_of (fall_v p w).
Proof.
  intros Hn HY Hno Hs Hout Hk.
  pose proof (gravity_stage_rigid p s c w Hs) as Hg.
  pose proof (gravity_stage_tunables p s) as Ht.
  pose proof (tunables_eq _ _ Ht) as (HtY & Htr & Htc & Hto).
  set (s0 := gravity_stage p s) in *.
  assert (same_physics p s0 (spring_stage p s0)) as Hq.
  { unfold spring_stage. apply spring_loop_quiet.
    - intros k' Hk'. destruct (Hg k' Hk') as [_ ->]. apply vec_of_finite.
    - intros k' Hk'.
      eapply (spring_force_rest p s0 k' c);
        [exact Hn | now rewrite HtY | now rewrite Hto | exact Hk' | exact Hg].
    - intros k' Hk'. now apply on_grid_in.
    - apply same_physics_refl. }
  unfold substep. fold s0.
  destruct (collision_stage_cell p (spring_stage p s0) k Hk) as [-> ->].
  destruct Hq as [Hxv Ht2]. destruct (Hxv k Hk) as [Hx Hv].
  destruct (collision_local p s0 (spring_stage p s0) k Hx Hv Ht2) as [<- <-].
  unfold collision_x, collision_v, collide.
  destruct (Hg k Hk) as [Hx0 Hv0]. destruct (Hs k Hk) as [Hxs _].
  rewrite Htr, Htc, Hx0, <- Hxs, (ltb_not_leb _ _ (Hout k Hk)), Hxs, Hv0.
  destruct c as [[c1 c2] c3], w as [[w1 w2] w3].
  unfold fall_x, fall_v, flat_sheet.
  destruct (gravity p) as [[g1 g2] g3].
  unfold drag, vec_of, vmuls, smul, vadd. cbn [vx vy vz F.mul F.add F.exp].
  split; [| reflexivity]. f_equal; f_equal; ring.
Qed.

(** X12: A flat sheet that moves with one velocity and does not touch the ball
    stays one: a [substep] adds [gravity * dt] to the common velocity,
    scales it by the drag factor and moves every point by [dt] times the
    new velocity; no spring exerts a force. *)
Theorem substep_keeps_rigid_sheet (p : Params) (s : State) (c w : R * R * R) :
  0 < n p -> F.is_finite (spring_Y s) -> ~ In (0, 0) (spring_offsets s) ->
  rigid_sheet p s c w -> outside_ball p s ->
  rigid_sheet p (substep p s) (fall_x p c w) (fall_v p w).
Proof.
  intros Hn HY Hno Hs Hout k Hk. now apply rigid_step_cell.
Qed.

(** ** The cloth as [initialize_mass_points] lays it out *)

Lemma generated_rigid (p : Params) (s : State) :
  rigid_sheet p (initialize_mass_points p s)
    (generated_corner (rng s 0) (rng s 1)) (0, 0, 0)%R.
Proof.
  intros k Hk. destruct (initialize_mass_points_cell p s k Hk) as [-> ->].
  split; [| reflexivity].
  unfold sheet_point, flat_sheet, generated_corner, F.of_Z.
  cbn [F.mul F.add F.sub F.neg]. f_equal; f_equal; ring.
Qed.

Lemma generated_outside (p : Params) (s : State) (r : R) :
  ball_center s = vzero -> ball_radius s = Fin r -> (r < 0.6)%R ->
  outside_ball p (initialize_mass_points p s).
Proof.
  intros Hc Hr Hlt k Hk.
  pose proof (initialize_mass_points_tunables p s) as Ht.
  apply tunables_eq in Ht. destruct Ht as (_ & -> & -> & _).
  destruct (generated_rigid p s k Hk) as [-> _]. rewrite Hc, Hr.
  unfold flat_sheet, generated_corner, vsub, vzero.
  cbn [vx vy vz F.sub F.add F.neg]. rewrite norm_fin. apply ltb_fin.
  destruct (Rlt_dec r 0) as [Hneg | Hpos].
  - match goal with
    | |- (r < len ?a ?b ?c)%R => pose proof (len_nonneg a b c)
    end.
    lra.
  - apply Rnot_lt_le in Hpos. apply len_gt; [lra |].
    match goal with
    | |- (_ < ?A * ?A + _ + ?B * ?B)%R =>
        pose proof (Rle_0_sqr A) as HA; pose proof (Rle_0_sqr B) as HB;
        unfold Rsqr in HA, HB; set (a := (A * A)%R) in *; set (b := (B * B)%R) in *
    end.
    assert (r * r < 0.6 * 0.6)%R by nra. lra.
Qed.

(** X13: The cloth is generated unstretched and at rest: the distance between
    any two points is [quad_size] times the distance of their grid cells,
    which is the rest length [substep] uses for a spring between them; two
    different points are never at one place; and every velocity is zero. *)
Theorem generated_cloth_is_unstretched (p : Params) (s : State) (i j : idx) :
  0 < n p -> on_grid p i -> on_grid p j ->
  let s' := initialize_mass_points p s in
  norm (vsub (x s' i) (x s' j))
  = F.mul (Fin (quad_size p)) (norm2 (idx_sub i j)) /\
  (i <> j -> vsub (x s' i) (x s' j) <> vzero) /\
  v s' i = vzero.
Proof.
  intros Hn Hi Hj s'. subst s'.
  destruct (generated_rigid p s i Hi) as [-> ->].
  destruct (generated_rigid p s j Hj) as [-> _].
  split; [now apply flat_sheet_norm |]. split; [| reflexivity].
  intros Hij. now apply flat_sheet_apart.
Qed.

Lemma generated_cloth_is_unstretched_witness :
  let s' := initialize_mass_points params_n2
              (initial_state params_n2 (fun _ => 0.5%R)) in
  norm (vsub (x s' (0, 0)) (x s' (1, 1)))
  = F.mul (Fin (quad_size params_n2)) (norm2 (idx_sub (0, 0) (1, 1))).
Proof.
  intros s'.
  apply (generated_cloth_is_unstretched params_n2
           (initial_state params_n2 (fun _ => 0.5%R)) (0, 0) (1, 1));
    [simpl; lia | unfold on_grid; simpl; lia | unfold on_grid; simpl; lia].
Defined.

Lemma initial_offsets_nonzero (p : Params) (g : nat -> R) :
  ~ In (0, 0) (spring_offsets (initial_state p g)).
Proof. intros H. now apply offset_not_zero in H. Qed.

(** X14: The first [substep] after "Generate", with a finite [spring_Y],
    the ball at the origin and a radius below the height 0.6 of the sheet:
    every velocity and every position is finite (no NaN), and the sheet
    stays flat, every point getting the vertical velocity
    gravity_y * dt * exp(-drag_damping * dt) and the height 0.6 plus [dt]
    times that velocity.  Nothing is claimed of the horizontal components
    beyond being finite. *)
Theorem fresh_cloth_stays_flat_and_finite (p : Params) (s : State) (r : R)
    (k : idx) :
  0 < n p -> F.is_finite (spring_Y s) -> ~ In (0, 0) (spring_offsets s) ->
  ball_center s = vzero -> ball_radius s = Fin r -> (r < 0.6)%R ->
  on_grid p k ->
  let s' := substep p (initialize_mass_points p s) in
  let w := ((0 + snd (fst (gravity p)) * dt p)
            * exp (- drag_damping p * dt p))%R in
  vfinite (v s' k) /\ vfinite (x s' k) /\
  vy (v s' k) = Fin w /\ vy (x s' k) = Fin (0.6 + dt p * w).
Proof.
  intros Hn HY Hno Hc Hr Hlt Hk s' w. subst s' w.
  pose proof (initialize_mass_points_tunables p s) as Ht.
  apply tunables_eq in Ht. destruct Ht as (HtY & _ & _ & Hto).
  destruct (rigid_step_cell p (initialize_mass_points p s)
              (generated_corner (rng s 0) (rng s 1)) (0, 0, 0)%R k) as [Hx Hv];
    auto.
  - now rewrite HtY.
  - now rewrite Hto.
  - apply generated_rigid.
  - now apply (generated_outside p s r).
  - rewrite Hx, Hv. unfold fall_x, fall_v, flat_sheet, generated_corner.
    destruct (gravity p) as [[g1 g2] g3]. cbn [fst snd vec_of vx vy vz].
    split; [apply fin_vfinite |]. split; [apply fin_vfinite |].
    split; reflexivity.
Qed.

Lemma fresh_cloth_stays_flat_and_finite_witness :
  let s' := substep params_n2
              (initialize_mass_points params_n2
                 (initial_state params_n2 (fun _ => 0.5%R))) in
  vfinite (v s' (1, 0)) /\
  vy (v s' (1, 0))
  = Fin ((0 + snd (fst (gravity params_n2)) * dt params_n2)
         * exp (- drag_damping params_n2 * dt params_n2)).
Proof.
  intros s'.
  assert (0 < n params_n2) as Hn by (simpl; lia).
  assert (F.is_finite (spring_Y (initial_state params_n2 (fun _ => 0.5%R)))) as HY
      by (eexists; reflexivity).
  assert (0.3 < 0.6)%R as Hlt by lra.
  assert (on_grid params_n2 (1, 0)) as Hk by (unfold on_grid; simpl; lia).
  destruct (fresh_cloth_stays_flat_and_finite params_n2
              (initial_state params_n2 (fun _ => 0.5%R)) 0.3 (1, 0)
              Hn HY (initial_offsets_nonzero _ _) eq_refl eq_refl Hlt Hk)
    as (Hv & _ & Hy & _).
  split; [exact Hv | exact Hy].
Defined.

Lemma substep_keeps_rigid_sheet_witness :
  rigid_sheet params_n2
    (substep params_n2
       (initialize_mass_points params_n2 (initial_state params_n2 (fun _ => 0.5%R))))
    (fall_x params_n2 (generated_corner 0.5 0.5) (0, 0, 0)%R)
    (fall_v params_n2 (0, 0, 0)%R).
Proof.
  assert (0 < n params_n2) as Hn by (simpl; lia).
  assert (F.is_finite (spring_Y (initialize_mass_points params_n2
                                   (initial_state params_n2 (fun _ => 0.5%R)))))
    as HY.
  { pose proof (initialize_mass_points_tunables params_n2
                  (initial_state params_n2 (fun _ => 0.5%R))) as Ht.
    apply tunables_eq in Ht. destruct Ht as (-> & _). eexists. reflexivity. }
  assert (~ In (0, 0) (spring_offsets (initialize_mass_points params_n2
                         (initial_state params_n2 (fun _ => 0.5%R))))) as Hno.
  { pose proof (initialize_mass_points_tunables params_n2
                  (initial_state params_n2 (fun _ => 0.5%R))) as Ht.
    apply tunables_eq in Ht. destruct Ht as (_ & _ & _ & ->).
    apply initial_offsets_nonzero. }
  assert (0.3 < 0.6)%R as Hlt by lra.
  exact (substep_keeps_rigid_sheet params_n2
           (initialize_mass_points params_n2 (initial_state params_n2 (fun _ => 0.5%R)))
           (generated_corner 0.5 0.5) (0, 0, 0)%R Hn HY Hno
           (generated_rigid params_n2 (initial_state params_n2 (fun _ => 0.5%R)))
           (generated_outside params_n2 (initial_state params_n2 (fun _ => 0.5%R))
              0.3 eq_refl eq_refl Hlt)).
Defined.

(** * The main loop *)

Lemma substeps_loop_rest {A : Type} (p : Params) (l : list A) (s : State) :
  rest (fold_left (fun s _ => substep p s) l s) = rest s.
Proof.
  revert s. induction l as [| a l IH]; intros s; simpl; [reflexivity |].
  now rewrite IH, substep_rest.
Qed.

Lemma rest_settings (s s' : State) :
  rest s = rest s' ->
  settings s = settings s' /\ vertices s = vertices s' /\ rng s = rng s'.
Proof.
  unfold rest, settings. intros H. injection H as -> -> -> -> -> -> -> -> ->.
  auto.
Qed.

Lemma update_vertices_settings (p : Params) (s : State) :
  settings (update_vertices p s) = settings s /\
  rng (update_vertices p s) = rng s.
Proof.
  unfold update_vertices. split.
  - apply (loop_keeps settings). now intros s0 [i j].
  - apply (loop_keeps rng). now intros s0 [i j].
Qed.

Lemma initialize_mass_points_settings (p : Params) (s : State) :
  settings (initialize_mass_points p s) = settings s /\
  vertices (initialize_mass_points p s) = vertices s /\
  rng (initialize_mass_points p s) = fun k => rng s (S (S k)).
Proof.
  unfold initialize_mass_points, random. cbv zeta.
  split; [| split].
  - rewrite (loop_keeps settings); [reflexivity |]. now intros s0 [i j].
  - rewrite (loop_keeps vertices); [reflexivity |]. now intros s0 [i j].
  - rewrite (loop_keeps rng); [reflexivity |]. now intros s0 [i j].
Qed.

(** X15: What one pass of the main loop does to everything but the two fields
    and the vertex buffer: it never touches the index buffer, the colours,
    the ball centre or the spring offsets; the substep count is what the
    slider returned, also when "Reset" was pressed; [spring_Y] and
    [ball_radius] are what their sliders returned unless "Reset" was
    pressed, and then their defaults; and the random generator advances by
    two samples exactly when "Generate" was pressed. *)
Theorem frame_settings (p : Params) (g : Gui) (s : State) :
  indices (frame p g s) = indices s /\
  colors (frame p g s) = colors s /\
  ball_center (frame p g s) = ball_center s /\
  spring_offsets (frame p g s) = spring_offsets s /\
  substeps (frame p g s) = slider_substeps g (substeps s) /\
  spring_Y (frame p g s)
  = (if button_reset g then Fin 1e3 else slider_spring_Y g (spring_Y s)) /\
  ball_radius (frame p g s)
  = (if button_reset g then Fin 0.3 else slider_ball_radius g (ball_radius s)) /\
  rng (frame p g s)
  = (if button_generate g then fun k => rng s (S (S k)) else rng s).
Proof.
  unfold frame. cbv zeta.
  set (s1 := set_ball_radius _ _).
  set (s2 := if button_generate g then initialize_mass_points p s1 else s1).
  set (s3 := if button_reset g then reset p s2 else s2).
  set (s4 := fold_left _ _ s3).
  destruct (update_vertices_settings p s4) as [Hs Hr].
  destruct (rest_settings s4 s3 (substeps_loop_rest p _ s3)) as (Hs4 & _ & Hr4).
  rewrite Hr, Hr4. rewrite Hs4 in Hs. clear Hs4 Hr Hr4.
  assert (settings s2 = settings s1 /\
          rng s2 = if button_generate g then fun k => rng s (S (S k)) else rng s)
    as [Hs2 Hr2].
  { unfold s2. destruct (button_generate g).
    - destruct (initialize_mass_points_settings p s1) as (-> & _ & ->).
      split; reflexivity.
    - split; reflexivity. }
  assert (rng s3 = rng s2) as Hr3 by (unfold s3; now destruct (button_reset g)).
  rewrite Hr3, Hr2.
  unfold settings in Hs, Hs2.
  injection Hs as -> -> -> -> -> -> ->.
  injection Hs2 as E1 E2 E3 E4 E5 E6 E7.
  unfold s3. destruct (button_reset g); cbn [reset indices colors ball_center
    spring_offsets substeps spring_Y ball_radius set_spring_Y set_ball_radius];
    rewrite ?E1, ?E2, ?E3, ?E4, ?E5, ?E6, ?E7; repeat split; reflexivity.
Qed.

Lemma frame_fields (p : Params) (g : Gui) (s : State) :
  exists s4, frame p g s = update_vertices p s4 /\
             vertices s4 = vertices s /\
             indices s4 = indices s /\ colors s4 = colors s.
Proof.
  unfold frame. cbv zeta.
  set (s1 := set_ball_radius _ _).
  set (s2 := if button_generate g then initialize_mass_points p s1 else s1).
  set (s3 := if button_reset g then reset p s2 else s2).
  exists (fold_left (fun s0 _ => substep p s0) (range 0 (substeps s3)) s3).
  split; [reflexivity |].
  destruct (rest_settings _ s3 (substeps_loop_rest p (range 0 (substeps s3)) s3))
    as (Hs & -> & _).
  unfold settings in Hs. injection Hs as -> -> _ _ _ _ _.
  assert (vertices s3 = vertices s2 /\ indices s3 = indices s2 /\
          colors s3 = colors s2) as (-> & -> & ->)
      by (unfold s3; now destruct (button_reset g)).
  unfold s2. destruct (button_generate g); [| repeat split; reflexivity].
  destruct (initialize_mass_points_settings p s1) as (Hs & -> & _).
  unfold settings in Hs. injection Hs as -> -> _ _ _ _ _.
  repeat split; reflexivity.
Qed.

(** X16: At the end of every pass of the main loop the vertex buffer the mesh is
    drawn from holds the current position of every mass point, whatever the
    sliders and buttons did in that pass. *)
Theorem frame_vertices_mirror_positions (p : Params) (g : Gui) (s : State) :
  length (vertices s) = Z.to_nat (n p * n p) ->
  length (vertices (frame p g s)) = length (vertices s) /\
  forall i j : Z, 0 <= i < n p -> 0 <= j < n p ->
    nth_error (vertices (frame p g s)) (Z.to_nat (i * n p + j))
    = Some (x (frame p g s) (i, j)).
Proof.
  intros Hlen. destruct (frame_fields p g s) as (s4 & -> & Hv & _).
  rewrite <- Hv in Hlen. rewrite update_vertices_buf.
  split; [now rewrite fill_length, Hv |].
  intros i j Hi Hj.
  destruct (update_vertices_fields p s4) as [-> _].
  now apply (fill_grid_lookup p (x s4)).
Qed.

Lemma frame_vertices_mirror_positions_witness :
  nth_error (vertices (frame params_n2 gui_reset
                         (initial_state params_n2 (fun _ => 0%R))))
            (Z.to_nat (1 * n params_n2 + 0))
  = Some (x (frame params_n2 gui_reset (initial_state params_n2 (fun _ => 0%R)))
            (1, 0)).
Proof.
  apply (frame_vertices_mirror_positions params_n2 gui_reset
           (initial_state params_n2 (fun _ => 0%R)));
    [reflexivity | simpl; lia | simpl; lia].
Defined.

Lemma substep_nan_cell (p : Params) (s : State) (k : idx) :
  on_grid p k -> v s k = nan3 ->
  v (substep p s) k = nan3 /\ x (substep p s) k = nan3.
Proof.
  intros Hk Hv. unfold substep. apply collision_stage_nan; [exact Hk |].
  unfold spring_stage. apply spring_loop_nan. now apply gravity_stage_nan.
Qed.

Lemma substeps_loop_nan {A : Type} (p : Params) (l : list A) (s : State)
    (k : idx) :
  on_grid p k -> v s k = nan3 ->
  v (fold_left (fun s _ => substep p s) l s) k = nan3 /\
  (l <> [] -> x (fold_left (fun s _ => substep p s) l s) k = nan3).
Proof.
  intros Hk. revert s. induction l as [| a l IH]; intros s Hv; simpl.
  - split; [exact Hv | congruence].
  - destruct (substep_nan_cell p s k Hk Hv) as [Hv' Hx'].
    destruct (IH (substep p s) Hv') as [Hv2 Hx2].
    split; [exact Hv2 |]. intros _.
    destruct l as [| b l]; [exact Hx' |]. apply Hx2. discriminate.
Qed.

(** X17: The program does not recover from NaN by itself: a point whose velocity
    is NaN still has a NaN velocity after any pass of the main loop in which
    "Generate" was not pressed, and, when that pass ran at least one
    substep, a NaN position too, which is what the vertex buffer then
    holds for it. *)
Theorem frame_keeps_nan (p : Params) (g : Gui) (s : State) (k : idx) :
  on_grid p k -> v s k = nan3 -> button_generate g = false ->
  v (frame p g s) k = nan3 /\
  (1 <= slider_substeps g (substeps s) -> x (frame p g s) k = nan3).
Proof.
  intros Hk Hv Hg. unfold frame. cbv zeta. rewrite Hg.
  set (s1 := set_ball_radius _ _).
  set (s3 := if button_reset g then reset p s1 else s1).
  assert (v s3 k = nan3) as Hv3 by (unfold s3; now destruct (button_reset g)).
  assert (substeps s3 = slider_substeps g (substeps s)) as Hn
      by (unfold s3; now destruct (button_reset g)).
  destruct (update_vertices_fields p
              (fold_left (fun s0 _ => substep p s0) (range 0 (substeps s3)) s3))
    as [-> ->].
  destruct (substeps_loop_nan p (range 0 (substeps s3)) s3 k Hk Hv3) as [H1 H2].
  split; [exact H1 |]. intros Hm. apply H2. rewrite Hn.
  intros E. assert (In 0 (range 0 (slider_substeps g (substeps s)))) as Hin
      by (apply in_range; lia).
  rewrite E in Hin. destruct Hin.
Qed.

Lemma frame_keeps_nan_witness :
  v (frame params_n2 gui_reset state_nan) (0, 0) = nan3 /\
  x (frame params_n2 gui_reset state_nan) (0, 0) = nan3.
Proof.
  assert (on_grid params_n2 (0, 0)) as Hk by (unfold on_grid; simpl; lia).
  destruct (frame_keeps_nan params_n2 gui_reset state_nan (0, 0) Hk eq_refl eq_refl)
    as [Hv Hx].
  split; [exact Hv |]. apply Hx. simpl. lia.
Defined.

(** * The program from its start *)

Lemma mesh_indices_in_range (p : Params) (s : State) :
  2 <= n p -> length (indices s) = Z.to_nat (num_triangles p * 3) ->
  Forall (fun a => 0 <= a < n p * n p) (indices (initialize_mesh_indices p s)).
Proof.
  intros Hn Hshape. apply Forall_forall. intros a Ha.
  destruct (In_nth _ _ 0 Ha) as (pos & Hpos & <-).
  rewrite mesh_length, Hshape in Hpos. unfold num_triangles in Hpos.
  set (m := n p - 1) in *.
  set (q := Z.of_nat pos / 6).
  assert (0 <= q < m * m) as Hq.
  { unfold q. split; [apply Z.div_pos; lia |].
    apply Z.div_lt_upper_bound; lia. }
  assert (0 <= q mod m < m) as Hj by (apply Z.mod_pos_bound; lia).
  assert (0 <= q / m < m) as Hi.
  { split; [apply Z.div_pos; lia |]. apply Z.div_lt_upper_bound; lia. }
  assert (0 <= Z.of_nat pos mod 6 < 6) as Hk by (apply Z.mod_pos_bound; lia).
  pose proof (mesh_load p s (q / m) (q mod m) (Z.of_nat pos mod 6) Hshape Hi Hj Hk)
    as Hload.
  fold m in Hload.
  replace ((q / m * m + q mod m) * 6 + Z.of_nat pos mod 6)
    with (Z.of_nat pos) in Hload.
  - unfold load in Hload. rewrite Nat2Z.id in Hload. rewrite Hload.
    now apply quad_entry_range.
  - rewrite (Z.mul_comm (q / m) m), <- Z.div_mod by lia.
    unfold q. rewrite (Z.mul_comm _ 6), <- Z.div_mod; lia.
Qed.

Lemma initialize_mesh_indices_vertices (p : Params) (s : State) :
  vertices (initialize_mesh_indices p s) = vertices s.
Proof.
  unfold initialize_mesh_indices.
  rewrite (loop_keeps vertices).
  - apply (loop_keeps vertices). now intros s0 [i j].
  - intros s0 [i j]. unfold write_color.
    now destruct ((i / 4 + j / 4) mod 2 =? 0).
Qed.

Lemma frame_keeps_mesh (p : Params) (g : Gui) (s : State) :
  indices (frame p g s) = indices s /\
  colors (frame p g s) = colors s /\
  length (vertices (frame p g s)) = length (vertices s).
Proof.
  destruct (frame_fields p g s) as (s4 & E & Hv & Hi & Hc).
  destruct (update_vertices_settings p s4) as [Hs _].
  unfold settings in Hs. injection Hs as Ei Ec _ _ _ _ _.
  rewrite E, Ei, Ec, update_vertices_buf, fill_length, Hv, Hi, Hc.
  repeat split; reflexivity.
Qed.

Lemma run_keeps_mesh (p : Params) (gs : list Gui) (s : State) :
  indices (run p gs s) = indices s /\
  colors (run p gs s) = colors s /\
  length (vertices (run p gs s)) = length (vertices s).
Proof.
  unfold run. revert s. induction gs as [| g gs IH]; intros s; simpl; [auto |].
  destruct (IH (frame p g s)) as (-> & -> & ->). apply frame_keeps_mesh.
Qed.

(** X18: The mesh handed to the renderer is well formed in every pass of the
    main loop: from the start of the program on, whatever the window does,
    the index buffer holds the 6*(n-1)^2 indices written at the start, every
    one of them a position inside the vertex buffer, and the vertex and
    colour buffers keep their n*n entries. *)
Theorem run_mesh_is_well_formed (p : Params) (rnd : nat -> R) (gs : list Gui) :
  2 <= n p ->
  let s := run p gs (startup p rnd) in
  indices s = indices (startup p rnd) /\
  Z.of_nat (length (indices s)) = 6 * (n p - 1) ^ 2 /\
  Z.of_nat (length (vertices s)) = n p * n p /\
  Z.of_nat (length (colors s)) = n p * n p /\
  Forall (fun a => 0 <= a < Z.of_nat (length (vertices s))) (indices s).
Proof.
  intros Hn s. subst s.
  destruct (run_keeps_mesh p gs (startup p rnd)) as (-> & -> & ->).
  unfold startup.
  assert (length (indices (initial_state p rnd)) = Z.to_nat (num_triangles p * 3))
    as Hshape by apply repeat_length.
  rewrite mesh_length, initialize_mesh_indices_vertices,
    initialize_mesh_indices_colors, fill_length.
  cbn [indices vertices colors initial_state]. rewrite !repeat_length.
  split; [reflexivity |]. unfold num_triangles.
  split; [nia |]. split; [nia |]. split; [nia |].
  replace (Z.of_nat (Z.to_nat (n p * n p))) with (n p * n p) by nia.
  now apply mesh_indices_in_range.
Qed.

Lemma run_mesh_is_well_formed_witness :
  Forall (fun a => 0 <= a < Z.of_nat (length (vertices
            (run params_n2 [gui_reset; gui_reset] (startup params_n2 (fun _ => 0%R))))))
         (indices (run params_n2 [gui_reset; gui_reset]
                     (startup params_n2 (fun _ => 0%R)))).
Proof.
  apply (run_mesh_is_well_formed params_n2 (fun _ => 0%R) [gui_reset; gui_reset]).
  simpl. lia.
Defined.

(** * The loops under any schedule *)

Lemma schedule_nodup (p : Params) (l : list idx) : schedule p l -> NoDup l.
Proof. intros H. apply (Permutation_NoDup H), NoDup_ndrange. Qed.

Lemma schedule_in (p : Params) (l : list idx) (k : idx) :
  schedule p l -> (In k l <-> on_grid p k).
Proof.
  intros H. rewrite on_grid_in. split.
  - apply Permutation_in. now apply Permutation_sym.
  - now apply Permutation_in.
Qed.

Lemma schedule_row_major (p : Params) : schedule p (ndrange (n p) (n p)).
Proof. apply Permutation_refl. Qed.

Lemma gravity_loop_cell (p : Params) (l : list idx) (s : State) (k : idx) :
  schedule p l -> on_grid p k ->
  x (fold_left (gravity_body p) l s) k = x s k /\
  v (fold_left (gravity_body p) l s) k = gravity_v p s k.
Proof.
  intros Hl Hk.
  apply (loop_visited (gravity_body p) (fun s i => x s i) (gravity_v p)).
  - intros s0 i k0. simpl. unfold upd.
    destruct (idx_eqb k0 i) eqn:E; [| reflexivity].
    apply idx_eqb_eq in E. now subst.
  - reflexivity.
  - reflexivity.
  - intros s0 s' i Hx Hv _. unfold gravity_v. now rewrite Hx, Hv.
  - now apply (schedule_nodup p).
  - now apply (schedule_in p l k Hl).
Qed.

Lemma collision_loop_cell (p : Params) (l : list idx) (s : State) (k : idx) :
  schedule p l -> on_grid p k ->
  x (fold_left (collision_body p) l s) k = collision_x p s k /\
  v (fold_left (collision_body p) l s) k = collision_v p s k.
Proof.
  intros Hl Hk.
  apply (loop_visited (collision_body p) (collision_x p) (collision_v p)).
  - apply collision_body_x.
  - apply collision_body_v.
  - reflexivity.
  - apply collision_local.
  - now apply (schedule_nodup p).
  - now apply (schedule_in p l k Hl).
Qed.

Lemma gravity_loop_congr (p : Params) (l l' : list idx) (s s' : State) :
  schedule p l -> schedule p l' -> same_physics p s s' ->
  same_physics p (fold_left (gravity_body p) l s)
                 (fold_left (gravity_body p) l' s').
Proof.
  intros Hl Hl' [Hxv Ht]. split.
  - intros k Hk. destruct (Hxv k Hk) as [Hx Hv].
    destruct (gravity_loop_cell p l s k Hl Hk) as [-> ->].
    destruct (gravity_loop_cell p l' s' k Hl' Hk) as [-> ->].
    unfold gravity_v. now rewrite Hx, Hv.
  - rewrite !(loop_tunables (gravity_body p)); auto.
Qed.

Lemma collision_loop_congr (p : Params) (l l' : list idx) (s s' : State) :
  schedule p l -> schedule p l' -> same_physics p s s' ->
  same_physics p (fold_left (collision_body p) l s)
                 (fold_left (collision_body p) l' s').
Proof.
  intros Hl Hl' [Hxv Ht]. split.
  - intros k Hk. destruct (Hxv k Hk) as [Hx Hv].
    destruct (collision_loop_cell p l s k Hl Hk) as [-> ->].
    destruct (collision_loop_cell p l' s' k Hl' Hk) as [-> ->].
    apply collision_local; assumption.
  - rewrite !(loop_tunables (collision_body p)); auto.
Qed.

(** C8, as the code has it: [substep] draws nothing from the random
    generator, and the gravity loop and the collision loop give the same
    result in whatever order their iterations run.  The spring loop updates
    [v] in place while other iterations read it: two runs that start from
    the same positions, velocities and tunables end with the same positions
    and velocities when the iterations of their spring loops run in the
    same order. *)
Theorem substep_deterministic (p : Params) (lg lg' ls lc lc' : list idx)
    (s s' : State) :
  schedule p lg -> schedule p lg' -> schedule p ls ->
  schedule p lc -> schedule p lc' ->
  same_physics p s s' ->
  (forall k, on_grid p k ->
     x (substep_in p lg ls lc s) k = x (substep_in p lg' ls lc' s') k /\
     v (substep_in p lg ls lc s) k = v (substep_in p lg' ls lc' s') k) /\
  rng (substep_in p lg ls lc s) = rng s /\
  substep p s = substep_in p (ndrange (n p) (n p)) (ndrange (n p) (n p))
                  (ndrange (n p) (n p)) s.
Proof.
  intros Hg Hg' Hs Hc Hc' Hss. split; [| split].
  - unfold substep_in.
    apply collision_loop_congr; try assumption.
    apply spring_loop_congr.
    + intros k Hk. now apply (schedule_in p ls k Hs).
    + now apply gravity_loop_congr.
  - unfold substep_in.
    assert (rest (fold_left (collision_body p) lc
                    (fold_left (spring_body p) ls
                       (fold_left (gravity_body p) lg s))) = rest s) as H
        by (rewrite !loop_rest; reflexivity).
    unfold rest in H. now injection H.
  - reflexivity.
Qed.

Lemma substep_deterministic_witness :
  let s := state_in_line in
  let s' := set_substeps (set_rng state_in_line (fun _ => 1%R)) 10 in
  v (substep_in params_still (ndrange 2 2) last_cell_first (ndrange 2 2) s) (0, 0)
  = v (substep_in params_still last_cell_first last_cell_first last_cell_first s')
      (0, 0).
Proof.
  intros s s'.
  assert (schedule params_still (ndrange 2 2)) as Hrow by apply Permutation_refl.
  assert (schedule params_still last_cell_first) as Hlast.
  { unfold schedule, last_cell_first. simpl.
    change [(0, 0); (0, 1); (1, 0); (1, 1)]
      with ([(0, 0); (0, 1); (1, 0)] ++ [(1, 1)]).
    apply Permutation_sym, Permutation_cons_append. }
  assert (same_physics params_still s s') as Hss
      by (split; [intros k _; split; reflexivity | reflexivity]).
  assert (on_grid params_still (0, 0)) as Hk by (unfold on_grid; simpl; lia).
  exact (proj2 (proj1 (substep_deterministic params_still (ndrange 2 2)
                         last_cell_first last_cell_first (ndrange 2 2)
                         last_cell_first s s' Hrow Hlast Hlast Hrow Hlast Hss)
                  (0, 0) Hk)).
Defined.

(** * Points on a line *)

Lemma line_x_form (k : idx) :
  exists a : R, line_x k = V3 (Fin a) (Fin 0) (Fin 0).
Proof.
  unfold line_x.
  repeat match goal with |- context [if ?c then _ else _] => destruct c end;
    eexists; reflexivity.
Qed.

Lemma line_x_apart (i j : idx) :
  on_grid params_still i -> on_grid params_still j -> i <> j ->
  re (vx (line_x i)) <> re (vx (line_x j)).
Proof.
  intros Hi Hj Hij. apply grid2_cases in Hi. apply grid2_cases in Hj.
  destruct Hi as [-> | [-> | [-> | ->]]];
    destruct Hj as [-> | [-> | [-> | ->]]];
    try (exfalso; apply Hij; reflexivity); simpl; lra.
Qed.

(** The term of one neighbour for two points on a line along the x axis
    when [spring_Y] is zero: only the dashpot acts, along the axis, on the
    difference of the velocities along it. *)
Lemma line_term (p : Params) (s : State) (i o : idx)
    (a b u u2 u3 w w2 w3 f1 f2 f3 : R) :
  0 < n p -> spring_Y s = Fin 0 -> o <> (0, 0) ->
  in_bounds p (idx_add i o) = true ->
  x s i = V3 (Fin a) (Fin 0) (Fin 0) ->
  x s (idx_add i o) = V3 (Fin b) (Fin 0) (Fin 0) -> a <> b ->
  v s i = V3 (Fin u) (Fin u2) (Fin u3) ->
  v s (idx_add i o) = V3 (Fin w) (Fin w2) (Fin w3) ->
  spring_term p s i (V3 (Fin f1) (Fin f2) (Fin f3)) o
  = V3 (Fin (f1 - (u - w) * dashpot_damping p * quad_size p)) (Fin f2) (Fin f3).
Proof.
  intros Hn HY Ho Hb Hxi Hxj Hab Hvi Hvj.
  unfold spring_term. rewrite Hb, HY, Hxi, Hxj, Hvi, Hvj.
  unfold vsub. cbn [vx vy vz F.sub F.add F.neg].
  set (d1 := (a + - b)%R). set (z := (0 + - 0)%R).
  assert (z = 0%R) as Hz by (unfold z; ring).
  assert (V3 (Fin d1) (Fin z) (Fin z) <> vzero) as Hnz.
  { intros H. injection H as H1 _ _. unfold d1 in H1. apply Hab. lra. }
  pose proof (len_pos _ _ _ Hnz) as HL.
  pose proof (len_sqr d1 z z) as HL2.
  assert (0 < len2 (idx_sub i (idx_add i o)))%R as H2.
  { apply len2_pos. destruct i as [i0 i1], o as [o0 o1].
    unfold idx_sub, idx_add. cbn [fst snd]. intros E. injection E as E0 E1.
    apply Ho. f_equal; lia. }
  assert (0 < quad_size p)%R as Hq.
  { unfold quad_size. apply Rdiv_lt_0_compat; [lra |]. now apply IZR_lt. }
  rewrite (normalized_fin _ _ _ Hnz), norm_fin, norm2_fin.
  set (L := len d1 z z) in *.
  set (L2 := len2 (idx_sub i (idx_add i o))) in *.
  cbn [F.mul]. rewrite div_fin by nra.
  set (iota := (1 / (L + 0))%R).
  assert (iota * L = 1)%R as HiL by (unfold iota; field; lra).
  assert (iota * iota * (d1 * d1) = 1)%R as Hid.
  { replace (d1 * d1)%R with (L * L)%R by (rewrite HL2, Hz; ring).
    replace (iota * iota * (L * L))%R with ((iota * L) * (iota * L))%R by ring.
    rewrite HiL. ring. }
  unfold smul, vmuls, vadd, dot.
  cbn [vx vy vz F.mul F.add F.sub F.neg]. rewrite Hz.
  f_equal; f_equal; try ring.
  replace (f1 + - 0 * (iota * d1) * (L / (quad_size p * L2) + - (1))
           + - ((u + - w) * (iota * d1) + (u2 + - w2) * (iota * 0)
                + (u3 + - w3) * (iota * 0)) * (iota * d1)
             * dashpot_damping p * quad_size p)%R
    with (f1 - (u - w) * (iota * iota * (d1 * d1))
               * dashpot_damping p * quad_size p)%R by ring.
  rewrite Hid. ring.
Qed.

(** * The spring loop on points in a line *)

Lemma fin_re (a : vec3) :
  vfinite a -> a = V3 (Fin (re (vx a))) (Fin (re (vy a))) (Fin (re (vz a))).
Proof.
  intros H. apply vfinite_fin in H. destruct H as (a1 & a2 & a3 & ->).
  reflexivity.
Qed.

Lemma line_fold (t : State) (i : idx) (l : list idx) (f1 f2 f3 : R) :
  spring_Y t = Fin 0 -> (forall k, on_grid params_still k -> x t k = line_x k) ->
  (forall k, on_grid params_still k -> vfinite (v t k)) ->
  on_grid params_still i -> ~ In (0, 0) l ->
  fold_left (spring_term params_still t i) l (V3 (Fin f1) (Fin f2) (Fin f3))
  = V3 (Fin (line_sum params_still (fun k => re (vx (v t k))) i l f1))
       (Fin f2) (Fin f3).
Proof.
  intros HY Hx Hv Hi. revert f1.
  induction l as [| o l IH]; intros f1 Hno; [reflexivity |].
  assert (o <> (0, 0)) as Ho by (intros ->; apply Hno; now left).
  assert (~ In (0, 0) l) as Hno' by (intros H; apply Hno; now right).
  cbn [fold_left line_sum].
  destruct (in_bounds params_still (idx_add i o)) eqn:Hb.
  - pose proof (proj1 (in_bounds_on_grid _ _) Hb) as Hj.
    destruct (line_x_form i) as (a & Ha). destruct (line_x_form (idx_add i o)) as (b & Hb').
    assert (i <> idx_add i o) as Hij.
    { destruct i as [i0 i1], o as [o0 o1]. unfold idx_add. cbn [fst snd].
      intros E. injection E as E0 E1. apply Ho. f_equal; lia. }
    pose proof (line_x_apart i (idx_add i o) Hi Hj Hij) as Hab.
    rewrite Ha, Hb' in Hab. cbn [vx re] in Hab.
    rewrite (line_term params_still t i o a b
               (re (vx (v t i))) (re (vy (v t i))) (re (vz (v t i)))
               (re (vx (v t (idx_add i o)))) (re (vy (v t (idx_add i o))))
               (re (vz (v t (idx_add i o)))) f1 f2 f3);
      try assumption.
    + now apply IH.
    + simpl. lia.
    + now rewrite Hx, Ha.
    + now rewrite Hx, Hb'.
    + apply fin_re, Hv, Hi.
    + apply fin_re, Hv, Hj.
  - rewrite spring_term_out by assumption. now apply IH.
Qed.

Lemma line_force (t : State) (i : idx) :
  spring_Y t = Fin 0 -> spring_offsets t = build_spring_offsets false ->
  (forall k, on_grid params_still k -> x t k = line_x k) ->
  (forall k, on_grid params_still k -> vfinite (v t k)) ->
  on_grid params_still i ->
  spring_force params_still t i
  = V3 (Fin (line_sum params_still (fun k => re (vx (v t k))) i
               (build_spring_offsets false) 0))
       (Fin 0) (Fin 0).
Proof.
  intros HY Ho Hx Hv Hi. unfold spring_force. rewrite Ho.
  apply (line_fold t i _ 0 0 0); auto.
  intros H. now apply offset_not_zero in H.
Qed.

Lemma spring_v_congr (p : Params) (s s' : State) (i : idx) :
  same_physics p s s' -> on_grid p i -> spring_v p s i = spring_v p s' i.
Proof.
  intros Hs Hi. unfold spring_v.
  rewrite (spring_force_congr p s s' i Hs Hi).
  destruct Hs as [Hxv _]. now destruct (Hxv i Hi) as [_ ->].
Qed.

Lemma collide_outside (c : vec3) (r : float) (xi vi : vec3) :
  F.ltb r (norm (vsub xi c)) = true -> collide c r xi vi = vi.
Proof. intros H. unfold collide. now rewrite (ltb_not_leb _ _ H). Qed.

Lemma line_quiet : same_physics params_still state_in_line line_at_first.
Proof.
  apply gravity_stage_quiet; [reflexivity |].
  intros k _. apply cell_v_finite.
Qed.

Lemma on_grid2 (i j : Z) :
  0 <= i < 2 -> 0 <= j < 2 -> on_grid params_still (i, j).
Proof. intros Hi Hj. unfold on_grid. simpl. lia. Qed.

Ltac line_eval :=
  rewrite ?spring_offsets_default; unfold line_sum; cbn [fold_left];
  repeat match goal with
  | |- context [in_bounds ?p (idx_add ?i ?o)] =>
      let b := eval vm_compute in (in_bounds p (idx_add i o)) in
      change (in_bounds p (idx_add i o)) with b
  end;
  cbv iota;
  repeat match goal with
  | |- context [idx_add (?a, ?b) (?c, ?d)] =>
      let j := eval vm_compute in (idx_add (a, b) (c, d)) in
      change (idx_add (a, b) (c, d)) with j
  end.

(** The two velocities point (0,0) is given by the spring loop: visited
    first, and visited after point (1,1). *)
Lemma line_first_visit :
  spring_v params_still state_in_line (0, 0)
  = V3 (Fin (1 + (0 - (1 - 0) * dashpot_damping params_still
                      * quad_size params_still)
                 * dt params_still))
       (Fin (0 + 0 * dt params_still)) (Fin (0 + 0 * dt params_still)).
Proof.
  unfold spring_v.
  rewrite (line_force state_in_line (0, 0)); try reflexivity.
  - line_eval.
    cbn [v state_in_line set_spring_Y set_v cell_v idx_eqb fst snd Z.eqb
         Pos.eqb andb vx vy vz re vzero].
    unfold vadd, vmuls. cbn [vx vy vz F.add F.mul].
    f_equal; f_equal; ring.
  - intros k _. apply cell_v_finite.
  - apply on_grid2; lia.
Qed.

Lemma line_last_force :
  spring_force params_still state_in_line (1, 1)
  = V3 (Fin (3 * (dashpot_damping params_still * quad_size params_still)))
       (Fin 0) (Fin 0).
Proof.
  rewrite (line_force state_in_line (1, 1)); try reflexivity.
  - line_eval.
    cbn [v state_in_line set_spring_Y set_v cell_v idx_eqb fst snd Z.eqb
         Pos.eqb andb vx vy vz re vzero].
    f_equal; f_equal; ring.
  - intros k _. apply cell_v_finite.
  - apply on_grid2; lia.
Qed.

Lemma line_second_visit :
  spring_v params_still (spring_body params_still state_in_line (1, 1)) (0, 0)
  = V3 (Fin (1 + (0 - (1 - 3 * (dashpot_damping params_still
                                * quad_size params_still) * dt params_still)
                      * dashpot_damping params_still * quad_size params_still)
                 * dt params_still))
       (Fin (0 + 0 * dt params_still)) (Fin (0 + 0 * dt params_still)).
Proof.
  unfold spring_v.
  rewrite (line_force _ (0, 0)); try reflexivity.
  - line_eval. unfold spring_body.
    cbn [v state_in_line set_spring_Y set_v upd cell_v idx_eqb fst snd Z.eqb
         Pos.eqb andb].
    rewrite line_last_force.
    unfold vadd, vmuls. cbn [vx vy vz F.add F.mul re vzero].
    f_equal; f_equal; ring.
  - intros k _. unfold spring_body. cbn [v set_v]. unfold upd.
    destruct (idx_eqb k (1, 1)); [| apply cell_v_finite].
    rewrite line_last_force. apply fin_vfinite.
  - apply on_grid2; lia.
Qed.

(** * The spring loop depends on its schedule *)

Lemma last_cell_first_schedule : schedule params_still last_cell_first.
Proof.
  unfold schedule, last_cell_first.
  change (ndrange (n params_still) (n params_still))
    with ([(0, 0); (0, 1); (1, 0)] ++ [(1, 1)]).
  apply Permutation_sym, Permutation_cons_append.
Qed.

Lemma spring_body_at (p : Params) (s : State) (a : idx) :
  v (spring_body p s a) a = spring_v p s a.
Proof. unfold spring_body, spring_v. cbn [v set_v]. apply upd_same. Qed.

Lemma substep_row_major (p : Params) (s : State) :
  substep p s
  = substep_in p (ndrange (n p) (n p)) (ndrange (n p) (n p))
      (ndrange (n p) (n p)) s.
Proof. reflexivity. Qed.

Lemma line_final (ls : list idx) :
  v (substep_in params_still (ndrange (n params_still) (n params_still)) ls (ndrange (n params_still) (n params_still)) state_in_line) (0, 0)
  = drag params_still
      (v (fold_left (spring_body params_still) ls line_at_first) (0, 0)).
Proof.
  assert (on_grid params_still (0, 0)) as Hk by (apply on_grid2; lia).
  unfold substep_in.
  destruct (collision_loop_cell params_still (ndrange (n params_still) (n params_still))
              (fold_left (spring_body params_still) ls
                 (fold_left (gravity_body params_still) (ndrange (n params_still) (n params_still)) state_in_line))
              (0, 0) (schedule_row_major params_still) Hk) as [_ ->].
  change (fold_left (gravity_body params_still) (ndrange (n params_still) (n params_still)) state_in_line)
    with line_at_first.
  unfold collision_v.
  destruct (spring_loop_x params_still ls line_at_first) as [Hx Ht].
  unfold line_at_first in Ht at 2. rewrite gravity_stage_tunables in Ht.
  apply tunables_eq in Ht. destruct Ht as (_ & -> & -> & _). rewrite Hx.
  unfold line_at_first at 1.
  destruct (gravity_stage_cell params_still state_in_line (0, 0) Hk) as [-> _].
  apply collide_outside.
  change (x state_in_line (0, 0)) with (V3 (Fin 1) (Fin 0) (Fin 0)).
  change (ball_center state_in_line) with vzero.
  change (ball_radius state_in_line) with (Fin 0.3).
  unfold vsub, vzero. cbn [vx vy vz F.sub F.add F.neg].
  rewrite norm_fin. apply ltb_fin, len_gt; lra.
Qed.

Lemma line_row_major_visit :
  v (fold_left (spring_body params_still) (ndrange (n params_still) (n params_still)) line_at_first) (0, 0)
  = spring_v params_still state_in_line (0, 0).
Proof.
  change (ndrange (n params_still) (n params_still)) with ([(0, 0)] ++ [(0, 1); (1, 0); (1, 1)]).
  rewrite fold_left_app, spring_loop_unvisited.
  - change (fold_left (spring_body params_still) [(0, 0)] line_at_first)
      with (spring_body params_still line_at_first (0, 0)).
    rewrite spring_body_at.
    symmetry. apply (spring_v_congr params_still _ _ (0, 0) line_quiet).
    apply on_grid2; lia.
  - simpl. intuition discriminate.
Qed.

Lemma line_other_visit :
  v (fold_left (spring_body params_still) last_cell_first line_at_first) (0, 0)
  = spring_v params_still (spring_body params_still state_in_line (1, 1)) (0, 0).
Proof.
  unfold last_cell_first.
  change [(1, 1); (0, 0); (0, 1); (1, 0)]
    with ([(1, 1); (0, 0)] ++ [(0, 1); (1, 0)]).
  rewrite fold_left_app, spring_loop_unvisited.
  - change (fold_left (spring_body params_still) [(1, 1); (0, 0)] line_at_first)
      with (spring_body params_still
              (spring_body params_still line_at_first (1, 1)) (0, 0)).
    rewrite spring_body_at.
    symmetry. apply spring_v_congr; [| apply on_grid2; lia].
    apply spring_body_congr; [apply line_quiet | apply on_grid2; lia].
  - simpl. intuition discriminate.
Qed.

(** C8 as stated fails: the same state, stepped with the spring loop in
    row-major order and with the iteration of the last cell first, ends
    with different velocities.  The dashpot term of point (0,0) reads the
    velocity of point (1,1), which the spring loop has or has not yet
    updated in place. *)
Lemma substep_depends_on_schedule :
  schedule params_still last_cell_first /\
  substep params_still state_in_line
  = substep_in params_still (ndrange (n params_still) (n params_still)) (ndrange (n params_still) (n params_still)) (ndrange (n params_still) (n params_still))
      state_in_line /\
  v (substep_in params_still (ndrange (n params_still) (n params_still)) last_cell_first (ndrange (n params_still) (n params_still))
       state_in_line) (0, 0)
  <> v (substep params_still state_in_line) (0, 0).
Proof.
  split; [apply last_cell_first_schedule |].
  split; [apply substep_row_major |].
  rewrite (substep_row_major params_still state_in_line).
  rewrite !line_final, line_row_major_visit, line_other_visit.
  rewrite line_first_visit, line_second_visit.
  unfold drag, vmuls. cbn [vx vy vz F.mul F.exp].
  intros H. injection H as H.
  pose proof (exp_pos (- drag_damping params_still * dt params_still)) as He.
  apply Rmult_eq_reg_r in H; [| apply Rgt_not_eq, Rlt_gt, He].
  unfold quad_size, dt in H. cbn [n dashpot_damping params_still] in H. lra.
Qed.

(** * The two visits of a spring *)

Lemma elastic_opposite (p : Params) (s : State) (i j : idx) :
  0 < n p -> i <> j -> vfinite (x s i) -> vfinite (x s j) ->
  F.is_finite (spring_Y s) ->
  elastic_term p s j i = vneg (elastic_term p s i j).
Proof.
  intros Hn Hij Hxi Hxj HY.
  change (elastic_term p s j i)
    with (elastic_term p (set_v s (fun _ => vzero)) j i).
  change (elastic_term p s i j)
    with (elastic_term p (set_v s (fun _ => vzero)) i j).
  apply pair_terms_opposite; auto; apply fin_vfinite.
Qed.

Lemma elastic_term_later (p : Params) (l : list idx) (s : State) (i j : idx) :
  elastic_term p (fold_left (spring_body p) l s) i j = elastic_term p s i j.
Proof.
  destruct (spring_loop_x p l s) as [Hx Ht]. apply tunables_eq in Ht.
  destruct Ht as (HY & _). unfold elastic_term. now rewrite Hx, HY.
Qed.

Lemma offset_moves (i o : idx) : o <> (0, 0) -> idx_add i o <> i.
Proof.
  destruct i as [i0 i1], o as [o0 o1]. unfold idx_add. cbn [fst snd].
  intros Ho H. injection H as H0 H1. apply Ho. f_equal; lia.
Qed.

Lemma dashpot_opposite_iff (p : Params) (s s' : State) (i j : idx) :
  0 < n p -> x s' i = x s i -> x s' j = x s j ->
  vfinite (x s i) -> vfinite (x s j) ->
  vfinite (v s i) -> vfinite (v s j) -> vfinite (v s' i) -> vfinite (v s' j) ->
  (dashpot_term p s' j i = vneg (dashpot_term p s i j) <->
   (dashpot_damping p = 0%R \/ along_spring s' s i j = along_spring s s i j)).
Proof.
  intros Hn Exi Exj Hxi Hxj Hvi Hvj Hvi' Hvj'.
  unfold dashpot_term, along_spring. rewrite Exi, Exj.
  destruct (vsub_swap _ _ Hxi Hxj) as (d1 & d2 & d3 & -> & ->).
  destruct (vsub_swap _ _ Hvi Hvj) as (w1 & w2 & w3 & -> & _).
  destruct (vsub_swap _ _ Hvi' Hvj') as (u1 & u2 & u3 & -> & ->).
  assert (0 < quad_size p)%R as Hq.
  { unfold quad_size. apply Rdiv_lt_0_compat; [lra |]. now apply IZR_lt. }
  destruct (vzero_dec d1 d2 d3) as [Hz | Hnz].
  - injection Hz as -> -> ->. rewrite neg_vzero_fin. fold vzero.
    rewrite normalized_zero, !smul_nan, !vmuls_nan. split.
    + intros _. right. unfold dot, vzero. cbn [vx vy vz F.mul F.add].
      f_equal. ring.
    + reflexivity.
  - assert (V3 (Fin (- d1)) (Fin (- d2)) (Fin (- d3)) <> vzero) as Hnz'.
    { intros H. apply Hnz. injection H as H1 H2 H3. unfold vzero.
      repeat f_equal; lra. }
    rewrite (normalized_fin _ _ _ Hnz), (normalized_fin _ _ _ Hnz'), len_neg.
    pose proof (len_pos _ _ _ Hnz) as HL.
    pose proof (len_sqr d1 d2 d3) as HL2.
    set (L := len d1 d2 d3) in *.
    set (iota := (1 / (L + 0))%R).
    assert (iota * L = 1)%R as HiL by (unfold iota; field; lra).
    assert (iota * iota * (d1 * d1 + d2 * d2 + d3 * d3) = 1)%R as HuS.
    { rewrite <- HL2.
      replace (iota * iota * (L * L))%R with ((iota * L) * (iota * L))%R by ring.
      rewrite HiL. ring. }
    unfold smul, vmuls, vneg, dot.
    cbn [vx vy vz F.mul F.add F.sub F.neg].
    set (D := dashpot_damping p). set (q := quad_size p) in *.
    set (du := (u1 * d1 + u2 * d2 + u3 * d3)%R).
    set (dw := (w1 * d1 + w2 * d2 + w3 * d3)%R).
    split.
    + intros H. injection H as H1 H2 H3.
      destruct (Req_dec_T D 0) as [HD | HD]; [now left | right].
      f_equal. fold du dw.
      assert (D * q * (du - dw) * (iota * iota * (d1 * d1 + d2 * d2 + d3 * d3))
              = 0)%R as E.
      { replace (D * q * (du - dw)
                 * (iota * iota * (d1 * d1 + d2 * d2 + d3 * d3)))%R
          with (d1 * (- (- u1 * (iota * - d1) + - u2 * (iota * - d2)
                          + - u3 * (iota * - d3)) * (iota * - d1) * D * q
                      - - (- (w1 * (iota * d1) + w2 * (iota * d2)
                              + w3 * (iota * d3)) * (iota * d1) * D * q))
                + d2 * (- (- u1 * (iota * - d1) + - u2 * (iota * - d2)
                            + - u3 * (iota * - d3)) * (iota * - d2) * D * q
                        - - (- (w1 * (iota * d1) + w2 * (iota * d2)
                                + w3 * (iota * d3)) * (iota * d2) * D * q))
                + d3 * (- (- u1 * (iota * - d1) + - u2 * (iota * - d2)
                            + - u3 * (iota * - d3)) * (iota * - d3) * D * q
                        - - (- (w1 * (iota * d1) + w2 * (iota * d2)
                                + w3 * (iota * d3)) * (iota * d3) * D * q)))%R
          by (unfold du, dw; ring).
        rewrite H1, H2, H3. ring. }
      rewrite HuS in E.
      assert (D * q <> 0)%R as HDq by (apply Rmult_integral_contrapositive; lra).
      replace (D * q * (du - dw) * 1)%R with ((D * q) * (du - dw))%R in E by ring.
      apply Rmult_integral in E. destruct E as [E | E]; [contradiction | lra].
    + intros [HD | H].
      * rewrite HD. f_equal; f_equal; ring.
      * injection H as H. fold du dw in H.
        assert (forall c : R,
                  (- (- u1 * (iota * - d1) + - u2 * (iota * - d2)
                      + - u3 * (iota * - d3)) * (iota * - c) * D * q
                   = - (- (w1 * (iota * d1) + w2 * (iota * d2)
                           + w3 * (iota * d3)) * (iota * c) * D * q))%R) as Hc.
        { intros c.
          replace (- (- u1 * (iota * - d1) + - u2 * (iota * - d2)
                      + - u3 * (iota * - d3)) * (iota * - c) * D * q)%R
            with (iota * du * (iota * c) * D * q)%R by (unfold du; ring).
          rewrite H. unfold dw. ring. }
        f_equal; f_equal; apply Hc.
Qed.

(** C10, as the code has it.  In both topology modes the offset set is
    closed under negation, so a spring between two in-bounds points [i] and
    [j = i + o] is visited from both ends, and each visit adds the elastic
    and the dashpot term of the pair to the force.  Whatever iterations of
    the spring loop ran between the two visits, the elastic terms added at
    the two ends are equal and opposite; the dashpot terms are equal and
    opposite exactly when [dashpot_damping] is zero or the relative velocity
    of the pair along the spring is the same at both visits. *)
Theorem spring_offsets_symmetric (b : bool) :
  (forall o : idx,
     In o (build_spring_offsets b) -> In (idx_neg o) (build_spring_offsets b)) /\
  (forall (p : Params) (s : State) (l : list idx) (i o : idx) (f : vec3),
     0 < n p -> In o (build_spring_offsets b) ->
     let j := idx_add i o in
     let s' := fold_left (spring_body p) l s in
     in_bounds p i = true -> in_bounds p j = true ->
     vfinite (x s i) -> vfinite (x s j) -> F.is_finite (spring_Y s) ->
     idx_add j (idx_neg o) = i /\
     spring_term p s i f o
     = vadd (vadd f (elastic_term p s i j)) (dashpot_term p s i j) /\
     spring_term p s' j f (idx_neg o)
     = vadd (vadd f (elastic_term p s' j i)) (dashpot_term p s' j i) /\
     elastic_term p s' j i = vneg (elastic_term p s i j) /\
     (vfinite (v s i) -> vfinite (v s j) ->
      vfinite (v s' i) -> vfinite (v s' j) ->
      (dashpot_term p s' j i = vneg (dashpot_term p s i j) <->
       (dashpot_damping p = 0%R \/
        along_spring s' s i j = along_spring s s i j)))).
Proof.
  split.
  - intros o. apply offsets_closed_under_negation.
  - intros p s l i o f Hn Ho j s' Hbi Hbj Hxi Hxj HY.
    assert (i <> j) as Hij.
    { intros E. apply (offset_moves i o (offset_not_zero b o Ho)). now symmetry. }
    split; [apply idx_add_neg |]. split; [| split; [| split]].
    + rewrite spring_term_split. fold j. now rewrite Hbj.
    + assert (idx_add j (idx_neg o) = i) as Hji by apply idx_add_neg.
      now rewrite spring_term_split, Hji, Hbi.
    + unfold s'. rewrite elastic_term_later. now apply elastic_opposite.
    + intros Hvi Hvj Hvi' Hvj'.
      destruct (spring_loop_x p l s) as [Hx _]. fold s' in Hx.
      apply dashpot_opposite_iff; auto; now rewrite Hx.
Qed.

Lemma spring_offsets_symmetric_witness :
  let s := state_stretched in
  let s' := fold_left (spring_body params_still) [(0, 1)] s in
  In (idx_neg (1, 1)) (build_spring_offsets false) /\
  spring_term params_still s (0, 0) vzero (1, 1)
  = vadd (vadd vzero (elastic_term params_still s (0, 0) (1, 1)))
         (dashpot_term params_still s (0, 0) (1, 1)) /\
  elastic_term params_still s' (1, 1) (0, 0)
  = vneg (elastic_term params_still s (0, 0) (1, 1)) /\
  dashpot_term params_still s' (1, 1) (0, 0)
  = vneg (dashpot_term params_still s (0, 0) (1, 1)).
Proof.
  intros s s'.
  destruct (spring_offsets_symmetric false) as [Hneg Hopp].
  assert (In (1, 1) (build_spring_offsets false)) as Ho by (simpl; tauto).
  assert (0 < n params_still) as Hn by (simpl; lia).
  assert (F.is_finite (spring_Y s)) as HY by (eexists; reflexivity).
  destruct (Hopp params_still s [(0, 1)] (0, 0) (1, 1) vzero Hn Ho
              eq_refl eq_refl (cell_x_finite _) (cell_x_finite _) HY)
    as (_ & H1 & _ & H3 & H4).
  split; [now apply Hneg |]. split; [exact H1 |]. split; [exact H3 |].
  apply H4; try apply cell_v_finite. right. reflexivity.
Defined.

Lemma line_dashpot (p : Params) (s : State) (i j : idx)
    (a b u u2 u3 w w2 w3 : R) :
  x s i = V3 (Fin a) (Fin 0) (Fin 0) -> x s j = V3 (Fin b) (Fin 0) (Fin 0) ->
  a <> b ->
  v s i = V3 (Fin u) (Fin u2) (Fin u3) -> v s j = V3 (Fin w) (Fin w2) (Fin w3) ->
  dashpot_term p s i j
  = V3 (Fin (- (u - w) * dashpot_damping p * quad_size p)) (Fin 0) (Fin 0).
Proof.
  intros Hxi Hxj Hab Hvi Hvj.
  unfold dashpot_term. rewrite Hxi, Hxj, Hvi, Hvj.
  unfold vsub. cbn [vx vy vz F.sub F.add F.neg].
  set (d1 := (a + - b)%R). set (z := (0 + - 0)%R).
  assert (z = 0%R) as Hz by (unfold z; ring).
  assert (V3 (Fin d1) (Fin z) (Fin z) <> vzero) as Hnz.
  { intros H. injection H as H1 _ _. unfold d1 in H1. apply Hab. lra. }
  pose proof (len_pos _ _ _ Hnz) as HL.
  pose proof (len_sqr d1 z z) as HL2.
  rewrite (normalized_fin _ _ _ Hnz).
  set (L := len d1 z z) in *.
  set (iota := (1 / (L + 0))%R).
  assert (iota * L = 1)%R as HiL by (unfold iota; field; lra).
  assert (iota * iota * (d1 * d1) = 1)%R as Hid.
  { replace (d1 * d1)%R with (L * L)%R by (rewrite HL2, Hz; ring).
    replace (iota * iota * (L * L))%R with ((iota * L) * (iota * L))%R by ring.
    rewrite HiL. ring. }
  unfold smul, vmuls, dot.
  cbn [vx vy vz F.mul F.add F.sub F.neg]. rewrite Hz.
  f_equal; f_equal; try ring.
  replace (- ((u + - w) * (iota * d1) + (u2 + - w2) * (iota * 0)
              + (u3 + - w3) * (iota * 0)) * (iota * d1)
           * dashpot_damping p * quad_size p)%R
    with (- (u - w) * (iota * iota * (d1 * d1))
          * dashpot_damping p * quad_size p)%R by ring.
  rewrite Hid. ring.
Qed.

Lemma line_at_first_v (k : idx) :
  on_grid params_still k ->
  x line_at_first k = line_x k /\
  v line_at_first k
  = V3 (Fin (re (vx (cell_v k)) + 0 * dt params_still))
       (Fin (0 + 0 * dt params_still)) (Fin (0 + 0 * dt params_still)).
Proof.
  intros Hk. unfold line_at_first.
  destruct (gravity_stage_cell params_still state_in_line k Hk) as [-> ->].
  split; [reflexivity |]. unfold gravity_v.
  change (v state_in_line k) with (cell_v k). unfold cell_v.
  destruct (idx_eqb k (1, 1)); reflexivity.
Qed.

Lemma line_at_last_fields :
  x line_at_last = x line_at_first /\
  v line_at_last (1, 1) = v line_at_first (1, 1) /\
  v line_at_last (0, 0) = spring_v params_still state_in_line (0, 0).
Proof.
  unfold line_at_last. split; [| split].
  - apply spring_loop_x.
  - apply spring_loop_unvisited. simpl. intuition discriminate.
  - change [(0, 0); (0, 1); (1, 0)] with ([(0, 0)] ++ [(0, 1); (1, 0)]).
    rewrite fold_left_app, spring_loop_unvisited.
    + change (fold_left (spring_body params_still) [(0, 0)] line_at_first)
        with (spring_body params_still line_at_first (0, 0)).
      rewrite spring_body_at.
      symmetry. apply (spring_v_congr params_still _ _ (0, 0) line_quiet).
      apply on_grid2; lia.
    + simpl. intuition discriminate.
Qed.

(** C10 as stated fails for the dashpot terms.  In [substep] on
    [state_in_line] the spring loop visits the spring between (0,0) and
    (1,1) first from (0,0) and last from (1,1); in between it has replaced
    the velocity of (0,0), so the dashpot term added at (1,1) is not the
    opposite of the one added at (0,0), and neither are the two whole
    contributions. *)
Lemma dashpot_pair_not_opposite :
  spring_stage params_still line_at_first
  = spring_body params_still line_at_last (1, 1) /\
  idx_add (0, 0) (1, 1) = (1, 1) /\
  dashpot_term params_still line_at_last (1, 1) (0, 0)
  <> vneg (dashpot_term params_still line_at_first (0, 0) (1, 1)) /\
  spring_term params_still line_at_last (1, 1) vzero (idx_neg (1, 1))
  <> vneg (spring_term params_still line_at_first (0, 0) vzero (1, 1)).
Proof.
  assert (on_grid params_still (0, 0)) as H0 by (apply on_grid2; lia).
  assert (on_grid params_still (1, 1)) as H1 by (apply on_grid2; lia).
  destruct (line_at_first_v (0, 0) H0) as [Hx0 Hv0].
  destruct (line_at_first_v (1, 1) H1) as [Hx1 Hv1].
  destruct line_at_last_fields as (Hx & Hv1' & Hv0').
  rewrite Hv1 in Hv1'. rewrite line_first_visit in Hv0'.
  assert (spring_Y line_at_first = Fin 0 /\ spring_Y line_at_last = Fin 0)
    as [HY HY'].
  { pose proof (gravity_stage_tunables params_still state_in_line) as Ht.
    fold line_at_first in Ht.
    destruct (spring_loop_x params_still [(0, 0); (0, 1); (1, 0)] line_at_first)
      as [_ Ht'].
    fold line_at_last in Ht'. rewrite Ht in Ht'.
    apply tunables_eq in Ht. apply tunables_eq in Ht'.
    destruct Ht as (-> & _). destruct Ht' as (-> & _). split; reflexivity. }
  assert (0 < n params_still) as Hn by (simpl; lia).
  split; [reflexivity |]. split; [reflexivity |]. split.
  - rewrite (line_dashpot params_still line_at_last (1, 1) (0, 0) 4 1
               _ _ _ _ _ _ ltac:(now rewrite Hx, Hx1) ltac:(now rewrite Hx, Hx0)
               ltac:(lra) Hv1' Hv0').
    rewrite (line_dashpot params_still line_at_first (0, 0) (1, 1) 1 4
               _ _ _ _ _ _ Hx0 Hx1 ltac:(lra) Hv0 Hv1).
    unfold vneg. cbn [vx vy vz F.neg re cell_v idx_eqb fst snd Z.eqb Pos.eqb
                      andb vzero].
    intros H. injection H as H.
    unfold quad_size, dt in H. cbn [n dashpot_damping params_still] in H. lra.
  - change (idx_neg (1, 1)) with (-1, -1).
    unfold vzero at 1 2.
    rewrite (line_term params_still line_at_last (1, 1) (-1, -1) 4 1
               _ _ _ _ _ _ 0 0 0 Hn HY' ltac:(discriminate) eq_refl
               ltac:(now rewrite Hx, Hx1)
               ltac:(change (idx_add (1, 1) (-1, -1)) with (0, 0);
                     now rewrite Hx, Hx0)
               ltac:(lra) Hv1' Hv0').
    rewrite (line_term params_still line_at_first (0, 0) (1, 1) 1 4
               _ _ _ _ _ _ 0 0 0 Hn HY ltac:(discriminate) eq_refl
               Hx0 Hx1 ltac:(lra) Hv0 Hv1).
    unfold vneg. cbn [vx vy vz F.neg re cell_v idx_eqb fst snd Z.eqb Pos.eqb
                      andb vzero].
    intros H. injection H as H.
    unfold quad_size, dt in H. cbn [n dashpot_damping params_still] in H. lra.
Qed.

(** * A step with drag alone, whatever the schedule *)

Lemma within_finite (B : R) (a : vec3) : within B a -> vfinite a.
Proof. intros (a1 & a2 & a3 & -> & _). apply fin_vfinite. Qed.

Lemma within_fin (B a1 a2 a3 : R) :
  (- B <= a1 <= B)%R -> (- B <= a2 <= B)%R -> (- B <= a3 <= B)%R ->
  within B (V3 (Fin a1) (Fin a2) (Fin a3)).
Proof.
  intros H1 H2 H3. exists a1, a2, a3.
  split; [reflexivity |]. repeat split; apply Rabs_le; assumption.
Qed.

Lemma apart_nonzero (eps : R) (a b : vec3) :
  (0 < eps)%R -> apart eps a b -> vsub a b <> vzero.
Proof.
  intros He (d1 & d2 & d3 & -> & H) E. injection E as -> -> ->.
  assert (0 < eps * eps)%R by nra. lra.
Qed.

Lemma gravity_loop_quiet (p : Params) (l : list idx) (s : State) :
  schedule p l -> gravity p = (0, 0, 0)%R ->
  (forall k, on_grid p k -> vfinite (v s k)) ->
  same_physics p s (fold_left (gravity_body p) l s).
Proof.
  intros Hl Hg Hfin. split.
  - intros k Hk. destruct (gravity_loop_cell p l s k Hl Hk) as [-> ->].
    split; [reflexivity |]. unfold gravity_v. rewrite Hg.
    symmetry. apply (vadd_zero_scaled _ (dt p)), Hfin, Hk.
  - now rewrite (loop_tunables (gravity_body p)).
Qed.

Lemma spring_term_dashpot_only (p : Params) (s : State) (i o : idx) (f : vec3) :
  0 < n p -> spring_Y s = Fin 0 -> o <> (0, 0) -> vfinite f ->
  (in_bounds p (idx_add i o) = true ->
     vfinite (x s i) /\ vfinite (x s (idx_add i o)) /\
     vfinite (v s i) /\ vfinite (v s (idx_add i o)) /\
     vsub (x s i) (x s (idx_add i o)) <> vzero) ->
  spring_term p s i f o
  = (if in_bounds p (idx_add i o)
     then vadd f (dashpot_term p s i (idx_add i o)) else f) /\
  vfinite (spring_term p s i f o).
Proof.
  intros Hn HY Ho Hf H. unfold spring_term, dashpot_term.
  destruct (in_bounds p (idx_add i o)); [| split; [reflexivity | exact Hf]].
  destruct (H eq_refl) as (Hxi & Hxj & Hvi & Hvj & Hnz). clear H.
  rewrite HY.
  assert (0 < len2 (idx_sub i (idx_add i o)))%R as H2.
  { apply len2_pos. destruct i as [i0 i1], o as [o0 o1].
    unfold idx_sub, idx_add. cbn [fst snd]. intros E. injection E as E0 E1.
    apply Ho. f_equal; lia. }
  assert (0 < quad_size p)%R as Hq.
  { unfold quad_size. apply Rdiv_lt_0_compat; [lra |]. now apply IZR_lt. }
  destruct (vsub_swap _ _ Hxi Hxj) as (d1 & d2 & d3 & Hsub & _).
  destruct (vsub_swap _ _ Hvi Hvj) as (w1 & w2 & w3 & Hw & _).
  rewrite Hsub, Hw in *.
  apply vfinite_fin in Hf. destruct Hf as (f1 & f2 & f3 & ->).
  pose proof (len_pos _ _ _ Hnz) as HL.
  rewrite (normalized_fin _ _ _ Hnz), norm_fin, norm2_fin.
  cbn [F.mul]. rewrite div_fin by nra.
  unfold smul, vmuls, vadd, dot.
  cbn [vx vy vz F.mul F.add F.sub F.neg].
  split; [f_equal; f_equal; ring | apply fin_vfinite].
Qed.

Lemma spring_force_dashpot (p : Params) (s : State) (i : idx) :
  0 < n p -> spring_Y s = Fin 0 -> in_float_range p s -> on_grid p i ->
  spring_force p s i = dashpot_force p s i.
Proof.
  intros Hn HY [Hfin Hapart] Hi. unfold spring_force, dashpot_force.
  assert (forall l f, (forall o, In o l -> In o (spring_offsets s)) ->
            vfinite f ->
            fold_left (spring_term p s i) l f
            = fold_left (fun f o =>
                if in_bounds p (idx_add i o)
                then vadd f (dashpot_term p s i (idx_add i o)) else f) l f)
    as H.
  { induction l as [| o l IH]; intros f Hl Hf; simpl; [reflexivity |].
    assert (In o (spring_offsets s)) as Hin by (apply Hl; now left).
    destruct (spring_term_dashpot_only p s i o f Hn HY) as [E Hf']; auto.
    - intros ->.
      assert (on_grid p (idx_add i (0, 0))) as Hi0 by (now rewrite idx_add_zero).
      apply (apart_nonzero 1e-18 _ _ ltac:(lra) (Hapart i (0, 0) Hi Hin Hi0)).
      rewrite idx_add_zero. apply vsub_self.
      apply (within_finite 1e18), Hfin, Hi.
    - intros Hb. apply in_bounds_on_grid in Hb.
      destruct (Hfin i Hi) as [Hxi Hvi].
      destruct (Hfin _ Hb) as [Hxj Hvj].
      split; [exact (within_finite _ _ Hxi) |].
      split; [exact (within_finite _ _ Hxj) |].
      split; [exact (within_finite _ _ Hvi) |].
      split; [exact (within_finite _ _ Hvj) |].
      apply (apart_nonzero 1e-18); [lra |]. now apply Hapart.
    - rewrite <- E. apply IH; [| exact Hf'].
      intros o' Ho'. apply Hl. now right. }
  apply H; [auto | apply fin_vfinite].
Qed.

Lemma dashpot_term_still (p : Params) (s : State) (i j : idx) :
  vfinite (x s i) -> vfinite (x s j) -> vfinite (v s i) -> vfinite (v s j) ->
  vsub (x s i) (x s j) <> vzero ->
  (dashpot_damping p = 0%R \/
   dot (vsub (v s i) (v s j)) (vsub (x s i) (x s j)) = Fin 0) ->
  dashpot_term p s i j = vzero.
Proof.
  intros Hxi Hxj Hvi Hvj Hnz Hd. unfold dashpot_term.
  destruct (vsub_swap _ _ Hxi Hxj) as (d1 & d2 & d3 & Hsub & _).
  destruct (vsub_swap _ _ Hvi Hvj) as (w1 & w2 & w3 & Hw & _).
  rewrite Hsub, Hw in *.
  rewrite (normalized_fin _ _ _ Hnz).
  set (iota := (1 / (len d1 d2 d3 + 0))%R).
  destruct Hd as [Hd | Hd].
  - rewrite Hd. unfold smul, vmuls, dot, vzero.
    cbn [vx vy vz F.mul F.add F.neg]. f_equal; f_equal; ring.
  - unfold dot in Hd. cbn [vx vy vz F.mul F.add] in Hd. injection Hd as Hd.
    assert (w1 * (iota * d1) + w2 * (iota * d2) + w3 * (iota * d3) = 0)%R
      as Hd'.
    { replace (w1 * (iota * d1) + w2 * (iota * d2) + w3 * (iota * d3))%R
        with (iota * (w1 * d1 + w2 * d2 + w3 * d3))%R by ring.
      rewrite Hd. ring. }
    unfold smul, vmuls, dot, vzero.
    cbn [vx vy vz F.mul F.add F.neg]. rewrite Hd'.
    f_equal; f_equal; ring.
Qed.

Lemma vadd_vzero : vadd vzero vzero = vzero.
Proof. unfold vadd, vzero. cbn [vx vy vz F.add]. f_equal; f_equal; ring. Qed.

(** Two cases without dashpot force: a zero coefficient, and a cloth in
    which no connected pair has a relative velocity along its spring, such
    as one that moves or turns as a rigid body. *)
Lemma no_motion_no_force (p : Params) (s : State) :
  in_float_range p s -> no_motion_along_springs p s -> no_dashpot_force p s.
Proof.
  intros [Hfin Hapart] Hdash i Hi. unfold dashpot_force.
  assert (forall l, (forall o, In o l -> In o (spring_offsets s)) ->
            fold_left (fun f o =>
              if in_bounds p (idx_add i o)
              then vadd f (dashpot_term p s i (idx_add i o)) else f) l vzero
            = vzero) as H.
  { induction l as [| o l IH]; intros Hl; simpl; [reflexivity |].
    assert (In o (spring_offsets s)) as Hin by (apply Hl; now left).
    destruct (in_bounds p (idx_add i o)) eqn:Hb.
    - apply in_bounds_on_grid in Hb.
      destruct (Hfin i Hi) as [Hxi Hvi].
      destruct (Hfin _ Hb) as [Hxj Hvj].
      rewrite dashpot_term_still.
      + rewrite vadd_vzero. apply IH. intros o' Ho'. apply Hl. now right.
      + exact (within_finite _ _ Hxi).
      + exact (within_finite _ _ Hxj).
      + exact (within_finite _ _ Hvi).
      + exact (within_finite _ _ Hvj).
      + apply (apart_nonzero 1e-18); [lra |]. now apply Hapart.
      + destruct Hdash as [Hd | Hd]; [now left | right; now apply Hd].
    - apply IH. intros o' Ho'. apply Hl. now right. }
  apply H. auto.
Qed.

Lemma spring_force_in_range (p : Params) (s : State) (i : idx) :
  0 < n p -> spring_Y s = Fin 0 -> in_float_range p s -> on_grid p i ->
  vfinite (spring_force p s i).
Proof.
  intros Hn HY [Hfin Hapart] Hi. unfold spring_force.
  assert (forall l f, (forall o, In o l -> In o (spring_offsets s)) ->
            vfinite f -> vfinite (fold_left (spring_term p s i) l f)) as H.
  { induction l as [| o l IH]; intros f Hl Hf; simpl; [exact Hf |].
    assert (In o (spring_offsets s)) as Hin by (apply Hl; now left).
    destruct (spring_term_dashpot_only p s i o f Hn HY) as [_ Hf']; auto.
    - intros ->.
      assert (on_grid p (idx_add i (0, 0))) as Hi0 by (now rewrite idx_add_zero).
      apply (apart_nonzero 1e-18 _ _ ltac:(lra) (Hapart i (0, 0) Hi Hin Hi0)).
      rewrite idx_add_zero. apply vsub_self.
      apply (within_finite 1e18), Hfin, Hi.
    - intros Hb. apply in_bounds_on_grid in Hb.
      destruct (Hfin i Hi) as [Hxi Hvi].
      destruct (Hfin _ Hb) as [Hxj Hvj].
      split; [exact (within_finite _ _ Hxi) |].
      split; [exact (within_finite _ _ Hxj) |].
      split; [exact (within_finite _ _ Hvi) |].
      split; [exact (within_finite _ _ Hvj) |].
      apply (apart_nonzero 1e-18); [lra |]. now apply Hapart.
    - apply IH; [| exact Hf'].
      intros o' Ho'. apply Hl. now right. }
  apply H; [auto | apply fin_vfinite].
Qed.

Lemma dt_pos (p : Params) : 0 < n p -> (0 < dt p)%R.
Proof.
  intros Hn. unfold dt. apply Rdiv_lt_0_compat; [lra |]. now apply IZR_lt.
Qed.

(** A finite velocity that an added impulse leaves as it is received no
    impulse. *)
Lemma no_impulse (a f : vec3) (t : R) :
  (0 < t)%R -> vfinite a -> vfinite f ->
  vadd a (vmuls f (Fin t)) = a -> f = vzero.
Proof.
  intros Ht Ha Hf. apply vfinite_fin in Ha, Hf.
  destruct Ha as (a1 & a2 & a3 & ->). destruct Hf as (f1 & f2 & f3 & ->).
  unfold vadd, vmuls, vzero. cbn [vx vy vz F.mul F.add].
  intros H. injection H as H1 H2 H3. f_equal; f_equal; nra.
Qed.

Lemma mul_fin_inv (a : float) (e c : R) :
  (0 < e)%R -> F.mul a (Fin e) = Fin (c * e) -> a = Fin c.
Proof.
  intros He. destruct a as [r | | |]; cbn [F.mul].
  - intros H. injection H as H. f_equal. nra.
  - unfold F.signed_inf. destruct (Req_dec_T e 0); [discriminate |].
    destruct (Rlt_dec 0 e); discriminate.
  - unfold F.signed_inf. destruct (Req_dec_T (- e) 0); [discriminate |].
    destruct (Rlt_dec 0 (- e)); discriminate.
  - discriminate.
Qed.

Lemma drag_inv (p : Params) (a b : vec3) :
  vfinite b ->
  drag p a = vmuls b (Fin (exp (- drag_damping p * dt p))) -> a = b.
Proof.
  intros Hb. apply vfinite_fin in Hb. destruct Hb as (b1 & b2 & b3 & ->).
  pose proof (exp_pos (- drag_damping p * dt p)) as He.
  unfold drag, vmuls. cbn [vx vy vz F.exp F.mul].
  destruct a as [a1 a2 a3]. cbn [vx vy vz].
  intros H. injection H as H1 H2 H3.
  apply mul_fin_inv in H1, H2, H3; try assumption. now subst.
Qed.

(** A spring loop that leaves every velocity it visits as it was found no
    force on any of them. *)
Lemma spring_loop_still_no_force (p : Params) (s : State) (l : list idx) :
  0 < n p -> spring_Y s = Fin 0 -> in_float_range p s ->
  NoDup l -> (forall k, In k l -> on_grid p k) ->
  forall s0, same_physics p s s0 ->
  (forall k, In k l -> v (fold_left (spring_body p) l s0) k = v s0 k) ->
  forall k, In k l -> spring_force p s k = vzero.
Proof.
  intros Hn HY Hrange. induction l as [| a l IH]; intros Hnd Hl s0 Hs Hv k Hk.
  - destruct Hk.
  - inversion Hnd as [| ? ? Ha Hnd']; subst.
    assert (on_grid p a) as Hga by (apply Hl; now left).
    assert (spring_force p s a = vzero) as Hfa.
    { pose proof (Hv a (or_introl eq_refl)) as H. cbn [fold_left] in H.
      rewrite spring_loop_unvisited, spring_body_at in H by exact Ha.
      unfold spring_v in H.
      rewrite <- (spring_force_congr p s s0 a Hs Hga) in H.
      destruct Hs as [Hxv _]. destruct (Hxv a Hga) as [_ Hva].
      rewrite <- Hva in H.
      apply (no_impulse (v s a) _ (dt p)); auto.
      - now apply dt_pos.
      - destruct Hrange as [Hfin _].
        apply (within_finite 1e18), Hfin, Hga.
      - now apply spring_force_in_range. }
    destruct Hk as [<- | Hk]; [exact Hfa |].
    apply (IH Hnd' (fun k' H' => Hl k' (or_intror H')) (spring_body p s0 a));
      [| | exact Hk].
    + destruct Hs as [Hxv Ht]. split; [| exact Ht].
      intros k' Hk'. destruct (Hxv k' Hk') as [Hx Hv']. split; [exact Hx |].
      unfold spring_body. cbn [v set_v]. unfold upd.
      destruct (idx_eqb k' a) eqn:E; [| exact Hv'].
      apply idx_eqb_eq in E. subst k'.
      rewrite <- (spring_force_congr p s s0 a (conj Hxv Ht) Hga), Hfa, <- Hv'.
      symmetry. apply vadd_zero_scaled.
      destruct Hrange as [Hfin _]. apply (within_finite 1e18), Hfin, Hga.
    + intros k' Hk'. pose proof (Hv k' (or_intror Hk')) as H.
      cbn [fold_left] in H. rewrite H.
      unfold spring_body. cbn [v set_v]. symmetry. apply upd_other.
      intros ->. now apply Ha.
Qed.

(** The converse: a step that only drags found no dashpot force. *)
Lemma drag_only_no_force (p : Params) (lg ls lc : list idx) (s : State) :
  0 < n p -> gravity p = (0, 0, 0)%R -> spring_Y s = Fin 0 ->
  in_float_range p s -> outside_ball p s ->
  schedule p lg -> schedule p ls -> schedule p lc ->
  (forall k, on_grid p k ->
     v (substep_in p lg ls lc s) k
     = vmuls (v s k) (Fin (exp (- drag_damping p * dt p)))) ->
  no_dashpot_force p s.
Proof.
  intros Hn Hg HY Hrange Hout Hlg Hls Hlc H i Hi.
  assert (forall k, on_grid p k -> vfinite (v s k)) as Hvfin.
  { intros k' Hk'. destruct Hrange as [Hfin _].
    apply (within_finite 1e18), Hfin, Hk'. }
  pose proof (gravity_loop_quiet p lg s Hlg Hg Hvfin) as Hq.
  set (sg := fold_left (gravity_body p) lg s) in *.
  rewrite <- spring_force_dashpot by assumption.
  apply (spring_loop_still_no_force p s ls Hn HY Hrange
           (schedule_nodup p ls Hls)
           (fun k Hk => proj1 (schedule_in p ls k Hls) Hk) sg Hq);
    [| now apply (schedule_in p ls i Hls)].
  intros k Hk. apply (schedule_in p ls k Hls) in Hk.
  specialize (H k Hk). unfold substep_in in H. fold sg in H.
  destruct (collision_loop_cell p lc (fold_left (spring_body p) ls sg) k Hlc Hk)
    as [_ Hc].
  rewrite Hc in H. clear Hc.
  unfold collision_v in H.
  destruct (spring_loop_x p ls sg) as [Hx Ht].
  destruct Hq as [Hxv Htq]. rewrite <- Htq in Ht.
  apply tunables_eq in Ht. destruct Ht as (_ & Hr & Hc & _).
  destruct (Hxv k Hk) as [Hxk Hvk].
  rewrite Hx, Hr, Hc, <- Hxk in H.
  unfold collide in H. rewrite (ltb_not_leb _ _ (Hout k Hk)) in H.
  apply drag_inv in H; [| now apply Hvfin]. now rewrite H.
Qed.

(** C1, with what the code needs for it.  Take a state in which
    [spring_Y] = 0, gravity is the zero vector, every point is strictly
    outside the sphere, and the magnitudes are in the range where no 32-bit
    float intermediate overflows or underflows to zero.  Then one [substep],
    in whatever order the iterations of its three loops run, multiplies
    every velocity by exp(-drag_damping*dt) and then advances every
    position by dt times the new velocity, and changes nothing else in the
    two fields, if and only if the dashpot terms of the in-bounds springs
    of every point sum to zero. *)
Theorem substep_drag_only (p : Params) (lg ls lc : list idx) (s : State) :
  0 < n p -> gravity p = (0, 0, 0)%R -> spring_Y s = Fin 0 ->
  in_float_range p s -> outside_ball p s ->
  schedule p lg -> schedule p ls -> schedule p lc ->
  (no_dashpot_force p s <->
   forall k, on_grid p k ->
     v (substep_in p lg ls lc s) k
     = vmuls (v s k) (Fin (exp (- drag_damping p * dt p))) /\
     x (substep_in p lg ls lc s) k
     = vadd (x s k) (smul (Fin (dt p)) (v (substep_in p lg ls lc s) k))).
Proof.
  intros Hn Hg HY Hrange Hout Hlg Hls Hlc. split.
  - intros Hdash k Hk.
    assert (forall k, on_grid p k -> vfinite (v s k)) as Hvfin.
    { intros k' Hk'. destruct Hrange as [Hfin _].
      apply (within_finite 1e18), Hfin, Hk'. }
    assert (same_physics p s
              (fold_left (spring_body p) ls (fold_left (gravity_body p) lg s)))
      as Hs.
    { apply spring_loop_quiet; auto.
      - intros k' Hk'. rewrite spring_force_dashpot by assumption.
        now apply Hdash.
      - intros k' Hk'. now apply (schedule_in p ls k' Hls).
      - now apply gravity_loop_quiet. }
    unfold substep_in.
    destruct (collision_loop_cell p lc
                (fold_left (spring_body p) ls (fold_left (gravity_body p) lg s))
                k Hlc Hk) as [-> ->].
    destruct Hs as [Hxv Ht]. destruct (Hxv k Hk) as [Hx Hv].
    destruct (collision_local p s _ k Hx Hv Ht) as [<- <-].
    unfold collision_x, collision_v, collide.
    rewrite (ltb_not_leb _ _ (Hout k Hk)). split; reflexivity.
  - intros H.
    apply (drag_only_no_force p lg ls lc s); auto.
    intros k Hk. exact (proj1 (H k Hk)).
Qed.

Lemma turn_v_within (k : idx) : within 1e18 (turn_v k).
Proof.
  unfold turn_v, vzero.
  repeat match goal with |- context [if ?c then _ else _] => destruct c end;
    apply within_fin; lra.
Qed.

Lemma cell_x_within (k : idx) : within 1e18 (cell_x k).
Proof.
  unfold cell_x.
  repeat match goal with |- context [if ?c then _ else _] => destruct c end;
    apply within_fin; lra.
Qed.

Lemma state_turning_range : in_float_range params_still state_turning.
Proof.
  split.
  - intros k _. split; [apply cell_x_within | apply turn_v_within].
  - intros i o Hi Hin Hj.
    change (x state_turning) with cell_x.
    change (spring_offsets state_turning) with (build_spring_offsets false) in Hin.
    apply grid2_cases in Hi. apply grid2_cases in Hj.
    rewrite spring_offsets_default in Hin. simpl in Hin.
    destruct Hi as [-> | [-> | [-> | ->]]];
      repeat (destruct Hin as [<- | Hin];
              [ destruct Hj as [Hj | [Hj | [Hj | Hj]]]; try discriminate Hj;
                unfold apart, vsub, cell_x; simpl;
                eexists _, _, _; (split; [reflexivity | lra]) | ]);
      destruct Hin.
Qed.

Lemma state_turning_still : no_motion_along_springs params_still state_turning.
Proof.
  right. intros i o Hi Hin Hj.
  change (x state_turning) with cell_x. change (v state_turning) with turn_v.
  change (spring_offsets state_turning) with (build_spring_offsets false) in Hin.
  apply grid2_cases in Hi. apply grid2_cases in Hj.
  rewrite spring_offsets_default in Hin. simpl in Hin.
  destruct Hi as [-> | [-> | [-> | ->]]];
    repeat (destruct Hin as [<- | Hin];
            [ destruct Hj as [Hj | [Hj | [Hj | Hj]]]; try discriminate Hj;
              unfold vsub, dot, cell_x, turn_v, vzero; simpl;
              f_equal; lra | ]);
    destruct Hin.
Qed.

Lemma substep_drag_only_witness :
  v state_turning (0, 1) <> v state_turning (1, 0) /\
  v (substep_in params_still (ndrange 2 2) last_cell_first (ndrange 2 2)
       state_turning) (0, 1)
  = vmuls (v state_turning (0, 1))
          (Fin (exp (- drag_damping params_still * dt params_still))).
Proof.
  assert (0 < n params_still) as Hn by (simpl; lia).
  assert (outside_ball params_still state_turning) as Hout
      by (apply cell_x_outside; reflexivity).
  assert (on_grid params_still (0, 1)) as Hk by (unfold on_grid; simpl; lia).
  assert (schedule params_still (ndrange 2 2)) as Hrow by apply Permutation_refl.
  split.
  - simpl. intros H. injection H. lra.
  - exact (proj1 (proj1 (substep_drag_only params_still (ndrange 2 2)
                           last_cell_first (ndrange 2 2) state_turning
                           Hn eq_refl eq_refl state_turning_range Hout
                           Hrow last_cell_first_schedule Hrow)
                    (no_motion_no_force _ _ state_turning_range
                       state_turning_still) (0, 1) Hk)).
Defined.
